(** * nig-tax-calculator: the configuration server ([server.js])

    A shallow embedding of [server.js] and of the parts of the JavaScript
    runtime it calls ([JSON.parse], [JSON.stringify], [path.join],
    [path.extname], [String.prototype.toLowerCase]), followed by the
    properties of the request handler.

    Conventions of the embedding:
    - a JavaScript string is the list of its UTF-16 code units ([jsstring]);
    - a JavaScript Number is an IEEE 754 binary64 value, kept as sign,
      integer significand and binary exponent ([Number]); decimal literals
      are rounded to nearest, ties to even, with exact integer arithmetic;
    - the file system is a function from paths to file states; the content
      of a file is kept as the text [fs.readFileSync(path, 'utf8')] gives
      for it, and a string that is written or sent goes through UTF-8,
      which turns a surrogate outside a pair into U+FFFD ([utf8_text]);
    - the body of a request arrives as chunks of bytes; the handler decodes
      each chunk on its own ([utf8_decode]) and appends it to the text it
      has collected;
    - [JSON.stringify] descends one level of the stack for each level of
      nesting and throws a RangeError when the stack is exhausted; how much
      room there is at each of its two calls on data is a matter of the
      run-time, and part of the world;
    - the handler is a function from the world and a request to a response,
      the new world and the trace of the effects it performed; it stands for
      one run of the listener in a process that serves.  An exception that
      leaves the listener is recorded as the effect [Uncaught], and the
      response is then not [finished]: Node prints such an exception and the
      process exits, so a request after it is served only by a process
      started again, on the files as they were left. *)

From Stdlib Require Import List ZArith NArith Bool String Ascii Lia.
Import ListNotations.

(* ===================================================================== *)
(** * JavaScript strings *)
(* ===================================================================== *)

(** A string is a sequence of 16-bit code units. *)
Definition jsstring := list N.

(** The code units of an ASCII literal of the source. *)
Definition js (s : string) : jsstring :=
  map N_of_ascii (list_ascii_of_string s).

Fixpoint jsstring_eqb (a b : jsstring) : bool :=
  match a, b with
  | [], [] => true
  | x :: a', y :: b' => N.eqb x y && jsstring_eqb a' b'
  | _, _ => false
  end.

(** [s.startsWith(p)] *)
Fixpoint startsWith (s p : jsstring) : bool :=
  match p, s with
  | [], _ => true
  | x :: p', y :: s' => N.eqb x y && startsWith s' p'
  | _ :: _, [] => false
  end.

(** [s.split(sep)[0]] for a one-unit separator: the units before the first
    occurrence of [sep], the whole string when there is none. *)
Fixpoint split_head (sep : N) (s : jsstring) : jsstring :=
  match s with
  | [] => []
  | c :: r => if N.eqb c sep then [] else c :: split_head sep r
  end.

(** [String.prototype.toLowerCase] on one code unit.  The ASCII letters and
    the Latin-1 capitals (U+00C0..U+00DE but U+00D7) move by 32; every other
    unit is left as it is.  (Above U+00FF the full Unicode mapping is not
    modelled; it sends no unit to an ASCII letter other than U+212A to k.) *)
Definition lower_unit (c : N) : N :=
  if (N.leb 65 c && N.leb c 90)%bool then (c + 32)%N
  else if (N.leb 192 c && N.leb c 222 && negb (N.eqb c 215))%bool then (c + 32)%N
  else c.

Definition toLowerCase (s : jsstring) : jsstring := map lower_unit s.

(** [parts.join(sep)] *)
Fixpoint join (sep : jsstring) (parts : list jsstring) : jsstring :=
  match parts with
  | [] => []
  | [p] => p
  | p :: rest => p ++ sep ++ join sep rest
  end.

(* ===================================================================== *)
(** * JavaScript Numbers (IEEE 754 binary64) *)
(* ===================================================================== *)

Local Open Scope Z_scope.

(** [Finite neg m e] is (-1)^neg * m * 2^e.  The canonical representatives
    are those of binary64: normal numbers have a 53-bit significand,
    subnormal numbers and the zeros have the least exponent. *)
Inductive Number : Type :=
| NaN
| Infinity (neg : bool)
| Finite (neg : bool) (m : Z) (e : Z).

Definition emin : Z := -1074.
Definition emax : Z := 971.

Definition canonicalb (m e : Z) : bool :=
  (0 <=? m) && (m <? 2 ^ 53) && (emin <=? e) && (e <=? emax)
  && ((2 ^ 52 <=? m) || (e =? emin)).

Definition wf_Number (x : Number) : bool :=
  match x with
  | Finite _ m e => canonicalb m e
  | _ => true
  end.

Definition isFinite (x : Number) : bool :=
  match x with Finite _ _ _ => true | _ => false end.

(** [x === y] on Numbers: NaN differs from itself, the two zeros are equal. *)
Definition Number_strict_eq (x y : Number) : bool :=
  match x, y with
  | Infinity a, Infinity b => Bool.eqb a b
  | Finite a m e, Finite b n f =>
      (m =? n) && (e =? f) && ((m =? 0) || Bool.eqb a b)
  | _, _ => false
  end.

(** ** Rounding a positive rational [p/q] to binary64 *)

(** The fraction [p/q * 2^(-e)], for any sign of [e]. *)
Definition scale2 (p q e : Z) : Z * Z :=
  if 0 <=? e then (p, q * 2 ^ e) else (p * 2 ^ (- e), q).

(** [2^d <= p/q] *)
Definition pow2_le (d p q : Z) : bool :=
  let (n, den) := scale2 p q d in den <=? n.

(** The floor of the binary logarithm of [p/q]. *)
Definition flog2 (p q : Z) : Z :=
  let d := Z.log2 p - Z.log2 q in
  if pow2_le d p q then d else d - 1.

(** Rounding the quotient [n/d] to the nearest integer, ties to even. *)
Definition rne (n d : Z) : Z :=
  let f := n / d in
  let r := n mod d in
  if 2 * r <? d then f
  else if d <? 2 * r then f + 1
  else if Z.even f then f else f + 1.

(** Significand and exponent of the binary64 nearest to [p/q]; the exponent
    may exceed [emax], which the caller turns into an infinity. *)
Definition round_pos (p q : Z) : Z * Z :=
  let e := Z.max (flog2 p q - 52) emin in
  let (n, den) := scale2 p q e in
  let m := rne n den in
  if m =? 2 ^ 53 then (2 ^ 52, e + 1) else (m, e).

Definition round_rat (neg : bool) (p q : Z) : Number :=
  if p =? 0 then Finite neg 0 emin
  else
    let (m, e) := round_pos p q in
    if emax <? e then Infinity neg else Finite neg m e.

(** The Number value of the decimal [M * 10^E] with [0 <= M]. *)
Definition round_dec (neg : bool) (M E : Z) : Number :=
  if 0 <=? E then round_rat neg (M * 10 ^ E) 1
  else round_rat neg M (10 ^ (- E)).

Definition Number_eqb (x y : Number) : bool :=
  match x, y with
  | NaN, NaN => true
  | Infinity a, Infinity b => Bool.eqb a b
  | Finite a m e, Finite b n f => Bool.eqb a b && (m =? n) && (e =? f)
  | _, _ => false
  end.

(** ** Decimal digits *)

Definition digit_unit (d : Z) : N := Z.to_N (48 + d).

Definition is_digit (c : N) : bool := (N.leb 48 c && N.leb c 57)%bool.

Definition digit_val (c : N) : Z := Z.of_N c - 48.

Fixpoint digits_fuel (fuel : nat) (n : Z) (acc : jsstring) : jsstring :=
  match fuel with
  | O => acc
  | S f =>
      let acc' := digit_unit (n mod 10) :: acc in
      if n <? 10 then acc' else digits_fuel f (n / 10) acc'
  end.

(** The decimal digits of [n >= 0], most significant first. *)
Definition digits (n : Z) : jsstring :=
  digits_fuel (S (Z.to_nat (Z.log2 n))) n [].

Definition ndigits (n : Z) : Z := Z.of_nat (List.length (digits n)).

(** ** Number::toString, radix 10 *)

(** The exact value of a positive finite Number as a fraction. *)
Definition exact_frac (m e : Z) : Z * Z :=
  if 0 <=? e then (m * 2 ^ e, 1) else (m, 2 ^ (- e)).

(** The [n] with [10^(n-1) <= p/q < 10^n]. *)
Definition decimal_exponent (p q : Z) : Z :=
  if q <=? p then ndigits (p / q) else 1 - ndigits ((q - 1) / p).

(** The candidates with [k] digits: the two integers around
    [p/q * 10^(k-n0)], the nearer one first; a candidate that reaches
    [10^k] is renormalised to [10^(k-1)] with the next exponent. *)
Definition candidates (p q n0 k : Z) : list (Z * Z) :=
  let P := if 0 <=? k - n0 then p * 10 ^ (k - n0) else p in
  let Q := if 0 <=? k - n0 then q else q * 10 ^ (n0 - k) in
  let f := P / Q in
  let r := P mod Q in
  let norm s := if s =? 10 ^ k then (10 ^ (k - 1), n0 + 1) else (s, n0) in
  if r =? 0 then [norm f]
  else if 2 * r <? Q then [norm f; norm (f + 1)]
  else if Q <? 2 * r then [norm (f + 1); norm f]
  else if Z.even f then [norm f; norm (f + 1)] else [norm (f + 1); norm f].

Fixpoint first_rounding (x : Number) (k : Z) (cs : list (Z * Z))
  : option (Z * Z * Z) :=
  match cs with
  | [] => None
  | (s, n) :: cs' =>
      if (10 ^ (k - 1) <=? s) && (s <? 10 ^ k)
         && Number_eqb (round_dec false s (n - k)) x
      then Some (n, k, s)
      else first_rounding x k cs'
  end.

(** The least [k] in [k0 .. k0+fuel-1] for which some [s] of [k] digits has
    [s * 10^(n-k)] round to [x]. *)
Fixpoint shortest_from (fuel : nat) (x : Number) (p q n0 k : Z)
  : option (Z * Z * Z) :=
  match fuel with
  | O => None
  | S f =>
      match first_rounding x k (candidates p q n0 k) with
      | Some r => Some r
      | None => shortest_from f x p q n0 (k + 1)
      end
  end.

(** The exact decimal expansion of [m * 2^e]: always a valid (if long)
    choice of digits. *)
Definition exact_digits (m e : Z) : Z * Z * Z :=
  let s := if 0 <=? e then m * 2 ^ e else m * 5 ^ (- e) in
  let k := ndigits s in
  ((if 0 <=? e then k else k + e), k, s).

(** Step 5 of Number::toString: integers [n], [k], [s] with [k >= 1],
    [10^(k-1) <= s < 10^k], [s * 10^(n-k)] rounding to the Number, and [k]
    as small as possible.  Seventeen digits always suffice for binary64;
    the exact expansion keeps the function total without that fact. *)
Definition shortest_digits (m e : Z) : Z * Z * Z :=
  let (p, q) := exact_frac m e in
  match shortest_from 17 (Finite false m e) p q (decimal_exponent p q) 1 with
  | Some r => r
  | None => exact_digits m e
  end.

Definition u_0 : N := 48.
Definition u_dot : N := 46.
Definition u_minus : N := 45.
Definition u_plus : N := 43.
Definition u_e : N := 101.
Definition u_E : N := 69.

(** Steps 6 to 10 of Number::toString. *)
Definition format_digits (nks : Z * Z * Z) : jsstring :=
  let '(n, k, s) := nks in
  let ds := digits s in
  if (k <=? n) && (n <=? 21) then
    ds ++ repeat u_0 (Z.to_nat (n - k))
  else if (0 <? n) && (n <=? 21) then
    firstn (Z.to_nat n) ds ++ u_dot :: skipn (Z.to_nat n) ds
  else if (-6 <? n) && (n <=? 0) then
    u_0 :: u_dot :: repeat u_0 (Z.to_nat (- n)) ++ ds
  else
    let ex := n - 1 in
    let sign := if ex <? 0 then u_minus else u_plus in
    if k =? 1 then ds ++ u_e :: sign :: digits (Z.abs ex)
    else firstn 1 ds ++ u_dot :: skipn 1 ds ++ u_e :: sign :: digits (Z.abs ex).

Definition NumberToString (x : Number) : jsstring :=
  match x with
  | NaN => js "NaN"
  | Infinity neg => if neg then js "-Infinity" else js "Infinity"
  | Finite neg m e =>
      if m =? 0 then [u_0]
      else (if neg then [u_minus] else []) ++ format_digits (shortest_digits m e)
  end.

(** ** The JSON number grammar *)

Definition text := jsstring.

(** Reads a maximal run of digits; [acc] is the value read so far and
    [cnt] the number of digits read. *)
Fixpoint read_digits (s : text) (acc cnt : Z) : Z * Z * text :=
  match s with
  | c :: r =>
      if is_digit c then read_digits r (acc * 10 + digit_val c) (cnt + 1)
      else (acc, cnt, s)
  | [] => (acc, cnt, [])
  end.

(** JSONNumber: an optional minus sign; the integer part, a single 0 or a
    nonzero digit followed by digits; an optional fraction, a dot and at
    least one digit; an optional exponent, e or E, an optional sign and at
    least one digit.  The result is the Number value of what was read. *)
Definition parse_exponent (s : text) : option (Z * text) :=
  match s with
  | c :: r =>
      if (N.eqb c u_e || N.eqb c u_E)%bool then
        let '(sg, r1) :=
          match r with
          | d :: r' =>
              if N.eqb d u_minus then (-1, r')
              else if N.eqb d u_plus then (1, r') else (1, r)
          | [] => (1, r)
          end in
        let '(X, cnt, r2) := read_digits r1 0 0 in
        if cnt =? 0 then None else Some (sg * X, r2)
      else Some (0, s)
  | [] => Some (0, s)
  end.

Definition parse_fraction (ip : Z) (s : text) : option (Z * Z * text) :=
  match s with
  | c :: r =>
      if N.eqb c u_dot then
        let '(M, cnt, r1) := read_digits r ip 0 in
        if cnt =? 0 then None else Some (M, cnt, r1)
      else Some (ip, 0, s)
  | [] => Some (ip, 0, s)
  end.

Definition parse_int (s : text) : option (Z * text) :=
  match s with
  | c :: r =>
      if N.eqb c u_0 then Some (0, r)
      else if is_digit c then
        let '(ip, _, r1) := read_digits s 0 0 in Some (ip, r1)
      else None
  | [] => None
  end.

Definition parse_number (s : text) : option (Number * text) :=
  let '(neg, s1) :=
    match s with
    | c :: r => if N.eqb c u_minus then (true, r) else (false, s)
    | [] => (false, s)
    end in
  match parse_int s1 with
  | None => None
  | Some (ip, r1) =>
      match parse_fraction ip r1 with
      | None => None
      | Some (M, fcnt, r2) =>
          match parse_exponent r2 with
          | None => None
          | Some (X, r3) => Some (round_dec neg M (X - fcnt), r3)
          end
      end
  end.

(* ===================================================================== *)
(** * JSON strings *)
(* ===================================================================== *)

Local Open Scope N_scope.

Definition u_quote : N := 34.
Definition u_backslash : N := 92.
Definition u_slash : N := 47.
Definition u_u : N := 117.

Definition is_high_surrogate (c : N) : bool := (55296 <=? c) && (c <=? 56319).
Definition is_low_surrogate (c : N) : bool := (56320 <=? c) && (c <=? 57343).

Definition hex_unit (d : N) : N := if d <? 10 then 48 + d else 87 + d.

(** UnicodeEscape: a backslash, u and four lower-case hexadecimal digits. *)
Definition UnicodeEscape (c : N) : jsstring :=
  [u_backslash; u_u; hex_unit (c / 4096); hex_unit ((c / 256) mod 16);
   hex_unit ((c / 16) mod 16); hex_unit (c mod 16)].

(** The two-unit escapes of QuoteJSONString (backspace, tab, line feed,
    form feed, carriage return, quotation mark, backslash). *)
Definition short_escape (c : N) : option N :=
  if c =? 8 then Some 98
  else if c =? 9 then Some 116
  else if c =? 10 then Some 110
  else if c =? 12 then Some 102
  else if c =? 13 then Some 114
  else if c =? 34 then Some 34
  else if c =? 92 then Some 92
  else None.

(** The body of QuoteJSONString: the string is read by code points, so a
    high surrogate followed by a low one goes through unchanged, and a
    surrogate on its own is escaped. *)
Fixpoint quote_units (s : jsstring) : jsstring :=
  match s with
  | [] => []
  | c :: t =>
      match short_escape c with
      | Some x => u_backslash :: x :: quote_units t
      | None =>
          if c <? 32 then UnicodeEscape c ++ quote_units t
          else if is_high_surrogate c then
            match t with
            | d :: t' =>
                if is_low_surrogate d then c :: d :: quote_units t'
                else UnicodeEscape c ++ quote_units t
            | [] => UnicodeEscape c
            end
          else if is_low_surrogate c then UnicodeEscape c ++ quote_units t
          else c :: quote_units t
      end
  end.

Definition QuoteJSONString (s : jsstring) : jsstring :=
  u_quote :: quote_units s ++ [u_quote].

Definition hex_val (c : N) : option N :=
  if (48 <=? c) && (c <=? 57) then Some (c - 48)
  else if (97 <=? c) && (c <=? 102) then Some (c - 87)
  else if (65 <=? c) && (c <=? 70) then Some (c - 55)
  else None.

Definition hex4 (a b c d : N) : option N :=
  match hex_val a, hex_val b, hex_val c, hex_val d with
  | Some x, Some y, Some z, Some w => Some (x * 4096 + y * 256 + z * 16 + w)
  | _, _, _, _ => None
  end.

(** The unit denoted by the character after a backslash (other than u). *)
Definition unescape (c : N) : option N :=
  if c =? 34 then Some 34
  else if c =? 92 then Some 92
  else if c =? 47 then Some 47
  else if c =? 98 then Some 8
  else if c =? 102 then Some 12
  else if c =? 110 then Some 10
  else if c =? 114 then Some 13
  else if c =? 116 then Some 9
  else None.

(** JSONString after its opening quotation mark: the units up to the
    closing one, escapes decoded.  Control characters are refused. *)
Fixpoint parse_string_chars (s : text) : option (jsstring * text) :=
  match s with
  | [] => None
  | c :: r =>
      if c =? u_quote then Some ([], r)
      else if c =? u_backslash then
        match r with
        | [] => None
        | x :: r1 =>
            if x =? u_u then
              match r1 with
              | h1 :: h2 :: h3 :: h4 :: r2 =>
                  match hex4 h1 h2 h3 h4 with
                  | Some v =>
                      match parse_string_chars r2 with
                      | Some (str, rest) => Some (v :: str, rest)
                      | None => None
                      end
                  | None => None
                  end
              | _ => None
              end
            else
              match unescape x with
              | Some v =>
                  match parse_string_chars r1 with
                  | Some (str, rest) => Some (v :: str, rest)
                  | None => None
                  end
              | None => None
              end
        end
      else if c <? 32 then None
      else
        match parse_string_chars r with
        | Some (str, rest) => Some (c :: str, rest)
        | None => None
        end
  end.

(* ===================================================================== *)
(** * JSON values *)
(* ===================================================================== *)

(** The values [JSON.parse] builds.  An object is the list of its own
    properties in property order (OrdinaryOwnPropertyKeys): array-index
    keys in ascending order, then the other keys in order of creation. *)
#[local] Unset Elimination Schemes.
Inductive JSValue : Type :=
| JNull
| JBool (b : bool)
| JNumber (x : Number)
| JString (s : jsstring)
| JArray (items : list JSValue)
| JObject (props : list (jsstring * JSValue)).
#[local] Set Elimination Schemes.

Definition Props := list (jsstring * JSValue).

Local Open Scope Z_scope.

(** The index a key denotes when it is an array index: the canonical
    decimal string of an integer below 2^32 - 1. *)
Definition array_index (k : jsstring) : option Z :=
  match k with
  | [] => None
  | c :: r =>
      let '(v, _, rest) := read_digits k 0 0 in
      match rest with
      | [] =>
          if (negb (N.eqb c u_0) || (match r with [] => true | _ => false end))
             && (v <? 2 ^ 32 - 1)
          then Some v else None
      | _ => None
      end
  end.

Fixpoint obj_has (p : Props) (k : jsstring) : bool :=
  match p with
  | [] => false
  | (k', _) :: t => jsstring_eqb k' k || obj_has t k
  end.

Fixpoint obj_get (p : Props) (k : jsstring) : option JSValue :=
  match p with
  | [] => None
  | (k', v) :: t => if jsstring_eqb k' k then Some v else obj_get t k
  end.

Fixpoint obj_replace (p : Props) (k : jsstring) (v : JSValue) : Props :=
  match p with
  | [] => []
  | (k', v') :: t =>
      if jsstring_eqb k' k then (k', v) :: t else (k', v') :: obj_replace t k v
  end.

(** A new array-index key goes before the first key that is not an array
    index or is a greater one (an equal one cannot occur: the key is new). *)
Fixpoint obj_insert_index (i : Z) (k : jsstring) (v : JSValue) (p : Props)
  : Props :=
  match p with
  | [] => [(k, v)]
  | (k', v') :: t =>
      match array_index k' with
      | Some j =>
          if j <=? i then (k', v') :: obj_insert_index i k v t
          else (k, v) :: p
      | None => (k, v) :: p
      end
  end.

(** CreateDataProperty: an existing property keeps its place and takes the
    new value; a new one is created. *)
Definition obj_set (p : Props) (k : jsstring) (v : JSValue) : Props :=
  if obj_has p k then obj_replace p k v
  else
    match array_index k with
    | Some i => obj_insert_index i k v p
    | None => p ++ [(k, v)]
    end.

(** The object an object literal builds from its members, left to right. *)
Definition obj_of_members (ms : list (jsstring * JSValue)) : Props :=
  fold_left (fun o kv => obj_set o (fst kv) (snd kv)) ms [].

(* ===================================================================== *)
(** * JSON.stringify *)
(* ===================================================================== *)

Definition u_lf : N := 10.
Definition u_space : N := 32.
Definition u_comma : N := 44.
Definition u_colon : N := 58.
Definition u_lbracket : N := 91.
Definition u_rbracket : N := 93.
Definition u_lbrace : N := 123.
Definition u_rbrace : N := 125.

Definition s_null : jsstring := Eval cbv in js "null".
Definition s_true : jsstring := Eval cbv in js "true".
Definition s_false : jsstring := Eval cbv in js "false".

Definition is_empty (s : jsstring) : bool :=
  match s with [] => true | _ => false end.

(** The wrapping of the serialised members of an array or an object
    between [opening] and [closing] (the last steps of SerializeJSONArray
    and SerializeJSONObject). *)
Definition wrap (gap stepback : jsstring) (opening closing : N)
  (partial : list jsstring) : jsstring :=
  match partial with
  | [] => [opening; closing]
  | _ =>
      if is_empty gap then [opening] ++ join [u_comma] partial ++ [closing]
      else
        let indent := stepback ++ gap in
        [opening; u_lf] ++ indent
          ++ join (u_comma :: u_lf :: indent) partial
          ++ [u_lf] ++ stepback ++ [closing]
  end.

(** What a call gives: a value, or an exception. *)
Inductive result (A : Type) : Type :=
| Ok (a : A)
| Throw.
Arguments Ok {A} a.
Arguments Throw {A}.

(** The values of a list of results, an exception if one of them is one. *)
Fixpoint all_ok {A : Type} (l : list (result A)) : result (list A) :=
  match l with
  | [] => Ok []
  | Ok a :: t =>
      match all_ok t with
      | Ok t' => Ok (a :: t')
      | Throw => Throw
      end
  | Throw :: _ => Throw
  end.

(** SerializeJSONProperty on the values [JSON.parse] builds (none has a
    callable [toJSON], none is undefined).  [stack] is the number of
    levels of nesting the stack still has room for: an array or an object
    takes one level for its members, and with no room left the call throws
    (RangeError: Maximum call stack size exceeded). *)
Fixpoint SerializeJSONProperty (stack : nat) (gap indent : jsstring)
  (v : JSValue) {struct v} : result jsstring :=
  match v with
  | JNull => Ok s_null
  | JBool true => Ok s_true
  | JBool false => Ok s_false
  | JNumber x => Ok (if isFinite x then NumberToString x else s_null)
  | JString s => Ok (QuoteJSONString s)
  | JArray items =>
      match stack with
      | O => Throw
      | S stack' =>
          match all_ok
                  (map (SerializeJSONProperty stack' gap (indent ++ gap)) items)
          with
          | Ok partial => Ok (wrap gap indent u_lbracket u_rbracket partial)
          | Throw => Throw
          end
      end
  | JObject props =>
      match stack with
      | O => Throw
      | S stack' =>
          match all_ok
                  (map (fun kv =>
                          match SerializeJSONProperty stack' gap (indent ++ gap)
                                  (snd kv)
                          with
                          | Ok text =>
                              Ok (QuoteJSONString (fst kv) ++ [u_colon]
                                    ++ (if is_empty gap then [] else [u_space])
                                    ++ text)
                          | Throw => Throw
                          end)
                     props)
          with
          | Ok partial => Ok (wrap gap indent u_lbrace u_rbrace partial)
          | Throw => Throw
          end
      end
  end.

(** [JSON.stringify(value, null, space)] for a numeric [space], on a stack
    with room for [stack] levels: the gap is [min(10, space)] spaces. *)
Definition JSON_stringify (stack : nat) (v : JSValue) (space : nat)
  : result jsstring :=
  SerializeJSONProperty stack (repeat u_space (Nat.min 10 space)) [] v.

(** [JSON.stringify] of an object literal of the source, one level deep:
    the listener is entered on a fresh stack, which has room for it. *)
Definition stringify_flat (v : JSValue) : jsstring :=
  match JSON_stringify 1 v 0 with
  | Ok text => text
  | Throw => []
  end.

(** The text [SerializeJSONProperty] returns when it returns. *)
Fixpoint json_text (gap indent : jsstring) (v : JSValue) : jsstring :=
  match v with
  | JNull => s_null
  | JBool true => s_true
  | JBool false => s_false
  | JNumber x => if isFinite x then NumberToString x else s_null
  | JString s => QuoteJSONString s
  | JArray items =>
      wrap gap indent u_lbracket u_rbracket
        (map (json_text gap (indent ++ gap)) items)
  | JObject props =>
      wrap gap indent u_lbrace u_rbrace
        (map (fun kv =>
                QuoteJSONString (fst kv) ++ [u_colon]
                  ++ (if is_empty gap then [] else [u_space])
                  ++ json_text gap (indent ++ gap) (snd kv))
             props)
  end.

(** The text [JSON.stringify] returns when it returns. *)
Definition stringify_text (v : JSValue) (space : nat) : jsstring :=
  json_text (repeat u_space (Nat.min 10 space)) [] v.

(** The levels of nesting of a value. *)
Fixpoint depth (v : JSValue) : nat :=
  match v with
  | JArray items => S (fold_right (fun x n => Nat.max (depth x) n) O items)
  | JObject props =>
      S (fold_right (fun kv n => Nat.max (depth (snd kv)) n) O props)
  | _ => O
  end.

(* ===================================================================== *)
(** * JSON.parse *)
(* ===================================================================== *)

(** JSON white space: tab, line feed, carriage return, space. *)
Definition is_ws (c : N) : bool :=
  N.eqb c 9 || N.eqb c 10 || N.eqb c 13 || N.eqb c 32.

Fixpoint skip_ws (s : text) : text :=
  match s with
  | c :: r => if is_ws c then skip_ws r else s
  | [] => []
  end.

Fixpoint strip_prefix (p s : text) : option text :=
  match p, s with
  | [], _ => Some s
  | x :: p', y :: s' => if N.eqb x y then strip_prefix p' s' else None
  | _ :: _, [] => None
  end.

(** The parser of JSON values.  [parse_value] expects its input to start
    at the first unit of the value; [parse_elements] and [parse_members]
    read the rest of an array or an object after its first bracket, white
    space skipped.  The fuel bounds the depth of the calls; the length of
    the text is always enough. *)
Fixpoint parse_value (fuel : nat) (s : text) : option (JSValue * text) :=
  match fuel with
  | O => None
  | S fuel' =>
      match s with
      | [] => None
      | c :: r =>
          if N.eqb c u_lbracket then
            match skip_ws r with
            | c' :: r' =>
                if N.eqb c' u_rbracket then Some (JArray [], r')
                else
                  match parse_elements fuel' (c' :: r') with
                  | Some (vs, rest) => Some (JArray vs, rest)
                  | None => None
                  end
            | [] => None
            end
          else if N.eqb c u_lbrace then
            match skip_ws r with
            | c' :: r' =>
                if N.eqb c' u_rbrace then Some (JObject [], r')
                else
                  match parse_members fuel' (c' :: r') with
                  | Some (ms, rest) => Some (JObject (obj_of_members ms), rest)
                  | None => None
                  end
            | [] => None
            end
          else if N.eqb c u_quote then
            match parse_string_chars r with
            | Some (str, rest) => Some (JString str, rest)
            | None => None
            end
          else if N.eqb c 116 then
            match strip_prefix s_true s with
            | Some rest => Some (JBool true, rest)
            | None => None
            end
          else if N.eqb c 102 then
            match strip_prefix s_false s with
            | Some rest => Some (JBool false, rest)
            | None => None
            end
          else if N.eqb c 110 then
            match strip_prefix s_null s with
            | Some rest => Some (JNull, rest)
            | None => None
            end
          else
            match parse_number s with
            | Some (x, rest) => Some (JNumber x, rest)
            | None => None
            end
      end
  end

with parse_elements (fuel : nat) (s : text)
  : option (list JSValue * text) :=
  match fuel with
  | O => None
  | S fuel' =>
      match parse_value fuel' s with
      | None => None
      | Some (v, r) =>
          match skip_ws r with
          | c :: r' =>
              if N.eqb c u_comma then
                match parse_elements fuel' (skip_ws r') with
                | Some (vs, rest) => Some (v :: vs, rest)
                | None => None
                end
              else if N.eqb c u_rbracket then Some ([v], r')
              else None
          | [] => None
          end
      end
  end

with parse_members (fuel : nat) (s : text)
  : option (list (jsstring * JSValue) * text) :=
  match fuel with
  | O => None
  | S fuel' =>
      match s with
      | c :: r =>
          if N.eqb c u_quote then
            match parse_string_chars r with
            | None => None
            | Some (k, r1) =>
                match skip_ws r1 with
                | c1 :: r2 =>
                    if N.eqb c1 u_colon then
                      match parse_value fuel' (skip_ws r2) with
                      | None => None
                      | Some (v, r3) =>
                          match skip_ws r3 with
                          | c3 :: r4 =>
                              if N.eqb c3 u_comma then
                                match parse_members fuel' (skip_ws r4) with
                                | Some (ms, rest) => Some ((k, v) :: ms, rest)
                                | None => None
                                end
                              else if N.eqb c3 u_rbrace then
                                Some ([(k, v)], r4)
                              else None
                          | [] => None
                          end
                      end
                    else None
                | [] => None
                end
            end
          else None
      | [] => None
      end
  end.

(** [JSON.parse(text)]: one value between optional white space; [None]
    stands for the SyntaxError. *)
Definition JSON_parse (s : text) : option JSValue :=
  match parse_value (List.length s) (skip_ws s) with
  | Some (v, rest) =>
      match skip_ws rest with
      | [] => Some v
      | _ => None
      end
  | None => None
  end.

(** [f] holds of the elements of two lists of the same length, pairwise. *)
Definition forall2b (A B : Type) (f : A -> B -> bool)
  : list A -> list B -> bool :=
  fix go (xs : list A) (ys : list B) : bool :=
    match xs, ys with
    | [], [] => true
    | x :: xs', y :: ys' => f x y && go xs' ys'
    | _, _ => false
    end.
Arguments forall2b {A B} f xs ys.

(** Deep equality of two values: primitives compared with [===], arrays
    element by element, objects key by key whatever the order of keys. *)
Fixpoint deep_equal (a b : JSValue) : bool :=
  match a, b with
  | JNull, JNull => true
  | JBool x, JBool y => Bool.eqb x y
  | JNumber x, JNumber y => Number_strict_eq x y
  | JString x, JString y => jsstring_eqb x y
  | JArray xs, JArray ys => forall2b deep_equal xs ys
  | JObject p, JObject q =>
      Nat.eqb (List.length p) (List.length q)
      && forallb (fun kv => match obj_get q (fst kv) with
                            | Some v' => deep_equal (snd kv) v'
                            | None => false
                            end) p
  | _, _ => false
  end.

(* ===================================================================== *)
(** * The [path] module (POSIX) *)
(* ===================================================================== *)

Local Open Scope N_scope.

Definition s_dot : jsstring := [u_dot].
Definition s_dotdot : jsstring := [u_dot; u_dot].

(** The segments of a path between its separators. *)
Fixpoint split_path (s : jsstring) : list jsstring :=
  match s with
  | [] => [[]]
  | c :: r =>
      if c =? u_slash then [] :: split_path r
      else
        match split_path r with
        | seg :: segs => (c :: seg) :: segs
        | [] => [[c]]
        end
  end.

(** normalizeString: [res] is the stack of the segments kept so far, the
    last one first.  Empty segments and [.] are dropped; [..] removes the
    last segment unless there is none or it is [..] itself, in which case
    it is kept when the path is relative. *)
Fixpoint normalize_segments (allowAboveRoot : bool) (segs res : list jsstring)
  : list jsstring :=
  match segs with
  | [] => res
  | seg :: segs' =>
      if is_empty seg || jsstring_eqb seg s_dot then
        normalize_segments allowAboveRoot segs' res
      else if jsstring_eqb seg s_dotdot then
        match res with
        | top :: res' =>
            if jsstring_eqb top s_dotdot then
              normalize_segments allowAboveRoot segs'
                (if allowAboveRoot then s_dotdot :: res else res)
            else normalize_segments allowAboveRoot segs' res'
        | [] =>
            normalize_segments allowAboveRoot segs'
              (if allowAboveRoot then [s_dotdot] else [])
        end
      else normalize_segments allowAboveRoot segs' (seg :: res)
  end.

Definition ends_with_slash (s : jsstring) : bool :=
  match rev s with
  | c :: _ => c =? u_slash
  | [] => false
  end.

(** [path.normalize] *)
Definition path_normalize (p : jsstring) : jsstring :=
  match p with
  | [] => s_dot
  | c :: _ =>
      let isAbsolute := c =? u_slash in
      let trailingSeparator := ends_with_slash p in
      let body :=
        join [u_slash]
          (rev (normalize_segments (negb isAbsolute) (split_path p) [])) in
      match body with
      | [] =>
          if isAbsolute then [u_slash]
          else if trailingSeparator then [u_dot; u_slash] else s_dot
      | _ =>
          let body' := if trailingSeparator then body ++ [u_slash] else body in
          if isAbsolute then u_slash :: body' else body'
      end
  end.

(** [path.join]: the non-empty arguments joined by a separator, then
    normalised. *)
Definition path_join (args : list jsstring) : jsstring :=
  match filter (fun a => negb (is_empty a)) args with
  | [] => s_dot
  | parts => path_normalize (join [u_slash] parts)
  end.

(** The scan of [path.extname], from the end of the path to its start.
    [chars] is the part of the path not yet seen, last unit first, and [i]
    the index of its first unit. *)
Record ExtScan : Type := mkExtScan {
  startDot : Z;
  startPart : Z;
  endIdx : Z;
  matchedSlash : bool;
  preDotState : Z
}.

Local Open Scope Z_scope.

Fixpoint extname_scan (chars : list N) (i : Z) (st : ExtScan) : ExtScan :=
  match chars with
  | [] => st
  | code :: rest =>
      if N.eqb code u_slash then
        if negb (matchedSlash st) then
          mkExtScan (startDot st) (i + 1) (endIdx st) (matchedSlash st)
            (preDotState st)
        else extname_scan rest (i - 1) st
      else
        let st1 :=
          if endIdx st =? -1 then
            mkExtScan (startDot st) (startPart st) (i + 1) false (preDotState st)
          else st in
        let st2 :=
          if N.eqb code u_dot then
            if startDot st1 =? -1 then
              mkExtScan i (startPart st1) (endIdx st1) (matchedSlash st1)
                (preDotState st1)
            else if negb (preDotState st1 =? 1) then
              mkExtScan (startDot st1) (startPart st1) (endIdx st1)
                (matchedSlash st1) 1
            else st1
          else if negb (startDot st1 =? -1) then
            mkExtScan (startDot st1) (startPart st1) (endIdx st1)
              (matchedSlash st1) (-1)
          else st1 in
        extname_scan rest (i - 1) st2
  end.

(** [path.extname] *)
Definition path_extname (p : jsstring) : jsstring :=
  let st :=
    extname_scan (rev p) (Z.of_nat (List.length p) - 1)
      (mkExtScan (-1) 0 (-1) true 0) in
  if (startDot st =? -1) || (endIdx st =? -1) || (preDotState st =? 0)
     || ((preDotState st =? 1) && (startDot st =? endIdx st - 1)
         && (startDot st =? startPart st + 1))
  then []
  else
    firstn (Z.to_nat (endIdx st - startDot st)) (skipn (Z.to_nat (startDot st)) p).

(* ===================================================================== *)
(** * The world of the server: file system, responses, effects *)
(* ===================================================================== *)

(** What reading a path gives: no such file, a file that cannot be read
    (a directory, a permission error), or the content of the file. *)
Inductive FileState : Type :=
| Missing
| Unreadable
| Content (data : jsstring).

(** The text read back from the UTF-8 encoding of a string
    ([Buffer.from(s, 'utf8').toString('utf8')]): a high surrogate followed
    by a low one is one code point and is kept, any other surrogate becomes
    U+FFFD. *)
Definition u_replacement : N := 65533%N.

Fixpoint utf8_text (s : jsstring) : jsstring :=
  match s with
  | [] => []
  | c :: t =>
      if is_high_surrogate c then
        match t with
        | d :: t' =>
            if is_low_surrogate d then c :: d :: utf8_text t'
            else u_replacement :: utf8_text t
        | [] => [u_replacement]
        end
      else if is_low_surrogate c then u_replacement :: utf8_text t
      else c :: utf8_text t
  end.

(** [s.isWellFormed()]: every surrogate of [s] is part of a pair. *)
Fixpoint isWellFormed (s : jsstring) : bool :=
  match s with
  | [] => true
  | c :: t =>
      if is_high_surrogate c then
        match t with
        | d :: t' => is_low_surrogate d && isWellFormed t'
        | [] => false
        end
      else negb (is_low_surrogate c) && isWellFormed t
  end.

(** No unit of the string is a surrogate. *)
Definition no_surrogate (s : jsstring) : bool :=
  forallb (fun c => N.ltb c 55296) s.

(** The file system; the behaviour of the next write: [None] when
    [fs.writeFileSync] succeeds, [Some st] when it throws and leaves the
    file in state [st]; and the room the stack has, in levels of nesting
    below the first, when [JSON.stringify] is called in [writeConfig]
    ([pretty_room]) and when it is called for the answer to GET /config
    ([compact_room]). *)
Record World : Type := mkWorld {
  files : jsstring -> FileState;
  write_fault : option FileState;
  pretty_room : nat;
  compact_room : nat
}.

Definition update_file (f : jsstring -> FileState) (p : jsstring)
  (st : FileState) : jsstring -> FileState :=
  fun q => if jsstring_eqb q p then st else f q.

(** [fs.readFileSync(path, 'utf8')] *)
Definition readFileSync (w : World) (p : jsstring) : result jsstring :=
  match files w p with
  | Content data => Ok data
  | _ => Throw
  end.

(** [fs.writeFileSync(path, data, 'utf8')]: the whole file is replaced by
    the UTF-8 encoding of [data]. *)
Definition writeFileSync (w : World) (p data : jsstring) : result unit * World :=
  match write_fault w with
  | None =>
      (Ok tt,
       mkWorld (update_file (files w) p (Content (utf8_text data))) None
         (pretty_room w) (compact_room w))
  | Some st =>
      (Throw,
       mkWorld (update_file (files w) p st) (write_fault w)
         (pretty_room w) (compact_room w))
  end.

(** The effects a handler performs, in order.  [ReadBody] is the
    collection of the request body, [ParseBody] the call of [JSON.parse]
    on it, [LogError] a call of [console.error], [Uncaught] an exception
    that leaves the listener (the process then exits). *)
Inductive Effect : Type :=
| ReadFile (p : jsstring)
| WriteFile (p data : jsstring)
| ReadBody
| ParseBody
| LogError (msg : string)
| Uncaught (name : string).

(** ** The body of a request *)

(** The decoder of UTF-8 ([Buffer.prototype.toString]) inside a sequence
    of several bytes: the code point read so far, the number of bytes
    still needed, and the range the next byte has to lie in. *)
Record Utf8Pending : Type := mkPending {
  code_point : N;
  bytes_needed : nat;
  lower_boundary : N;
  upper_boundary : N
}.

(** The code units of a code point. *)
Definition code_units (cp : N) : jsstring :=
  if N.ltb cp 65536 then [cp]
  else [(55296 + (cp - 65536) / 1024)%N; (56320 + (cp - 65536) mod 1024)%N].

(** A byte outside a sequence: an ASCII character, the first byte of a
    sequence, or a byte that cannot start one, which gives U+FFFD. *)
Definition utf8_first (b : N) : jsstring * option Utf8Pending :=
  if N.leb b 127 then ([b], None)
  else if N.leb 194 b && N.leb b 223 then
    ([], Some (mkPending (b - 192) 1 128 191))
  else if N.leb 224 b && N.leb b 239 then
    ([], Some (mkPending (b - 224) 2
                 (if N.eqb b 224 then 160%N else 128%N)
                 (if N.eqb b 237 then 159%N else 191%N)))
  else if N.leb 240 b && N.leb b 244 then
    ([], Some (mkPending (b - 240) 3
                 (if N.eqb b 240 then 144%N else 128%N)
                 (if N.eqb b 244 then 143%N else 191%N)))
  else ([u_replacement], None).

(** One byte: inside a sequence, a byte in the range continues it and the
    last one gives the code point; a byte out of the range ends the
    sequence with U+FFFD and is read again as a byte outside a sequence. *)
Definition utf8_step (st : option Utf8Pending) (b : N)
  : jsstring * option Utf8Pending :=
  match st with
  | None => utf8_first b
  | Some p =>
      if N.leb (lower_boundary p) b && N.leb b (upper_boundary p) then
        let cp := (code_point p * 64 + (b - 128))%N in
        match bytes_needed p with
        | S (S n) => ([], Some (mkPending cp (S n) 128 191))
        | _ => (code_units cp, None)
        end
      else
        let '(out, st') := utf8_first b in (u_replacement :: out, st')
  end.

(** The text of the bytes from a state on; a sequence cut short by the
    end of the bytes gives U+FFFD. *)
Fixpoint utf8_decode_from (st : option Utf8Pending) (bytes : list N)
  : jsstring :=
  match bytes with
  | [] => match st with None => [] | Some _ => [u_replacement] end
  | b :: rest =>
      let '(out, st') := utf8_step st b in out ++ utf8_decode_from st' rest
  end.

(** [chunk.toString()] for a Buffer. *)
Definition utf8_decode (bytes : list N) : jsstring :=
  utf8_decode_from None bytes.

(** A request: the body comes as the chunks of the data events. *)
Record Request : Type := mkRequest {
  method : string;
  url : jsstring;
  chunks : list (list N)
}.

(** The variable [body] when the request ends: from the empty string,
    [body += chunk] for each chunk in turn. *)
Definition body (req : Request) : jsstring :=
  fold_left (fun acc chunk => acc ++ utf8_decode chunk) (chunks req) [].

(** The response under construction ([http.ServerResponse]); [payload] is
    the body as the client reads it, and [finished] tells whether
    [res.end] was called. *)
Record Response : Type := mkResponse {
  statusCode : Z;
  headers : list (string * string);
  payload : jsstring;
  finished : bool
}.

Definition ascii_lower (a : ascii) : ascii :=
  let n := N_of_ascii a in
  if (N.leb 65 n && N.leb n 90)%bool then ascii_of_N (n + 32) else a.

Fixpoint string_lower (s : string) : string :=
  match s with
  | EmptyString => EmptyString
  | String a r => String (ascii_lower a) (string_lower r)
  end.

(** Header names are compared without regard to case. *)
Definition header_eqb (a b : string) : bool :=
  String.eqb (string_lower a) (string_lower b).

Fixpoint set_header (hs : list (string * string)) (name value : string)
  : list (string * string) :=
  match hs with
  | [] => [(name, value)]
  | (n, v) :: t =>
      if header_eqb n name then (name, value) :: t
      else (n, v) :: set_header t name value
  end.

Fixpoint get_header (hs : list (string * string)) (name : string)
  : option string :=
  match hs with
  | [] => None
  | (n, v) :: t => if header_eqb n name then Some v else get_header t name
  end.

Definition new_response : Response := mkResponse 200 [] [] false.

(** [res.setHeader(name, value)] *)
Definition setHeader (res : Response) (name value : string) : Response :=
  mkResponse (statusCode res) (set_header (headers res) name value) (payload res)
    (finished res).

(** [res.writeHead(status, headers)]: the headers given are merged into
    those already set. *)
Definition writeHead (res : Response) (status : Z)
  (hs : list (string * string)) : Response :=
  mkResponse status
    (fold_left (fun acc h => set_header acc (fst h) (snd h)) hs (headers res))
    (payload res) (finished res).

(** [res.end(data)] for a string, which is sent as UTF-8. *)
Definition end_ (res : Response) (data : jsstring) : Response :=
  mkResponse (statusCode res) (headers res) (utf8_text data) true.

(** [res.end(data)] for a Buffer, the content of a file as it is. *)
Definition end_buffer (res : Response) (data : jsstring) : Response :=
  mkResponse (statusCode res) (headers res) data true.

(* ===================================================================== *)
(** * [server.js] *)
(* ===================================================================== *)

Section Server.

(** The directory of [server.js]. *)
Variable __dirname : jsstring.

Definition PUBLIC_DIR : jsstring := path_join [__dirname; js "public"].
Definition CONFIG_FILE : jsstring := path_join [__dirname; js "config.json"].

(** [readConfig]: the parsed configuration, the empty object when the file
    cannot be read or parsed. *)
Definition readConfig (w : World) : JSValue * list Effect :=
  match readFileSync w CONFIG_FILE with
  | Ok raw =>
      match JSON_parse raw with
      | Some v => (v, [ReadFile CONFIG_FILE])
      | None => (JObject [], [ReadFile CONFIG_FILE; LogError "Error reading config:"])
      end
  | Throw => (JObject [], [ReadFile CONFIG_FILE; LogError "Error reading config:"])
  end.

(** [writeConfig]: nothing is written when [JSON.stringify] throws. *)
Definition writeConfig (w : World) (data : JSValue)
  : result unit * World * list Effect :=
  match JSON_stringify (S (pretty_room w)) data 2 with
  | Ok text =>
      let '(r, w') := writeFileSync w CONFIG_FILE text in
      (r, w', [WriteFile CONFIG_FILE text])
  | Throw => (Throw, w, [])
  end.

(** The table of [getContentType]; every key starts with a dot, so no
    property inherited from [Object.prototype] is ever looked up. *)
Definition types : list (jsstring * string) :=
  [ (js ".html", "text/html");
    (js ".css", "text/css");
    (js ".js", "application/javascript");
    (js ".json", "application/json");
    (js ".png", "image/png");
    (js ".jpg", "image/jpeg");
    (js ".jpeg", "image/jpeg");
    (js ".gif", "image/gif");
    (js ".svg", "image/svg+xml");
    (js ".ico", "image/x-icon") ]%string.

Fixpoint lookup_type (t : list (jsstring * string)) (ext : jsstring)
  : option string :=
  match t with
  | [] => None
  | (k, v) :: t' => if jsstring_eqb k ext then Some v else lookup_type t' ext
  end.

(** [getContentType] *)
Definition getContentType (filePath : jsstring) : string :=
  let ext := toLowerCase (path_extname filePath) in
  match lookup_type types ext with
  | Some t => t
  | None => "application/octet-stream"%string
  end.

(** [serveStatic] *)
Definition serveStatic (w : World) (filePath : jsstring) (res : Response)
  : Response * list Effect :=
  let fullPath := path_join [PUBLIC_DIR; filePath] in
  match files w fullPath with
  | Content data =>
      (end_buffer
         (writeHead res 200 [("Content-Type", getContentType fullPath)]%string) data,
       [ReadFile fullPath])
  | _ =>
      (end_ (writeHead res 404 [("Content-Type", "text/plain")]%string)
         (js "404 Not Found"),
       [ReadFile fullPath])
  end.

Definition success_body : jsstring :=
  stringify_flat (JObject [(js "status", JString (js "success"))]).

Definition error_body : jsstring :=
  stringify_flat
    (JObject [(js "status", JString (js "error"));
              (js "message", JString (js "Invalid JSON"))]).

Definition is_api_path (u : jsstring) : bool :=
  startsWith u (js "/config") || startsWith u (js "/update-config").

(** The request listener given to [http.createServer].  In the GET
    /config branch [JSON.stringify(config)] stands outside any [try]: when
    it throws, the head is set, [res.end] is never called and the exception
    leaves the listener. *)
Definition handler (w : World) (req : Request)
  : Response * World * list Effect :=
  let url := split_head 63%N (url req) in
  let res := new_response in
  let res :=
    if is_api_path url then
      setHeader
        (setHeader
           (setHeader res "Access-Control-Allow-Origin" "*")
           "Access-Control-Allow-Methods" "GET, POST, OPTIONS")
        "Access-Control-Allow-Headers" "Content-Type"
    else res in
  if is_api_path url && String.eqb (method req) "OPTIONS" then
    (end_ (writeHead res 204 []) [], w, [])
  else if String.eqb (method req) "GET" then
    if jsstring_eqb url (js "/config") then
      let '(config, effs) := readConfig w in
      let res := writeHead res 200 [("Content-Type", "application/json")]%string in
      match JSON_stringify (S (compact_room w)) config 0 with
      | Ok text => (end_ res text, w, effs)
      | Throw => (res, w, effs ++ [Uncaught "RangeError"])
      end
    else
      let filePath :=
        if jsstring_eqb url (js "/") || is_empty url then js "/index.html"
        else url in
      let '(res', effs) := serveStatic w filePath res in
      (res', w, effs)
  else if String.eqb (method req) "POST" && jsstring_eqb url (js "/update-config") then
    match JSON_parse (body req) with
    | Some data =>
        match writeConfig w data with
        | (Ok _, w', effs) =>
            (end_ (writeHead res 200 [("Content-Type", "application/json")]%string)
               success_body,
             w', ReadBody :: ParseBody :: effs)
        | (Throw, w', effs) =>
            (end_ (writeHead res 400 [("Content-Type", "application/json")]%string)
               error_body,
             w', ReadBody :: ParseBody :: effs ++ [LogError "Failed to update config:"])
        end
    | None =>
        (end_ (writeHead res 400 [("Content-Type", "application/json")]%string)
           error_body,
         w, [ReadBody; ParseBody; LogError "Failed to update config:"])
    end
  else
    (end_ (writeHead res 405 [("Content-Type", "text/plain")]%string)
       (js "Method Not Allowed"),
     w, []).

End Server.

(* ===================================================================== *)
(** * Well-formed values *)
(* ===================================================================== *)

(** No Number of the value is an infinity or NaN. *)
Fixpoint all_finite (v : JSValue) : bool :=
  match v with
  | JNumber x => isFinite x
  | JArray items => forallb all_finite items
  | JObject props => forallb (fun kv => all_finite (snd kv)) props
  | _ => true
  end.

Definition no_index_keys (p : Props) : bool :=
  forallb (fun kv => match array_index (fst kv) with
                     | None => true
                     | Some _ => false
                     end) p.

(** Property order: array-index keys from [last] on in ascending order,
    then keys that are not array indices. *)
Fixpoint keys_ordered (last : Z) (p : Props) : bool :=
  match p with
  | [] => true
  | (k, _) :: t =>
      match array_index k with
      | Some j => (last <=? j) && keys_ordered j t
      | None => no_index_keys t
      end
  end.

Fixpoint keys_distinct (p : Props) : bool :=
  match p with
  | [] => true
  | (k, _) :: t => negb (obj_has t k) && keys_distinct t
  end.

Definition props_ok (p : Props) : bool :=
  keys_ordered 0 p && keys_distinct p.

(** The values of the heap: Numbers are binary64 values, objects list
    their properties in property order without repetition. *)
Fixpoint wf_value (v : JSValue) : bool :=
  match v with
  | JNumber x => wf_Number x
  | JArray items => forallb wf_value items
  | JObject props =>
      props_ok props && forallb (fun kv => wf_value (snd kv)) props
  | _ => true
  end.

Definition values_wf (p : Props) : bool :=
  forallb (fun kv => wf_value (snd kv)) p.

(** The number with a negative zero replaced by the positive one;
    [===] does not tell the two apart. *)
Definition plus_zero (x : Number) : Number :=
  match x with
  | Finite neg m e => if m =? 0 then Finite false m e else x
  | _ => x
  end.

(** The same properties with [g] applied to their values. *)
Definition map_values (g : JSValue -> JSValue) (p : Props) : Props :=
  map (fun kv => (fst kv, g (snd kv))) p.

(** What is read back after a value was written: an infinity comes back
    as null, a negative zero as the positive one. *)
Definition stored_number (x : Number) : JSValue :=
  if isFinite x then JNumber (plus_zero x) else JNull.

Fixpoint stored (v : JSValue) : JSValue :=
  match v with
  | JNumber x => stored_number x
  | JArray items => JArray (map stored items)
  | JObject props => JObject (map_values stored props)
  | _ => v
  end.

(** The number of nodes of a value, a bound on the fuel its text needs. *)
Fixpoint vsize (v : JSValue) : nat :=
  match v with
  | JArray items => S (fold_right (fun x n => S (vsize x + n)%nat) O items)
  | JObject props => S (fold_right (fun kv n => S (vsize (snd kv) + n)%nat) O props)
  | _ => 1%nat
  end.

(** Induction on values, with the hypothesis on every element of an array
    and on every property value of an object. *)
Section JSValue_induction.

Variable P : JSValue -> Prop.
Hypothesis Hnull : P JNull.
Hypothesis Hbool : forall b, P (JBool b).
Hypothesis Hnum : forall x, P (JNumber x).
Hypothesis Hstr : forall s, P (JString s).
Hypothesis Harr : forall items, Forall P items -> P (JArray items).
Hypothesis Hobj :
  forall props, Forall (fun kv => P (snd kv)) props -> P (JObject props).

Fixpoint JSValue_ind (v : JSValue) : P v :=
  match v with
  | JNull => Hnull
  | JBool b => Hbool b
  | JNumber x => Hnum x
  | JString s => Hstr s
  | JArray items =>
      Harr items
        ((fix go (l : list JSValue) : Forall P l :=
            match l with
            | [] => @Forall_nil _ P
            | x :: l' => @Forall_cons _ P x l' (JSValue_ind x) (go l')
            end) items)
  | JObject props =>
      Hobj props
        ((fix go (l : Props) : Forall (fun kv => P (snd kv)) l :=
            match l with
            | [] => @Forall_nil _ (fun kv => P (snd kv))
            | kv :: l' =>
                @Forall_cons _ (fun kv => P (snd kv)) kv l'
                  (JSValue_ind (snd kv)) (go l')
            end) props)
  end.

End JSValue_induction.

(** The number a string of digits denotes, after the digits of [acc]. *)
Fixpoint digits_value (l : jsstring) (acc : Z) : Z :=
  match l with
  | [] => acc
  | c :: r => digits_value r (acc * 10 + digit_val c)
  end.

(** What may follow the text of a number: nothing, or a unit that is not
    a digit, a dot or an exponent mark. *)
Definition number_end (rest : text) : bool :=
  match rest with
  | [] => true
  | c :: _ =>
      negb (is_digit c) && negb (N.eqb c u_dot) && negb (N.eqb c u_e)
      && negb (N.eqb c u_E)
  end.

(** What may follow a run of digits: nothing, or a unit that is no digit. *)
Definition digit_end (rest : text) : bool :=
  match rest with
  | [] => true
  | c :: _ => negb (is_digit c)
  end.

(** A choice of digits as step 5 of Number::toString requires it. *)
Definition digits_for (m e : Z) (nks : Z * Z * Z) : Prop :=
  let '(n, k, s) := nks in
  0 < s /\ ndigits s = k /\ round_dec false s (n - k) = Finite false m e.

(** A unit put in front of the string a parser returned. *)
Definition cons_result (c : N) (r : option (jsstring * text))
  : option (jsstring * text) :=
  match r with
  | Some (str, rest) => Some (c :: str, rest)
  | None => None
  end.

(** The white space [wrap] puts after the opening bracket and after each
    comma, and the one it puts before the closing bracket. *)
Definition wrap_lead (gap stepback : jsstring) : jsstring :=
  if is_empty gap then [] else u_lf :: stepback ++ gap.

Definition wrap_trail (gap stepback : jsstring) : jsstring :=
  if is_empty gap then [] else u_lf :: stepback.

(** The first unit of the text of a number. *)
Definition is_number_start (c : N) : bool := is_digit c || N.eqb c u_minus.

(** The first unit of the text of a value. *)
Definition is_value_start (c : N) : bool :=
  is_number_start c || N.eqb c u_lbracket || N.eqb c u_lbrace
  || N.eqb c u_quote || N.eqb c 116 || N.eqb c 102 || N.eqb c 110.

Definition starts_value (s : text) : bool :=
  match s with
  | c :: _ => is_value_start c
  | [] => false
  end.

(** The fuel the elements of an array, or the members of an object, need. *)
Definition esize (items : list JSValue) : nat :=
  fold_right (fun x n => S (vsize x + n)%nat) O items.

Definition msize (props : Props) : nat :=
  fold_right (fun kv n => S (vsize (snd kv) + n)%nat) O props.

(** The text of one member of an object. *)
Definition member_text (gap indent : jsstring) (kv : jsstring * JSValue)
  : jsstring :=
  QuoteJSONString (fst kv) ++ [u_colon]
    ++ (if is_empty gap then [] else [u_space])
    ++ json_text gap indent (snd kv).

(** Reading the text of a value gives the value back, infinities and the
    signs of zeros apart, whatever follows the text. *)
Definition reads_back (v : JSValue) : Prop :=
  wf_value v = true ->
  forall (gap indent : jsstring) (rest : text) (fuel : nat),
    forallb is_ws gap = true -> forallb is_ws indent = true ->
    number_end rest = true -> (vsize v <= fuel)%nat ->
    parse_value fuel (json_text gap indent v ++ rest)
    = Some (stored v, rest).

(* ===================================================================== *)
(** * Notions used to state the properties of the server *)
(* ===================================================================== *)

(** The path of a request: its URL up to the query string. *)
Definition request_path (req : Request) : jsstring := split_head 63%N (url req).

(** The response with the CORS headers set, before [writeHead]. *)
Definition cors_response : Response :=
  setHeader
    (setHeader
       (setHeader new_response "Access-Control-Allow-Origin" "*")
       "Access-Control-Allow-Methods" "GET, POST, OPTIONS")
    "Access-Control-Allow-Headers" "Content-Type".

(** The response as it is after the first lines of the listener. *)
Definition first_response (req : Request) : Response :=
  if is_api_path (request_path req) then cors_response else new_response.

(** The configuration file cannot be read, or does not hold JSON. *)
Definition config_unusable (dir : jsstring) (w : World) : Prop :=
  match files w (CONFIG_FILE dir) with
  | Content raw => JSON_parse raw = None
  | _ => True
  end.

(** A string literal between quotation marks. *)
Definition quoted (s : string) : jsstring := u_quote :: js s ++ [u_quote].

(** The three headers of the CORS branch. *)
Definition has_cors_headers (res : Response) : Prop :=
  get_header (headers res) "Access-Control-Allow-Origin" = Some "*"%string
  /\ get_header (headers res) "Access-Control-Allow-Methods"
     = Some "GET, POST, OPTIONS"%string
  /\ get_header (headers res) "Access-Control-Allow-Headers"
     = Some "Content-Type"%string.

(** A segment of a normalised path: not empty, without separator, and
    neither [.] nor [..]. *)
Definition plain_segment (seg : jsstring) : bool :=
  negb (is_empty seg) && forallb (fun c => negb (N.eqb c u_slash)) seg
  && negb (jsstring_eqb seg s_dot) && negb (jsstring_eqb seg s_dotdot).

Definition no_slash (s : jsstring) : bool :=
  forallb (fun c => negb (N.eqb c u_slash)) s.

Definition no_dot (s : jsstring) : bool :=
  forallb (fun c => negb (N.eqb c u_dot)) s.

(** What the scan of [path.extname] remembers of the units of a name that
    come before its last dot: 1 when the first of them is a dot, -1 when
    it is not. *)
Definition before_dot (base : jsstring) (pd : Z) : Z :=
  match base with
  | [] => pd
  | c :: _ => if N.eqb c u_dot then 1%Z else (-1)%Z
  end.

(** The absolute path with the given segments. *)
Fixpoint abs_path (segs : list jsstring) : jsstring :=
  match segs with
  | [] => []
  | seg :: rest => u_slash :: seg ++ abs_path rest
  end.

(** [p] is the directory [root] or lies below it. *)
Definition inside_dir (root p : jsstring) : bool :=
  jsstring_eqb p root || startsWith p (root ++ [u_slash]).

(** A request has a component [..] when one of the segments of its path
    is [..]. *)
Definition has_parent_component (p : jsstring) : bool :=
  existsb (fun seg => jsstring_eqb seg s_dotdot) (split_path p).

(** The state of the decoder after some bytes. *)
Fixpoint utf8_state_after (st : option Utf8Pending) (bytes : list N)
  : option Utf8Pending :=
  match bytes with
  | [] => st
  | b :: rest => utf8_state_after (snd (utf8_step st b)) rest
  end.

(** A chunk that does not end inside a sequence of several bytes. *)
Definition whole_chunk (chunk : list N) : bool :=
  match utf8_state_after None chunk with
  | None => true
  | Some _ => false
  end.

(** No chunk of the body ends inside a character. *)
Definition whole_chunks (cs : list (list N)) : bool := forallb whole_chunk cs.

(** The text of the body as it was sent: the bytes of all the chunks,
    decoded as one. *)
Definition posted_text (req : Request) : jsstring :=
  utf8_decode (List.concat (chunks req)).

(** Bytes of ASCII characters. *)
Definition ascii_bytes (s : list N) : bool := forallb (fun b => N.leb b 127) s.

(** [n + 1] arrays, one inside the other. *)
Fixpoint nest (n : nat) : JSValue :=
  match n with
  | O => JArray []
  | S k => JArray [nest k]
  end.

(** The round trip of a value [V] through the two endpoints, as the
    specification states it: when the POST succeeds, the GET that follows
    is answered, with status 200 and a text that parses to a value
    deep-equal to [V]. *)
Definition round_trip (dir : jsstring) (w : World) (post get : Request)
  (V : JSValue) : Prop :=
  let '(r1, w1, _) := handler dir w post in
  statusCode r1 = 200 ->
  let '(r2, _, _) := handler dir w1 get in
  finished r2 = true
  /\ statusCode r2 = 200
  /\ exists V', JSON_parse (payload r2) = Some V' /\ deep_equal V' V = true.

(** The same, for the GET that is answered: nothing is said of a GET
    during which [JSON.stringify] runs out of stack. *)
Definition round_trip_if_answered (dir : jsstring) (w : World)
  (post get : Request) (V : JSValue) : Prop :=
  let '(r1, w1, _) := handler dir w post in
  statusCode r1 = 200 ->
  let '(r2, _, _) := handler dir w1 get in
  finished r2 = true ->
  statusCode r2 = 200
  /\ exists V', JSON_parse (payload r2) = Some V' /\ deep_equal V' V = true.

(** The answer to GET /config as the specification states it: sent, with
    status 200 and the content type of JSON. *)
Definition answered_with_json (res : Response) : Prop :=
  finished res = true
  /\ statusCode res = 200
  /\ get_header (headers res) "Content-Type" = Some "application/json"%string.

(** The configuration file holds a text that parses to a value
    deep-equal to [V]. *)
Definition persisted (dir : jsstring) (w : World) (V : JSValue) : Prop :=
  exists raw V',
    files w (CONFIG_FILE dir) = Content raw
    /\ JSON_parse raw = Some V' /\ deep_equal V' V = true.

(** The same successful POST twice: the file system after the second is
    the one after the first, and the file holds [V]. *)
Definition idempotent_post (dir : jsstring) (w : World) (post : Request)
  (V : JSValue) : Prop :=
  let '(r1, w1, _) := handler dir w post in
  let '(r2, w2, _) := handler dir w1 post in
  statusCode r1 = 200 -> statusCode r2 = 200 ->
  (forall p, files w2 p = files w1 p) /\ persisted dir w2 V.

(** The type the table gives for an extension taken as it is written. *)
Definition table_type (ext : jsstring) : string :=
  match lookup_type types ext with
  | Some t => t
  | None => "application/octet-stream"%string
  end.

(** The extensions of the table. *)
Definition known_extensions : list jsstring := map fst types.

(** A world for the examples: no file at all, writes succeed, and the
    stack has room for a thousand levels of nesting. *)
Definition empty_world : World := mkWorld (fun _ => Missing) None 1000 1000.

(** The text [Number::toString] gives for the Number a literal denotes. *)
Definition print_literal (s : string) : option jsstring :=
  match parse_number (js s) with
  | Some (x, []) => Some (NumberToString x)
  | _ => None
  end.

(* ===================================================================== *)
(** * Further definitions for the statements on the listener *)
(* ===================================================================== *)

(** None of the three CORS headers is set. *)
Definition no_cors_headers (res : Response) : Prop :=
  get_header (headers res) "Access-Control-Allow-Origin" = None
  /\ get_header (headers res) "Access-Control-Allow-Methods" = None
  /\ get_header (headers res) "Access-Control-Allow-Headers" = None.

(** The string has no question mark. *)
Definition no_query (u : jsstring) : bool :=
  forallb (fun c => negb (N.eqb c 63%N)) u.

(** The segments [path.normalize] keeps when there is no [..]: those
    that are neither empty nor [.]. *)
Definition kept_segment (seg : jsstring) : bool :=
  negb (is_empty seg || jsstring_eqb seg s_dot).

(** Every unit of the string is a Latin-1 character. *)
Definition latin1 (s : jsstring) : bool :=
  forallb (fun c => N.leb c 255%N) s.

(* ===================================================================== *)
(** * The model at work *)
(* ===================================================================== *)

Example print_tenth : print_literal "0.1" = Some (js "0.1").
Proof. vm_compute. reflexivity. Qed.

Example print_sum : print_literal "0.30000000000000004" = Some (js "0.30000000000000004").
Proof. vm_compute. reflexivity. Qed.

Example print_long_literal :
  print_literal "0.1000000000000000055511151231257827" = Some (js "0.1").
Proof. vm_compute. reflexivity. Qed.

Example print_integer : print_literal "7.50e+1" = Some (js "75").
Proof. vm_compute. reflexivity. Qed.

Example print_above_2_53 : print_literal "9007199254740993" = Some (js "9007199254740992").
Proof. vm_compute. reflexivity. Qed.

Example print_21_digits :
  print_literal "123456789012345678901" = Some (js "123456789012345680000").
Proof. vm_compute. reflexivity. Qed.

Example print_22_digits :
  print_literal "1234567890123456789012" = Some (js "1.2345678901234568e+21").
Proof. vm_compute. reflexivity. Qed.

Example print_1e21 : print_literal "1000000000000000000000" = Some (js "1e+21").
Proof. vm_compute. reflexivity. Qed.

Example print_small : print_literal "0.000001" = Some (js "0.000001").
Proof. vm_compute. reflexivity. Qed.

Example print_smaller : print_literal "0.0000001" = Some (js "1e-7").
Proof. vm_compute. reflexivity. Qed.

Example print_least : print_literal "4e-324" = Some (js "5e-324").
Proof. vm_compute. reflexivity. Qed.

Example print_underflow : print_literal "2e-324" = Some (js "0").
Proof. vm_compute. reflexivity. Qed.

Example print_negative_zero : print_literal "-0.0" = Some (js "0").
Proof. vm_compute. reflexivity. Qed.

Example print_greatest :
  print_literal "1.7976931348623157e308" = Some (js "1.7976931348623157e+308").
Proof. vm_compute. reflexivity. Qed.

Example parse_overflow : parse_number (js "1e400") = Some (Infinity false, []).
Proof. vm_compute. reflexivity. Qed.

Example parse_leading_zero : JSON_parse (js "01") = None.
Proof. vm_compute. reflexivity. Qed.

Example parse_trailing_comma : JSON_parse (js "[1,]") = None.
Proof. vm_compute. reflexivity. Qed.

(** Array-index keys come first, in ascending order; a repeated key keeps
    its place and takes the last value. *)
Example parse_property_order :
  JSON_parse
    (js "{" ++ quoted "b" ++ js ":1," ++ quoted "10" ++ js ":2,"
       ++ quoted "9" ++ js ":3," ++ quoted "b" ++ js ":null}")
  = Some (JObject [(js "9", JNumber (Finite false 6755399441055744 (-51)));
                   (js "10", JNumber (Finite false 4503599627370496 (-51)));
                   (js "b", JNull)]).
Proof. vm_compute. reflexivity. Qed.

Example stringify_indented :
  JSON_stringify 3
    (JObject [(js "vat", JNumber (Finite false 8444249301319680 (-50)));
              (js "bands", JArray [JBool true; JArray []])]) 2
  = Ok (js "{" ++ [u_lf] ++ js "  " ++ quoted "vat" ++ js ": 7.5," ++ [u_lf]
      ++ js "  " ++ quoted "bands" ++ js ": [" ++ [u_lf]
      ++ js "    true," ++ [u_lf]
      ++ js "    []" ++ [u_lf]
      ++ js "  ]" ++ [u_lf]
      ++ js "}").
Proof. vm_compute. reflexivity. Qed.

(** A surrogate on its own is escaped, a pair is not; the line feed has
    its short escape. *)
Example quote_escapes :
  QuoteJSONString [97; 10; 55357; 56832; 55357; 1]%N
  = ([u_quote; 97; 92; 110; 55357; 56832] ++ js "\ud83d\u0001" ++ [u_quote])%N.
Proof. vm_compute. reflexivity. Qed.

(** With room for three levels the value of [stringify_indented] is
    serialised; with room for two its inner array is a level too deep. *)
Example stringify_out_of_stack :
  JSON_stringify 2
    (JObject [(js "vat", JNumber (Finite false 8444249301319680 (-50)));
              (js "bands", JArray [JBool true; JArray []])]) 2
  = Throw.
Proof. vm_compute. reflexivity. Qed.

(** The two bytes of U+00E9 in one chunk, and in two. *)
Example decode_whole : utf8_decode [34; 195; 169; 34]%N = [34; 233; 34]%N.
Proof. vm_compute. reflexivity. Qed.

Example decode_split :
  body (mkRequest "POST" (js "/update-config") [[34; 195]; [169; 34]]%N)
  = [34; 65533; 65533; 34]%N.
Proof. vm_compute. reflexivity. Qed.

(** Four bytes give a surrogate pair; an overlong form, a surrogate and a
    sequence cut short give U+FFFD. *)
Example decode_pair : utf8_decode [240; 159; 152; 128]%N = [55357; 56832]%N.
Proof. vm_compute. reflexivity. Qed.

Example decode_ill_formed :
  utf8_decode [192; 175; 237; 160; 128; 226; 130; 65; 226; 130]%N
  = [65533; 65533; 65533; 65533; 65533; 65533; 65; 65533]%N.
Proof. vm_compute. reflexivity. Qed.

(** A surrogate outside a pair does not survive UTF-8; a pair does, and so
    does the escape [JSON.stringify] writes for a surrogate on its own. *)
Example utf8_lone_surrogate :
  utf8_text [104; 55357; 105]%N = [104; 65533; 105]%N.
Proof. vm_compute. reflexivity. Qed.

Example utf8_surrogate_pair :
  utf8_text [55357; 56832]%N = [55357; 56832]%N.
Proof. vm_compute. reflexivity. Qed.

Example utf8_escaped_surrogate :
  JSON_stringify 0 (JString [55357]%N) 0 = Ok (quoted "\ud83d")
  /\ utf8_text (quoted "\ud83d") = quoted "\ud83d".
Proof. vm_compute. split; reflexivity. Qed.

Example join_public : path_join [js "/srv/app"; js "public"] = js "/srv/app/public".
Proof. vm_compute. reflexivity. Qed.

Example join_relative_above : path_join [js "a/b"; js "../../../c/"] = js "../c/".
Proof. vm_compute. reflexivity. Qed.

(** The scenario of the specification: no configuration file at first;
    GET /config gives {}; a POST of {"vat":7.5} succeeds and the next GET
    gives {"vat":7.5}; a POST of a body that is not JSON is refused and
    the GET after it still gives {"vat":7.5}. *)
Example scenario :
  let dir := js "/srv/app" in
  let get := mkRequest "GET" (js "/config") [] in
  let vat := js "{" ++ quoted "vat" ++ js ":7.5}" in
  let '(r1, w1, _) := handler dir empty_world get in
  let '(r2, w2, _) := handler dir w1 (mkRequest "POST" (js "/update-config") [vat]) in
  let '(r3, w3, _) := handler dir w2 get in
  let '(r4, w4, _) :=
    handler dir w3 (mkRequest "POST" (js "/update-config") [js "not json"]) in
  let '(r5, _, _) := handler dir w4 get in
  (statusCode r1, payload r1) = (200, js "{}")
  /\ (statusCode r2, payload r2)
     = (200, js "{" ++ quoted "status" ++ js ":" ++ quoted "success" ++ js "}")
  /\ (statusCode r3, payload r3) = (200, vat)
  /\ statusCode r4 = 400
  /\ (statusCode r5, payload r5) = (200, vat).
Proof. vm_compute. repeat split. Qed.

(* ===================================================================== *)
(** * Properties of the rounding to binary64 *)
(* ===================================================================== *)

Lemma pow2_pos (e : Z) : 0 <= e -> 0 < 2 ^ e.
Proof. intros; apply Z.pow_pos_nonneg; lia. Qed.

Lemma pow2_split (a b : Z) : 0 <= a -> 0 <= b -> 2 ^ (a + b) = 2 ^ a * 2 ^ b.
Proof. intros; apply Z.pow_add_r; assumption. Qed.

Lemma scale2_pos (p q e n d : Z) :
  0 < p -> 0 < q -> scale2 p q e = (n, d) -> 0 < n /\ 0 < d.
Proof.
  intros Hp Hq H. unfold scale2 in H.
  destruct (Z.leb_spec 0 e); inversion H; subst; clear H.
  - split; [assumption|]. apply Z.mul_pos_pos; [assumption | apply pow2_pos; assumption].
  - split; [|assumption]. apply Z.mul_pos_pos; [assumption | apply pow2_pos; lia].
Qed.

(** Lowering the exponent by [j] multiplies the fraction by [2^j]. *)
Lemma scale2_shift (p q e j n d n' d' : Z) :
  0 <= j ->
  scale2 p q e = (n, d) -> scale2 p q (e - j) = (n', d') ->
  n' * d = 2 ^ j * n * d'.
Proof.
  intros Hj H H'. unfold scale2 in *.
  destruct (Z.leb_spec 0 e); destruct (Z.leb_spec 0 (e - j));
    inversion H; inversion H'; subst; clear H H'.
  - replace e with ((e - j) + j) at 1 by lia.
    rewrite pow2_split by lia. ring.
  - replace j with ((- (e - j)) + e) at 2 by lia.
    rewrite pow2_split by lia. ring.
  - lia.
  - replace (- (e - j)) with (j + - e) by lia.
    rewrite pow2_split by lia. ring.
Qed.

Lemma flog2_spec (p q n d : Z) :
  0 < p -> 0 < q -> scale2 p q (flog2 p q) = (n, d) -> d <= n < 2 * d.
Proof.
  intros Hp Hq H.
  pose proof (Z.log2_spec p Hp) as [Ha1 Ha2].
  pose proof (Z.log2_spec q Hq) as [Hb1 Hb2].
  pose proof (Z.log2_nonneg p) as Ha0.
  pose proof (Z.log2_nonneg q) as Hb0.
  set (a := Z.log2 p) in *. set (b := Z.log2 q) in *.
  (* below the difference of the logarithms *)
  assert (HA : forall n1 d1, scale2 p q (a - b - 1) = (n1, d1) -> d1 <= n1).
  { intros n1 d1 E. unfold scale2 in E.
    destruct (Z.leb_spec 0 (a - b - 1)); inversion E; subst; clear E.
    - assert (2 ^ a = 2 ^ (b + 1) * 2 ^ (a - b - 1)).
      { rewrite <- pow2_split by lia. f_equal; lia. }
      assert (0 < 2 ^ (a - b - 1)) by (apply pow2_pos; lia).
      replace (Z.succ b) with (b + 1) in Hb2 by lia. nia.
    - assert (2 ^ (b + 1) = 2 ^ a * 2 ^ (- (a - b - 1))).
      { rewrite <- pow2_split by lia. f_equal; lia. }
      assert (0 < 2 ^ (- (a - b - 1))) by (apply pow2_pos; lia).
      replace (Z.succ b) with (b + 1) in Hb2 by lia. nia. }
  (* above it *)
  assert (HB : forall n2 d2, scale2 p q (a - b + 1) = (n2, d2) -> n2 < d2).
  { intros n2 d2 E. unfold scale2 in E.
    destruct (Z.leb_spec 0 (a - b + 1)); inversion E; subst; clear E.
    - assert (2 ^ (a + 1) = 2 ^ b * 2 ^ (a - b + 1)).
      { rewrite <- pow2_split by lia. f_equal; lia. }
      assert (0 < 2 ^ (a - b + 1)) by (apply pow2_pos; lia).
      replace (Z.succ a) with (a + 1) in Ha2 by lia. nia.
    - assert (2 ^ b = 2 ^ (a + 1) * 2 ^ (- (a - b + 1))).
      { rewrite <- pow2_split by lia. f_equal; lia. }
      assert (0 < 2 ^ (- (a - b + 1))) by (apply pow2_pos; lia).
      replace (Z.succ a) with (a + 1) in Ha2 by lia. nia. }
  unfold flog2 in H. fold a in H. fold b in H. unfold pow2_le in H.
  destruct (scale2 p q (a - b)) as [n0 d0] eqn:E0.
  destruct (scale2_pos _ _ _ _ _ Hp Hq E0) as [Hn0 Hd0].
  destruct (Z.leb_spec d0 n0).
  - rewrite E0 in H. inversion H; subst; clear H. split; [assumption|].
    destruct (scale2 p q (a - b + 1)) as [n2 d2] eqn:E2.
    destruct (scale2_pos _ _ _ _ _ Hp Hq E2) as [Hn2 Hd2].
    pose proof (HB _ _ eq_refl).
    assert (S : n * d2 = 2 ^ 1 * n2 * d).
    { apply (scale2_shift p q (a - b + 1) 1 n2 d2 n d); try lia; try assumption.
      replace (a - b + 1 - 1) with (a - b) by lia. assumption. }
    change (2 ^ 1) with 2 in S. nia.
  - destruct (scale2_pos _ _ _ _ _ Hp Hq H) as [Hn Hd].
    split; [apply HA; assumption|].
    assert (S : n * d0 = 2 ^ 1 * n0 * d).
    { apply (scale2_shift p q (a - b) 1 n0 d0 n d); try lia; assumption. }
    change (2 ^ 1) with 2 in S. nia.
Qed.

Lemma flog2_unique (p q l n d : Z) :
  0 < p -> 0 < q -> scale2 p q l = (n, d) -> d <= n < 2 * d ->
  flog2 p q = l.
Proof.
  intros Hp Hq H B.
  destruct (scale2 p q (flog2 p q)) as [n0 d0] eqn:E0.
  pose proof (flog2_spec _ _ _ _ Hp Hq E0) as B0.
  destruct (scale2_pos _ _ _ _ _ Hp Hq E0) as [Hn0 Hd0].
  destruct (scale2_pos _ _ _ _ _ Hp Hq H) as [Hn Hd].
  destruct (Z.lt_trichotomy l (flog2 p q)) as [L | [L | L]]; [| congruence |].
  - exfalso.
    assert (S : n * d0 = 2 ^ (flog2 p q - l) * n0 * d).
    { apply (scale2_shift p q (flog2 p q) (flog2 p q - l) n0 d0 n d); try lia; try assumption.
      replace (flog2 p q - (flog2 p q - l)) with l by lia. assumption. }
    assert (2 ^ 1 <= 2 ^ (flog2 p q - l)) by (apply Z.pow_le_mono_r; lia).
    change (2 ^ 1) with 2 in *.
    assert (2 * (n0 * d) <= 2 ^ (flog2 p q - l) * (n0 * d)) by (apply Z.mul_le_mono_nonneg_r; nia).
    nia.
  - exfalso.
    assert (S : n0 * d = 2 ^ (l - flog2 p q) * n * d0).
    { apply (scale2_shift p q l (l - flog2 p q) n d n0 d0); try lia; try assumption.
      replace (l - (l - flog2 p q)) with (flog2 p q) by lia. assumption. }
    assert (2 ^ 1 <= 2 ^ (l - flog2 p q)) by (apply Z.pow_le_mono_r; lia).
    change (2 ^ 1) with 2 in *.
    assert (2 * (n * d0) <= 2 ^ (l - flog2 p q) * (n * d0)) by (apply Z.mul_le_mono_nonneg_r; nia).
    nia.
Qed.

(** ** Rounding of a quotient *)

Lemma rne_exact (a d : Z) : 0 < d -> rne (a * d) d = a.
Proof.
  intros Hd. unfold rne.
  rewrite Z.div_mul by lia. rewrite Z.mod_mul by lia.
  destruct (Z.ltb_spec (2 * 0) d); [reflexivity | lia].
Qed.

Lemma rne_lower (a n d : Z) : 0 < d -> a * d <= n -> a <= rne n d.
Proof.
  intros Hd H. unfold rne.
  assert (a <= n / d) by (apply Z.div_le_lower_bound; lia).
  destruct (Z.ltb_spec (2 * (n mod d)) d); [assumption|].
  destruct (Z.ltb_spec d (2 * (n mod d))); [lia|].
  destruct (Z.even (n / d)); lia.
Qed.

Lemma rne_upper (b n d : Z) : 0 < d -> n <= b * d -> rne n d <= b.
Proof.
  intros Hd H. unfold rne.
  pose proof (Z.div_mod n d ltac:(lia)) as E.
  pose proof (Z.mod_pos_bound n d Hd) as R.
  assert (n / d <= b).
  { apply Z.lt_succ_r. apply Z.div_lt_upper_bound; [assumption | nia]. }
  destruct (Z.ltb_spec (2 * (n mod d)) d); [assumption|].
  assert (n / d < b) by nia.
  destruct (Z.ltb_spec d (2 * (n mod d))); [lia|].
  destruct (Z.even (n / d)); lia.
Qed.

Lemma rne_scale (n d c : Z) : 0 < d -> 0 < c -> rne (n * c) (d * c) = rne n d.
Proof.
  intros Hd Hc. unfold rne.
  rewrite Z.div_mul_cancel_r by lia.
  rewrite Z.mul_mod_distr_r by lia.
  destruct (Z.ltb_spec (2 * (n mod d)) d), (Z.ltb_spec (2 * (n mod d * c)) (d * c));
    try reflexivity; try nia.
  destruct (Z.ltb_spec d (2 * (n mod d))), (Z.ltb_spec (d * c) (2 * (n mod d * c)));
    try reflexivity; nia.
Qed.

Lemma scale2_scale (p q c e n d : Z) :
  scale2 p q e = (n, d) -> scale2 (p * c) (q * c) e = (n * c, d * c).
Proof.
  unfold scale2. destruct (0 <=? e); intros H; inversion H; subst; f_equal; ring.
Qed.

Lemma flog2_scale (p q c : Z) :
  0 < p -> 0 < q -> 0 < c -> flog2 (p * c) (q * c) = flog2 p q.
Proof.
  intros Hp Hq Hc.
  destruct (scale2 p q (flog2 p q)) as [n d] eqn:E.
  pose proof (flog2_spec _ _ _ _ Hp Hq E).
  apply (flog2_unique (p * c) (q * c) (flog2 p q) (n * c) (d * c)); try nia.
  apply scale2_scale; assumption.
Qed.

Lemma round_pos_scale (p q c : Z) :
  0 < p -> 0 < q -> 0 < c -> round_pos (p * c) (q * c) = round_pos p q.
Proof.
  intros Hp Hq Hc. unfold round_pos.
  rewrite flog2_scale by assumption.
  destruct (scale2 p q (Z.max (flog2 p q - 52) emin)) as [n d] eqn:E.
  rewrite (scale2_scale _ _ c _ _ _ E).
  destruct (scale2_pos _ _ _ _ _ Hp Hq E).
  rewrite rne_scale by assumption. reflexivity.
Qed.

(** ** The result of rounding is a binary64 value *)

Lemma round_pos_bounds (p q m e : Z) :
  0 < p -> 0 < q -> round_pos p q = (m, e) ->
  0 <= m < 2 ^ 53 /\ emin <= e /\ (2 ^ 52 <= m \/ e = emin).
Proof.
  intros Hp Hq H. unfold round_pos in H.
  set (l := flog2 p q) in *.
  destruct (scale2 p q l) as [nl dl] eqn:El.
  pose proof (flog2_spec _ _ _ _ Hp Hq El) as Bl.
  destruct (scale2_pos _ _ _ _ _ Hp Hq El) as [Hnl Hdl].
  destruct (scale2 p q (Z.max (l - 52) emin)) as [n d] eqn:E.
  destruct (scale2_pos _ _ _ _ _ Hp Hq E) as [Hn Hd].
  assert (Hlow : 0 <= rne n d) by (apply rne_lower; lia).
  assert (Hcases :
            (Z.max (l - 52) emin = l - 52 /\ 2 ^ 52 <= rne n d <= 2 ^ 53)
            \/ (Z.max (l - 52) emin = emin /\ rne n d <= 2 ^ 52)).
  { destruct (Z.max_spec (l - 52) emin) as [[L M] | [L M]].
    - (* the least exponent *)
      right. split; [assumption|]. rewrite M in E.
      destruct (Z.le_gt_cases emin l) as [G | G].
      + assert (S : n * dl = 2 ^ (l - emin) * nl * d).
        { apply (scale2_shift p q l (l - emin) nl dl n d); try lia; try assumption.
          replace (l - (l - emin)) with emin by lia. assumption. }
        assert (2 * 2 ^ (l - emin) <= 2 ^ 52).
        { change (2 ^ 52) with (2 ^ 1 * 2 ^ 51). change (2 ^ 1) with 2.
          apply Z.mul_le_mono_nonneg_l; [lia|].
          apply Z.pow_le_mono_r; lia. }
        assert (0 < 2 ^ (l - emin)) by (apply pow2_pos; lia).
        apply rne_upper; [assumption|].
        assert (n * dl <= 2 ^ 52 * d * dl); [| nia].
        rewrite S.
        assert (2 ^ (l - emin) * nl <= 2 ^ (l - emin) * (2 * dl)) by nia.
        nia.
      + assert (S : nl * d = 2 ^ (emin - l) * n * dl).
        { apply (scale2_shift p q emin (emin - l) n d nl dl); try lia; try assumption.
          replace (emin - (emin - l)) with l by lia. assumption. }
        assert (2 ^ 1 <= 2 ^ (emin - l)) by (apply Z.pow_le_mono_r; lia).
        change (2 ^ 1) with 2 in *.
        apply rne_upper; [assumption|].
        assert (n <= d); [| lia].
        assert (2 * (n * dl) <= 2 ^ (emin - l) * (n * dl)) by (apply Z.mul_le_mono_nonneg_r; nia).
        nia.
    - left. split; [assumption|]. rewrite M in E.
      assert (S : n * dl = 2 ^ 52 * nl * d).
      { apply (scale2_shift p q l 52 nl dl n d); try lia; assumption. }
      split.
      + apply rne_lower; [assumption|]. nia.
      + apply rne_upper; [assumption|]. nia. }
  pose proof (Z.le_max_r (l - 52) emin) as Hmax.
  destruct (Z.eqb_spec (rne n d) (2 ^ 53)); inversion H; subst; clear H.
  - split; [lia|]. split; [lia|]. left; lia.
  - destruct Hcases as [[M B] | [M B]].
    + split; [lia|]. split; [lia|]. left; lia.
    + split; [lia|]. split; [lia|]. right; assumption.
Qed.

Lemma canonicalb_true (m e : Z) :
  canonicalb m e = true <->
  0 <= m < 2 ^ 53 /\ emin <= e <= emax /\ (2 ^ 52 <= m \/ e = emin).
Proof.
  unfold canonicalb.
  rewrite !andb_true_iff, orb_true_iff, !Z.leb_le, Z.ltb_lt, Z.eqb_eq.
  tauto.
Qed.

Lemma round_rat_wf (neg : bool) (p q : Z) :
  0 <= p -> 0 < q -> wf_Number (round_rat neg p q) = true.
Proof.
  intros Hp Hq. unfold round_rat.
  destruct (Z.eqb_spec p 0); [reflexivity|].
  destruct (round_pos p q) as [m e] eqn:E.
  destruct (Z.ltb_spec emax e); [reflexivity|].
  simpl. apply canonicalb_true.
  pose proof (round_pos_bounds p q m e ltac:(lia) Hq E). unfold emax, emin in *. lia.
Qed.

Lemma pow10_pos (e : Z) : 0 <= e -> 0 < 10 ^ e.
Proof. intros; apply Z.pow_pos_nonneg; lia. Qed.

Lemma round_dec_wf (neg : bool) (M E : Z) :
  0 <= M -> wf_Number (round_dec neg M E) = true.
Proof.
  intros HM. unfold round_dec.
  destruct (Z.leb_spec 0 E).
  - apply round_rat_wf; [|lia]. pose proof (pow10_pos E); nia.
  - apply round_rat_wf; [assumption|]. apply pow10_pos; lia.
Qed.

(** ** Rounding leaves a binary64 value as it is *)

Lemma log2_normal (m : Z) : 2 ^ 52 <= m < 2 ^ 53 -> Z.log2 m = 52.
Proof.
  intros H. apply Z.log2_unique; [lia|]. simpl. lia.
Qed.

Lemma round_pos_exact (m e : Z) :
  canonicalb m e = true -> 0 < m ->
  let (p, q) := exact_frac m e in round_pos p q = (m, e).
Proof.
  intros C Hm. apply canonicalb_true in C.
  destruct C as [Bm [Be Cn]].
  (* the value as a fraction whose scaling by 2^e is m/1 *)
  assert (Hs : forall p q, exact_frac m e = (p, q) ->
               0 < p /\ 0 < q /\ exists c, 0 < c /\ scale2 p q e = (m * c, 1 * c)).
  { intros p q E. unfold exact_frac in E. unfold scale2.
    destruct (Z.leb_spec 0 e); inversion E; subst; clear E.
    - pose proof (pow2_pos e ltac:(lia)).
      split; [nia|]. split; [lia|]. exists (2 ^ e). split; [assumption|reflexivity].
    - pose proof (pow2_pos (- e) ltac:(lia)).
      split; [lia|]. split; [lia|]. exists (2 ^ (- e)). split; [assumption|].
      f_equal; ring. }
  destruct (exact_frac m e) as [p q] eqn:E.
  destruct (Hs p q eq_refl) as [Hp [Hq [c [Hc Sc]]]].
  (* the logarithm of the value *)
  pose proof (Z.log2_spec m Hm) as [L1 L2].
  pose proof (Z.log2_nonneg m) as L0.
  assert (Hl : flog2 p q = Z.log2 m + e).
  { destruct (scale2 p q (Z.log2 m + e)) as [n d] eqn:En.
    apply (flog2_unique p q (Z.log2 m + e) n d Hp Hq En).
    destruct (scale2_pos _ _ _ _ _ Hp Hq En) as [Hn Hd].
    assert (S : m * c * d = 2 ^ (Z.log2 m) * n * (1 * c)).
    { apply (scale2_shift p q (Z.log2 m + e) (Z.log2 m) n d (m * c) (1 * c)); try lia; try assumption.
      replace (Z.log2 m + e - Z.log2 m) with e by lia. assumption. }
    replace (Z.succ (Z.log2 m)) with (Z.log2 m + 1) in L2 by lia.
    rewrite pow2_split in L2 by lia. change (2 ^ 1) with 2 in L2.
    assert (0 < 2 ^ Z.log2 m) by (apply pow2_pos; lia).
    assert (E1 : m * d = 2 ^ Z.log2 m * n) by nia.
    split; nia. }
  unfold round_pos. rewrite Hl.
  assert (He : Z.max (Z.log2 m + e - 52) emin = e).
  { destruct Cn as [Cn | Cn].
    - rewrite (log2_normal m) by lia. lia.
    - assert (Z.log2 m < 53); [| lia].
      apply Z.log2_lt_pow2; lia. }
  rewrite He, Sc.
  rewrite rne_scale by lia.
  assert (R : rne m 1 = m).
  { pose proof (rne_exact m 1 ltac:(lia)) as R. rewrite Z.mul_1_r in R. exact R. }
  cbv zeta. rewrite R.
  destruct (Z.eqb_spec m (2 ^ 53)); [lia | reflexivity].
Qed.

(* ===================================================================== *)
(** * Decimal digits *)
(* ===================================================================== *)

Lemma is_digit_true (c : N) : is_digit c = true <-> (48 <= c <= 57)%N.
Proof.
  unfold is_digit. rewrite andb_true_iff, !N.leb_le. tauto.
Qed.

Lemma digit_unit_digit (d : Z) : 0 <= d < 10 -> is_digit (digit_unit d) = true.
Proof.
  intros H. apply is_digit_true. unfold digit_unit. lia.
Qed.

Lemma digit_val_unit (d : Z) : 0 <= d < 10 -> digit_val (digit_unit d) = d.
Proof.
  intros H. unfold digit_val, digit_unit. lia.
Qed.

Lemma digit_val_range (c : N) : is_digit c = true -> 0 <= digit_val c <= 9.
Proof.
  intros H. apply is_digit_true in H. unfold digit_val. lia.
Qed.

Lemma digits_value_app (a b : jsstring) (acc : Z) :
  digits_value (a ++ b) acc = digits_value b (digits_value a acc).
Proof.
  revert acc. induction a as [| c a IH]; intros acc; simpl; [reflexivity | apply IH].
Qed.

Lemma digits_value_bounds (l : jsstring) (acc : Z) :
  forallb is_digit l = true ->
  acc * 10 ^ Z.of_nat (List.length l) <= digits_value l acc
  < (acc + 1) * 10 ^ Z.of_nat (List.length l).
Proof.
  revert acc. induction l as [| c l IH]; intros acc H.
  - simpl. lia.
  - simpl in H. apply andb_true_iff in H. destruct H as [Hc Hl].
    pose proof (digit_val_range c Hc) as R.
    specialize (IH (acc * 10 + digit_val c) Hl).
    change (List.length (c :: l)) with (S (List.length l)).
    rewrite Nat2Z.inj_succ, Z.pow_succ_r by lia.
    pose proof (pow10_pos (Z.of_nat (List.length l)) ltac:(lia)).
    simpl digits_value. nia.
Qed.

Lemma digits_value_zeros (n : nat) (acc : Z) :
  digits_value (repeat u_0 n) acc = acc * 10 ^ Z.of_nat n.
Proof.
  revert acc. induction n as [| n IH]; intros acc.
  - simpl. lia.
  - rewrite Nat2Z.inj_succ, Z.pow_succ_r by lia.
    simpl repeat. simpl digits_value. rewrite IH.
    change (digit_val u_0) with 0. ring.
Qed.

Lemma forallb_digit_zeros (n : nat) : forallb is_digit (repeat u_0 n) = true.
Proof. induction n; simpl; auto. Qed.

(** The digits [digits_fuel] adds in front of [acc]. *)
Lemma digits_fuel_spec (f : nat) (n : Z) (acc : jsstring) :
  0 <= n < 10 ^ Z.of_nat (S f) ->
  exists c l,
    digits_fuel (S f) n acc = (c :: l) ++ acc
    /\ forallb is_digit (c :: l) = true
    /\ digits_value (c :: l) 0 = n
    /\ (0 < n -> c <> u_0).
Proof.
  revert n acc. induction f as [| f IH]; intros n acc H;
    pose proof (Z.mod_pos_bound n 10 ltac:(lia)) as M;
    cbn [digits_fuel]; destruct (Z.ltb_spec n 10) as [L | L].
  1, 3:
    exists (digit_unit (n mod 10)), []; rewrite Z.mod_small by lia;
    split; [reflexivity|]; split;
    [ simpl; rewrite digit_unit_digit by lia; reflexivity
    | split;
      [ simpl; rewrite digit_val_unit by lia; reflexivity
      | intros P E; unfold digit_unit, u_0 in E; lia ] ].
  - simpl in H. lia.
  - rewrite Nat2Z.inj_succ, Z.pow_succ_r in H by lia.
    assert (B : 0 <= n / 10 < 10 ^ Z.of_nat (S f)).
    { split; [apply Z.div_pos; lia|]. apply Z.div_lt_upper_bound; lia. }
    destruct (IH (n / 10) (digit_unit (n mod 10) :: acc) B)
      as [c [l [E [D [V NZ]]]]].
    exists c, (l ++ [digit_unit (n mod 10)]).
    split.
    { cbn [digits_fuel] in E. rewrite E. simpl. rewrite <- app_assoc. reflexivity. }
    split.
    { change (c :: l ++ [digit_unit (n mod 10)])
        with ((c :: l) ++ [digit_unit (n mod 10)]).
      rewrite forallb_app, D. simpl.
      rewrite digit_unit_digit by lia. reflexivity. }
    split.
    { change (c :: l ++ [digit_unit (n mod 10)])
        with ((c :: l) ++ [digit_unit (n mod 10)]).
      rewrite digits_value_app, V. simpl.
      rewrite digit_val_unit by lia.
      pose proof (Z.div_mod n 10 ltac:(lia)). lia. }
    intros P. apply NZ.
    apply Z.div_str_pos. lia.
Qed.

Lemma digits_spec (n : Z) :
  0 <= n ->
  exists c l,
    digits n = c :: l
    /\ forallb is_digit (c :: l) = true
    /\ digits_value (c :: l) 0 = n
    /\ (0 < n -> c <> u_0).
Proof.
  intros H. unfold digits.
  assert (B : 0 <= n < 10 ^ Z.of_nat (S (Z.to_nat (Z.log2 n)))).
  { split; [assumption|].
    destruct (Z.eq_dec n 0) as [-> | NZ]; [simpl; lia|].
    pose proof (Z.log2_spec n ltac:(lia)) as [_ L].
    pose proof (Z.log2_nonneg n).
    rewrite Nat2Z.inj_succ, Z2Nat.id by assumption.
    assert (2 ^ Z.succ (Z.log2 n) <= 10 ^ Z.succ (Z.log2 n)).
    { apply Z.pow_le_mono_l. lia. }
    lia. }
  destruct (digits_fuel_spec _ n [] B) as [c [l [E R]]].
  exists c, l. rewrite E, app_nil_r. split; [reflexivity | exact R].
Qed.

(** A number of [k] digits has [k] digits. *)
Lemma ndigits_range (s k : Z) :
  10 ^ (k - 1) <= s < 10 ^ k -> 0 < s -> ndigits s = k.
Proof.
  intros R P.
  destruct (digits_spec s ltac:(lia)) as [c [l [E [D [V NZ]]]]].
  unfold ndigits. rewrite E.
  pose proof (digits_value_bounds (c :: l) 0 D) as B. rewrite V in B.
  (* the leading digit is not zero *)
  assert (Lo : 10 ^ Z.of_nat (List.length l) <= s).
  { simpl in D. apply andb_true_iff in D. destruct D as [Dc Dl].
    pose proof (digits_value_bounds l (0 * 10 + digit_val c) Dl) as B'.
    change (digits_value (c :: l) 0)
      with (digits_value l (0 * 10 + digit_val c)) in V.
    rewrite V in B'.
    pose proof (digit_val_range c Dc).
    assert (digit_val c <> 0).
    { intros Z0. apply (NZ P). unfold digit_val in Z0. unfold u_0. lia. }
    pose proof (pow10_pos (Z.of_nat (List.length l)) ltac:(lia)). nia. }
  change (List.length (c :: l)) with (S (List.length l)) in *.
  rewrite Nat2Z.inj_succ in *.
  set (j := Z.of_nat (List.length l)) in *.
  assert (0 <= j) by (unfold j; lia).
  destruct (Z.lt_trichotomy (Z.succ j) k) as [L | [L | L]]; [| assumption |].
  - exfalso. assert (10 ^ Z.succ j <= 10 ^ (k - 1)) by (apply Z.pow_le_mono_r; lia). lia.
  - exfalso.
    destruct (Z.le_gt_cases 0 k) as [K | K].
    + assert (10 ^ k <= 10 ^ j) by (apply Z.pow_le_mono_r; lia). lia.
    + rewrite (Z.pow_neg_r 10 k) in R by lia. lia.
Qed.

(* ===================================================================== *)
(** * Reading a number back *)
(* ===================================================================== *)

Lemma read_digits_app (l rest : text) (acc cnt : Z) :
  forallb is_digit l = true -> digit_end rest = true ->
  read_digits (l ++ rest) acc cnt
  = (digits_value l acc, cnt + Z.of_nat (List.length l), rest).
Proof.
  revert acc cnt. induction l as [| c l IH]; intros acc cnt D HS.
  - simpl. rewrite Z.add_0_r. destruct rest as [| c r]; simpl.
    + reflexivity.
    + simpl in HS. apply negb_true_iff in HS. rewrite HS. reflexivity.
  - simpl in D. apply andb_true_iff in D. destruct D as [Dc Dl].
    simpl app. cbn [read_digits]. rewrite Dc. rewrite IH by assumption.
    change (List.length (c :: l)) with (S (List.length l)).
    rewrite Nat2Z.inj_succ. cbn [digits_value]. f_equal. f_equal. lia.
Qed.

Lemma number_end_digit_end (rest : text) :
  number_end rest = true -> digit_end rest = true.
Proof.
  destruct rest as [| c r]; simpl; [reflexivity|].
  rewrite !andb_true_iff. tauto.
Qed.

Lemma parse_int_digits (c : N) (l rest : text) :
  forallb is_digit (c :: l) = true -> c <> u_0 -> digit_end rest = true ->
  parse_int ((c :: l) ++ rest) = Some (digits_value (c :: l) 0, rest).
Proof.
  intros D NZ HS.
  pose proof (read_digits_app (c :: l) rest 0 0 D HS) as R.
  simpl app in *. unfold parse_int.
  destruct (N.eqb_spec c u_0); [contradiction|].
  simpl in D. apply andb_true_iff in D. destruct D as [Dc Dl]. rewrite Dc.
  rewrite R. reflexivity.
Qed.

Lemma parse_fraction_none (ip : Z) (rest : text) :
  number_end rest = true -> parse_fraction ip rest = Some (ip, 0, rest).
Proof.
  destruct rest as [| c r]; simpl; [reflexivity|].
  rewrite !andb_true_iff, !negb_true_iff. intros [[[_ H] _] _].
  rewrite H. reflexivity.
Qed.

Lemma parse_fraction_some (ip : Z) (l rest : text) :
  forallb is_digit l = true -> l <> [] -> digit_end rest = true ->
  parse_fraction ip (u_dot :: l ++ rest)
  = Some (digits_value l ip, Z.of_nat (List.length l), rest).
Proof.
  intros D NE HS. unfold parse_fraction.
  rewrite N.eqb_refl. rewrite read_digits_app by assumption.
  destruct l as [| c l]; [contradiction|].
  change (List.length (c :: l)) with (S (List.length l)).
  destruct (Z.eqb_spec (0 + Z.of_nat (S (List.length l))) 0); [lia|].
  reflexivity.
Qed.

Lemma parse_exponent_none (rest : text) :
  number_end rest = true -> parse_exponent rest = Some (0, rest).
Proof.
  destruct rest as [| c r]; simpl; [reflexivity|].
  rewrite !andb_true_iff, !negb_true_iff. intros [[[_ _] H1] H2].
  rewrite H1, H2. reflexivity.
Qed.

Lemma parse_exponent_some (ex : Z) (rest : text) :
  digit_end rest = true ->
  parse_exponent
    (u_e :: (if ex <? 0 then u_minus else u_plus) :: digits (Z.abs ex) ++ rest)
  = Some (ex, rest).
Proof.
  intros HS.
  destruct (digits_spec (Z.abs ex) ltac:(lia)) as [c [l [E [D [V _]]]]].
  unfold parse_exponent. rewrite N.eqb_refl. simpl orb. cbv iota.
  rewrite E.
  destruct (Z.ltb_spec ex 0).
  - rewrite N.eqb_refl.
    rewrite read_digits_app by assumption. rewrite V.
    change (List.length (c :: l)) with (S (List.length l)).
    destruct (Z.eqb_spec (0 + Z.of_nat (S (List.length l))) 0); [lia|].
    f_equal. f_equal. lia.
  - change (N.eqb u_plus u_minus) with false. cbv iota.
    rewrite N.eqb_refl.
    rewrite read_digits_app by assumption. rewrite V.
    change (List.length (c :: l)) with (S (List.length l)).
    destruct (Z.eqb_spec (0 + Z.of_nat (S (List.length l))) 0); [lia|].
    f_equal. f_equal. lia.
Qed.

(** The three parts of a number put together, with and without a sign. *)
Lemma parse_number_parts (neg : bool) (c : N) (t r1 r2 r3 : text) (ip M fc X : Z) :
  is_digit c = true ->
  parse_int (c :: t) = Some (ip, r1) ->
  parse_fraction ip r1 = Some (M, fc, r2) ->
  parse_exponent r2 = Some (X, r3) ->
  parse_number ((if neg then [u_minus] else []) ++ c :: t)
  = Some (round_dec neg M (X - fc), r3).
Proof.
  intros D Hi Hf He.
  assert (NM : N.eqb c u_minus = false).
  { apply is_digit_true in D. apply N.eqb_neq. unfold u_minus. lia. }
  unfold parse_number. destruct neg; cbn [app].
  - rewrite N.eqb_refl. rewrite Hi, Hf, He. reflexivity.
  - rewrite NM. rewrite Hi, Hf, He. reflexivity.
Qed.

Lemma round_dec_zeros (neg : bool) (s j : Z) :
  0 <= j -> round_dec neg (s * 10 ^ j) (0 - 0) = round_dec neg s j.
Proof.
  intros H. unfold round_dec. simpl (0 - 0).
  destruct (Z.leb_spec 0 j); [| lia].
  simpl (0 <=? 0). cbv iota. rewrite Z.pow_0_r, Z.mul_1_r. reflexivity.
Qed.

Lemma digit_end_e (r : text) : digit_end (u_e :: r) = true.
Proof. reflexivity. Qed.

(** The five shapes of the text of a Number. *)
Lemma format_digits_cases (n k s : Z) :
  let ds := digits s in
  let ex := n - 1 in
  let sign := if ex <? 0 then u_minus else u_plus in
  (k <= n <= 21
   /\ format_digits (n, k, s) = ds ++ repeat u_0 (Z.to_nat (n - k)))
  \/ (0 < n <= 21 /\ n < k
      /\ format_digits (n, k, s)
         = firstn (Z.to_nat n) ds ++ u_dot :: skipn (Z.to_nat n) ds)
  \/ (-6 < n <= 0
      /\ format_digits (n, k, s)
         = u_0 :: u_dot :: repeat u_0 (Z.to_nat (- n)) ++ ds)
  \/ ((21 < n \/ n <= -6) /\ k = 1
      /\ format_digits (n, k, s) = ds ++ u_e :: sign :: digits (Z.abs ex))
  \/ ((21 < n \/ n <= -6) /\ k <> 1
      /\ format_digits (n, k, s)
         = firstn 1 ds ++ u_dot :: skipn 1 ds ++ u_e :: sign :: digits (Z.abs ex)).
Proof.
  intros ds ex sign. unfold format_digits. fold ds. fold ex. fold sign.
  destruct (Z.leb_spec k n), (Z.leb_spec n 21), (Z.ltb_spec 0 n),
    (Z.ltb_spec (-6) n), (Z.leb_spec n 0), (Z.eqb_spec k 1);
    cbn [andb];
    first
      [ exfalso; lia
      | left; split; [lia | reflexivity]
      | right; left; split; [lia | split; [lia | reflexivity]]
      | right; right; left; split; [lia | reflexivity]
      | right; right; right; left; split; [lia | split; [lia | reflexivity]]
      | right; right; right; right; split; [lia | split; [lia | reflexivity]] ].
Qed.

(** Reading back the text of steps 6 to 10 of Number::toString gives the
    decimal [s * 10^(n-k)]. *)
Lemma parse_format_digits (neg : bool) (n k s : Z) (rest : text) :
  0 < s -> ndigits s = k -> number_end rest = true ->
  parse_number ((if neg then [u_minus] else []) ++ format_digits (n, k, s) ++ rest)
  = Some (round_dec neg s (n - k), rest).
Proof.
  intros Hs Hk Hr.
  pose proof (number_end_digit_end rest Hr) as Hd.
  destruct (digits_spec s ltac:(lia)) as [c [l [E [D [V NZ]]]]].
  specialize (NZ Hs).
  unfold ndigits in Hk. rewrite E in Hk.
  assert (Dc : is_digit c = true).
  { simpl in D. apply andb_true_iff in D. tauto. }
  assert (Dl : forallb is_digit l = true).
  { simpl in D. apply andb_true_iff in D. tauto. }
  change (List.length (c :: l)) with (S (List.length l)) in Hk.
  rewrite Nat2Z.inj_succ in Hk.
  destruct (format_digits_cases n k s)
    as [[C F] | [[C [C' F]] | [[C F] | [[C [C' F]] | [C [C' F]]]]]];
    rewrite F, E; clear F.
  - (* the digits, then zeros *)
    assert (Dz : forallb is_digit (c :: l ++ repeat u_0 (Z.to_nat (n - k))) = true).
    { cbn [forallb]. rewrite Dc, forallb_app, Dl, forallb_digit_zeros. reflexivity. }
    pose proof (parse_int_digits c (l ++ repeat u_0 (Z.to_nat (n - k))) rest Dz NZ Hd)
      as Hi.
    change (c :: l ++ repeat u_0 (Z.to_nat (n - k)))
      with ((c :: l) ++ repeat u_0 (Z.to_nat (n - k))) in Hi at 2.
    rewrite digits_value_app, V, digits_value_zeros in Hi.
    rewrite Z2Nat.id in Hi by lia. cbn [app] in Hi.
    rewrite <- app_assoc. cbn [app]. rewrite (app_assoc l).
    rewrite (parse_number_parts neg c _ _ _ _ _ _ _ _ Dc Hi
               (parse_fraction_none _ rest Hr) (parse_exponent_none rest Hr)).
    rewrite round_dec_zeros by lia. reflexivity.
  - (* the integer part, a dot, the other digits *)
    destruct (Z.to_nat n) as [| j] eqn:En; [lia|].
    assert (Hj : (j < List.length l)%nat) by lia.
    cbn [firstn skipn].
    pose proof (firstn_skipn j l) as Split.
    assert (Da : forallb is_digit (firstn j l) = true
                 /\ forallb is_digit (skipn j l) = true).
    { rewrite <- Split in Dl. rewrite forallb_app in Dl.
      apply andb_true_iff in Dl. exact Dl. }
    destruct Da as [Da Db].
    assert (Ne : skipn j l <> []).
    { intros Z0. pose proof (length_skipn j l) as Ls. rewrite Z0 in Ls. simpl in Ls. lia. }
    assert (Dz : forallb is_digit (c :: firstn j l) = true).
    { cbn [forallb]. rewrite Dc, Da. reflexivity. }
    pose proof (parse_int_digits c (firstn j l) (u_dot :: skipn j l ++ rest) Dz NZ
                  eq_refl) as Hi.
    cbn [app] in Hi.
    cbn [app]. rewrite <- app_assoc. cbn [app].
    rewrite (parse_number_parts neg c _ _ _ _ _ _ _ _ Dc Hi
               (parse_fraction_some _ (skipn j l) rest Db Ne Hd)
               (parse_exponent_none rest Hr)).
    rewrite <- digits_value_app.
    change ((c :: firstn j l) ++ skipn j l) with (c :: firstn j l ++ skipn j l).
    rewrite Split, V.
    rewrite length_skipn.
    do 2 f_equal. f_equal. lia.
  - (* a zero, a dot, zeros, the digits *)
    assert (Hi : parse_int (u_0 :: u_dot :: (repeat u_0 (Z.to_nat (- n)) ++ c :: l) ++ rest)
                 = Some (0, u_dot :: (repeat u_0 (Z.to_nat (- n)) ++ c :: l) ++ rest))
      by reflexivity.
    assert (Hf : parse_fraction 0
                   (u_dot :: (repeat u_0 (Z.to_nat (- n)) ++ c :: l) ++ rest)
                 = Some (s, - n + k, rest)).
    { rewrite (parse_fraction_some 0 (repeat u_0 (Z.to_nat (- n)) ++ c :: l) rest);
        try assumption.
      - rewrite digits_value_app, digits_value_zeros, Z.mul_0_l, V.
        rewrite length_app, repeat_length.
        change (List.length (c :: l)) with (S (List.length l)).
        do 3 f_equal. lia.
      - rewrite forallb_app, forallb_digit_zeros, D. reflexivity.
      - intros Z0. apply app_eq_nil in Z0. destruct Z0 as [_ Z0]. discriminate. }
    cbn [app].
    rewrite (parse_number_parts neg u_0 _ _ _ _ _ _ _ _ eq_refl Hi Hf
               (parse_exponent_none rest Hr)).
    do 2 f_equal. f_equal. lia.
  - (* one digit and the exponent *)
    assert (l = []) by (destruct l; [reflexivity | simpl in Hk; lia]). subst l.
    pose proof (parse_int_digits c []
                  (u_e :: (if n - 1 <? 0 then u_minus else u_plus)
                     :: digits (Z.abs (n - 1)) ++ rest) D NZ eq_refl) as Hi.
    rewrite V in Hi. cbn [app] in Hi.
    cbn [app].
    rewrite (parse_number_parts neg c _ _ _ _ _ _ _ _ Dc Hi
               eq_refl (parse_exponent_some (n - 1) rest Hd)).
    do 2 f_equal. f_equal. lia.
  - (* one digit, a dot, the other digits and the exponent *)
    cbn [firstn skipn].
    assert (Ne : l <> []) by (destruct l; [simpl in Hk; lia | discriminate]).
    assert (Dz : forallb is_digit [c] = true).
    { cbn [forallb]. rewrite Dc. reflexivity. }
    pose proof (parse_int_digits c []
                  (u_dot :: l ++ u_e :: (if n - 1 <? 0 then u_minus else u_plus)
                     :: digits (Z.abs (n - 1)) ++ rest) Dz NZ eq_refl) as Hi.
    cbn [app] in Hi.
    cbn [app]. rewrite <- app_assoc. cbn [app].
    rewrite (parse_number_parts neg c _ _ _ _ _ _ _ _ Dc Hi
               (parse_fraction_some _ l _ Dl Ne (digit_end_e _))
               (parse_exponent_some (n - 1) rest Hd)).
    rewrite <- digits_value_app. cbn [app]. rewrite V.
    do 2 f_equal. f_equal. lia.
Qed.

(* ===================================================================== *)
(** * Number::toString and back *)
(* ===================================================================== *)

Lemma round_dec_zero (neg : bool) (E : Z) : round_dec neg 0 E = Finite neg 0 emin.
Proof.
  unfold round_dec. destruct (0 <=? E); reflexivity.
Qed.

Lemma round_dec_sign (neg : bool) (M E m e : Z) :
  round_dec false M E = Finite false m e -> round_dec neg M E = Finite neg m e.
Proof.
  unfold round_dec, round_rat.
  destruct (0 <=? E).
  - destruct (M * 10 ^ E =? 0).
    + intros H; inversion H; reflexivity.
    + destruct (round_pos (M * 10 ^ E) 1) as [m' e'].
      destruct (emax <? e'); intros H; inversion H; reflexivity.
  - destruct (M =? 0).
    + intros H; inversion H; reflexivity.
    + destruct (round_pos M (10 ^ (- E))) as [m' e'].
      destruct (emax <? e'); intros H; inversion H; reflexivity.
Qed.

Lemma Number_eqb_eq (x y : Number) : Number_eqb x y = true -> x = y.
Proof.
  destruct x as [| a | a m e], y as [| b | b n f]; simpl; try discriminate.
  - reflexivity.
  - intros H. apply Bool.eqb_prop in H. congruence.
  - rewrite !andb_true_iff, !Z.eqb_eq. intros [[H1 H2] H3].
    apply Bool.eqb_prop in H1. congruence.
Qed.

Lemma first_rounding_ok (m e k : Z) (cs : list (Z * Z)) (r : Z * Z * Z) :
  0 < m ->
  first_rounding (Finite false m e) k cs = Some r -> digits_for m e r.
Proof.
  intros Hm. induction cs as [| [s n] cs IH]; simpl; [discriminate|].
  destruct ((10 ^ (k - 1) <=? s) && (s <? 10 ^ k)
            && Number_eqb (round_dec false s (n - k)) (Finite false m e)) eqn:T.
  - intros H. inversion H; subst; clear H.
    apply andb_true_iff in T. destruct T as [T Q].
    apply andb_true_iff in T. destruct T as [T1 T2].
    apply Z.leb_le in T1. apply Z.ltb_lt in T2.
    apply Number_eqb_eq in Q.
    assert (0 <= s).
    { pose proof (Z.pow_nonneg 10 (k - 1) ltac:(lia)). lia. }
    assert (s <> 0).
    { intros ->. rewrite round_dec_zero in Q. inversion Q. lia. }
    unfold digits_for. split; [lia|]. split; [|exact Q].
    apply ndigits_range; lia.
  - exact IH.
Qed.

Lemma shortest_from_ok (fuel : nat) (m e p q n0 k : Z) (r : Z * Z * Z) :
  0 < m ->
  shortest_from fuel (Finite false m e) p q n0 k = Some r -> digits_for m e r.
Proof.
  intros Hm. revert k. induction fuel as [| f IH]; intros k; simpl; [discriminate|].
  destruct (first_rounding (Finite false m e) k (candidates p q n0 k)) eqn:F.
  - intros H. inversion H; subst. eapply first_rounding_ok; eassumption.
  - apply IH.
Qed.

Lemma exact_digits_ok (m e : Z) :
  canonicalb m e = true -> 0 < m -> digits_for m e (exact_digits m e).
Proof.
  intros C Hm.
  pose proof (round_pos_exact m e C Hm) as R.
  apply canonicalb_true in C. destruct C as [Bm [Be Cn]].
  unfold exact_digits, digits_for, exact_frac in *.
  destruct (Z.leb_spec 0 e) as [L | L].
  - pose proof (pow2_pos e L).
    split; [nia|]. split; [reflexivity|].
    replace (ndigits (m * 2 ^ e) - ndigits (m * 2 ^ e)) with 0 by lia.
    unfold round_dec. simpl (0 <=? 0). cbv iota.
    rewrite Z.pow_0_r, Z.mul_1_r. unfold round_rat.
    destruct (Z.eqb_spec (m * 2 ^ e) 0); [nia|].
    rewrite R. destruct (Z.ltb_spec emax e); [lia | reflexivity].
  - pose proof (Z.pow_pos_nonneg 5 (- e) ltac:(lia) ltac:(lia)).
    pose proof (pow2_pos (- e) ltac:(lia)).
    split; [nia|]. split; [reflexivity|].
    replace (ndigits (m * 5 ^ (- e)) + e - ndigits (m * 5 ^ (- e))) with e by lia.
    unfold round_dec. destruct (Z.leb_spec 0 e); [lia|].
    unfold round_rat.
    destruct (Z.eqb_spec (m * 5 ^ (- e)) 0); [nia|].
    change 10 with (2 * 5). rewrite Z.pow_mul_l.
    rewrite round_pos_scale by lia.
    rewrite R. destruct (Z.ltb_spec emax e); [lia | reflexivity].
Qed.

Lemma shortest_digits_ok (m e : Z) :
  canonicalb m e = true -> 0 < m -> digits_for m e (shortest_digits m e).
Proof.
  intros C Hm. unfold shortest_digits.
  destruct (exact_frac m e) as [p q].
  destruct (shortest_from 17 (Finite false m e) p q (decimal_exponent p q) 1) eqn:F.
  - eapply shortest_from_ok; eassumption.
  - apply exact_digits_ok; assumption.
Qed.

(** The text of a finite Number reads back as the Number, the sign of a
    zero apart. *)
Theorem parse_NumberToString (x : Number) (rest : text) :
  wf_Number x = true -> isFinite x = true -> number_end rest = true ->
  parse_number (NumberToString x ++ rest) = Some (plus_zero x, rest).
Proof.
  intros W F Hr. destruct x as [| neg | neg m e]; try discriminate.
  simpl in W. unfold NumberToString, plus_zero.
  destruct (Z.eqb_spec m 0) as [-> | NZ].
  - apply canonicalb_true in W. destruct W as [_ [_ [W | W]]]; [lia|]. subst e.
    pose proof (parse_number_parts false u_0 rest rest rest rest 0 0 0 0 eq_refl
                  eq_refl (parse_fraction_none 0 rest Hr)
                  (parse_exponent_none rest Hr)) as P.
    cbn [app] in *. rewrite P. reflexivity.
  - assert (Hm : 0 < m).
    { apply canonicalb_true in W. lia. }
    pose proof (shortest_digits_ok m e W Hm) as Ok.
    destruct (shortest_digits m e) as [[n k] s].
    destruct Ok as [Hs [Hk R]].
    rewrite <- app_assoc.
    rewrite parse_format_digits by assumption.
    rewrite (round_dec_sign neg _ _ _ _ R). reflexivity.
Qed.

Local Open Scope N_scope.

(* ===================================================================== *)
(** * QuoteJSONString and back *)
(* ===================================================================== *)

Ltac ndiv := zify; Z.to_euclidean_division_equations; lia.

Lemma hex_val_unit (d : N) : d < 16 -> hex_val (hex_unit d) = Some d.
Proof.
  intros H. unfold hex_unit, hex_val.
  destruct (N.ltb_spec d 10).
  - replace ((48 <=? 48 + d) && (48 + d <=? 57)) with true.
    + f_equal. lia.
    + symmetry. apply andb_true_iff. rewrite !N.leb_le. lia.
  - replace ((48 <=? 87 + d) && (87 + d <=? 57)) with false.
    + replace ((97 <=? 87 + d) && (87 + d <=? 102)) with true.
      * f_equal. lia.
      * symmetry. apply andb_true_iff. rewrite !N.leb_le. lia.
    + symmetry. apply andb_false_iff. right. apply N.leb_gt. lia.
Qed.

Lemma hex4_escape (c : N) :
  c < 65536 ->
  hex4 (hex_unit (c / 4096)) (hex_unit ((c / 256) mod 16))
    (hex_unit ((c / 16) mod 16)) (hex_unit (c mod 16)) = Some c.
Proof.
  intros H. unfold hex4.
  rewrite !hex_val_unit by ndiv.
  f_equal.
  change 4096 with (16 * 256). change 256 with (16 * 16).
  rewrite <- !N.Div0.div_div. ndiv.
Qed.

Lemma parse_unicode_escape (c : N) (r : text) :
  c < 65536 ->
  parse_string_chars (UnicodeEscape c ++ r) = cons_result c (parse_string_chars r).
Proof.
  intros H. unfold UnicodeEscape. cbn [app parse_string_chars].
  change (u_backslash =? u_quote) with false.
  change (u_backslash =? u_backslash) with true.
  change (u_u =? u_u) with true. cbv iota.
  rewrite hex4_escape by assumption. reflexivity.
Qed.

Lemma parse_raw_unit (c : N) (r : text) :
  c <> u_quote -> c <> u_backslash -> 32 <= c ->
  parse_string_chars (c :: r) = cons_result c (parse_string_chars r).
Proof.
  intros H1 H2 H3. cbn [parse_string_chars].
  destruct (N.eqb_spec c u_quote); [contradiction|].
  destruct (N.eqb_spec c u_backslash); [contradiction|].
  destruct (N.ltb_spec c 32); [lia|]. reflexivity.
Qed.

Lemma short_escape_some (c x : N) :
  short_escape c = Some x -> (x =? u_u) = false /\ unescape x = Some c.
Proof.
  unfold short_escape.
  repeat match goal with
         | |- context [N.eqb c ?k] => destruct (N.eqb_spec c k); [subst |]
         end;
    intros H; inversion H; subst; split; reflexivity.
Qed.

Lemma short_escape_none (c : N) :
  short_escape c = None -> c <> u_quote /\ c <> u_backslash.
Proof.
  unfold short_escape, u_quote, u_backslash.
  repeat match goal with
         | |- context [N.eqb c ?k] => destruct (N.eqb_spec c k); [subst |]
         end;
    intros H; try discriminate; split; assumption.
Qed.

Lemma parse_short_escape (c x : N) (r : text) :
  short_escape c = Some x ->
  parse_string_chars (u_backslash :: x :: r) = cons_result c (parse_string_chars r).
Proof.
  intros H. destruct (short_escape_some c x H) as [NU UE].
  cbn [parse_string_chars].
  change (u_backslash =? u_quote) with false.
  change (u_backslash =? u_backslash) with true. cbv iota.
  rewrite NU, UE. reflexivity.
Qed.

Lemma surrogate_bound (c : N) :
  is_high_surrogate c = true \/ is_low_surrogate c = true ->
  c < 65536 /\ 32 <= c /\ c <> u_quote /\ c <> u_backslash.
Proof.
  unfold is_high_surrogate, is_low_surrogate, u_quote, u_backslash.
  rewrite !andb_true_iff, !N.leb_le. lia.
Qed.

(** The body of a quoted string reads back as the string, up to the
    closing quotation mark. *)
Lemma parse_quote_units_len (n : nat) (s : jsstring) (rest : text) :
  (List.length s <= n)%nat ->
  parse_string_chars (quote_units s ++ u_quote :: rest) = Some (s, rest).
Proof.
  revert s. induction n as [| n IH]; intros s L.
  - destruct s; [reflexivity | simpl in L; lia].
  - destruct s as [| c t]; [reflexivity|].
    simpl in L. assert (Lt : (List.length t <= n)%nat) by lia.
    cbn [quote_units].
    destruct (short_escape c) as [x |] eqn:SE.
    + cbn [app]. rewrite (parse_short_escape c x _ SE).
      rewrite (IH t Lt). reflexivity.
    + destruct (short_escape_none c SE) as [NQ NB].
      destruct (N.ltb_spec c 32) as [C | C].
      * rewrite <- app_assoc. rewrite parse_unicode_escape by lia.
        rewrite (IH t Lt). reflexivity.
      * destruct (is_high_surrogate c) eqn:HS.
        -- destruct (surrogate_bound c (or_introl HS)) as [B _].
           destruct t as [| d t'].
           ++ rewrite parse_unicode_escape by assumption.
              change (parse_string_chars (u_quote :: rest)) with (Some (@nil N, rest)).
              reflexivity.
           ++ destruct (is_low_surrogate d) eqn:LS.
              ** destruct (surrogate_bound d (or_intror LS)) as [_ [B1 [B2 B3]]].
                 cbn [app].
                 rewrite parse_raw_unit by assumption.
                 rewrite parse_raw_unit by assumption.
                 rewrite (IH t' ltac:(simpl in Lt; lia)). reflexivity.
              ** rewrite <- app_assoc. rewrite parse_unicode_escape by assumption.
                 rewrite (IH (d :: t') Lt). reflexivity.
        -- destruct (is_low_surrogate c) eqn:LS.
           ++ destruct (surrogate_bound c (or_intror LS)) as [B _].
              rewrite <- app_assoc. rewrite parse_unicode_escape by assumption.
              rewrite (IH t Lt). reflexivity.
           ++ cbn [app]. rewrite parse_raw_unit by assumption.
              rewrite (IH t Lt). reflexivity.
Qed.

Lemma parse_quote_units (s : jsstring) (rest : text) :
  parse_string_chars (quote_units s ++ u_quote :: rest) = Some (s, rest).
Proof.
  apply (parse_quote_units_len (List.length s)). lia.
Qed.

(** A quoted string starts and ends with a quotation mark. *)
Lemma QuoteJSONString_app (s : jsstring) (rest : text) :
  QuoteJSONString s ++ rest = u_quote :: quote_units s ++ u_quote :: rest.
Proof.
  unfold QuoteJSONString. cbn [app]. rewrite <- app_assoc. reflexivity.
Qed.

(* ===================================================================== *)
(** * The text of a value survives UTF-8 *)
(* ===================================================================== *)

Lemma below_surrogates (c : N) :
  c < 55296 -> is_high_surrogate c = false /\ is_low_surrogate c = false.
Proof.
  intros H. unfold is_high_surrogate, is_low_surrogate. split.
  - destruct (N.leb_spec 55296 c); [lia | reflexivity].
  - destruct (N.leb_spec 56320 c); [lia | reflexivity].
Qed.

Lemma isWellFormed_cons (c : N) (s : jsstring) :
  c < 55296 -> isWellFormed (c :: s) = isWellFormed s.
Proof.
  intros H. destruct (below_surrogates c H) as [E1 E2].
  cbn [isWellFormed]. rewrite E1, E2. reflexivity.
Qed.

Lemma isWellFormed_plain_app (a b : jsstring) :
  no_surrogate a = true -> isWellFormed (a ++ b) = isWellFormed b.
Proof.
  induction a as [| c a IH]; [reflexivity|].
  cbn [no_surrogate forallb]. intros H.
  apply andb_true_iff in H. destruct H as [H1 H2]. apply N.ltb_lt in H1.
  cbn [app]. rewrite (isWellFormed_cons c _ H1). apply IH. exact H2.
Qed.

Lemma no_surrogate_wf (a : jsstring) :
  no_surrogate a = true -> isWellFormed a = true.
Proof.
  intros H. rewrite <- (app_nil_r a).
  rewrite (isWellFormed_plain_app a [] H). reflexivity.
Qed.

Lemma isWellFormed_app_len (n : nat) :
  forall a b : jsstring,
    (List.length a <= n)%nat ->
    isWellFormed a = true -> isWellFormed (a ++ b) = isWellFormed b.
Proof.
  induction n as [| n IH]; intros a b L W.
  - destruct a; [reflexivity | cbn in L; lia].
  - destruct a as [| c a]; [reflexivity|].
    cbn [app isWellFormed] in *.
    destruct (is_high_surrogate c).
    + destruct a as [| d a]; [discriminate|].
      apply andb_true_iff in W. destruct W as [W1 W2].
      cbn [app]. rewrite W1. cbn [andb].
      apply IH; [cbn in L; lia | exact W2].
    + apply andb_true_iff in W. destruct W as [W1 W2].
      rewrite W1. cbn [andb]. apply IH; [cbn in L; lia | exact W2].
Qed.

Lemma isWellFormed_app (a b : jsstring) :
  isWellFormed a = true -> isWellFormed b = true ->
  isWellFormed (a ++ b) = true.
Proof.
  intros A B. rewrite (isWellFormed_app_len (List.length a) a b (le_n _) A).
  exact B.
Qed.

Lemma utf8_text_wf_len (n : nat) :
  forall s : jsstring,
    (List.length s <= n)%nat -> isWellFormed s = true -> utf8_text s = s.
Proof.
  induction n as [| n IH]; intros s L W.
  - destruct s; [reflexivity | cbn in L; lia].
  - destruct s as [| c s]; [reflexivity|].
    cbn [isWellFormed utf8_text] in *.
    destruct (is_high_surrogate c).
    + destruct s as [| d s]; [discriminate|].
      apply andb_true_iff in W. destruct W as [W1 W2].
      rewrite W1. do 2 f_equal. apply IH; [cbn in L; lia | exact W2].
    + apply andb_true_iff in W. destruct W as [W1 W2].
      apply negb_true_iff in W1. rewrite W1.
      f_equal. apply IH; [cbn in L; lia | exact W2].
Qed.

(** A well-formed string is read back from UTF-8 as it was. *)
Lemma utf8_text_wf (s : jsstring) : isWellFormed s = true -> utf8_text s = s.
Proof. apply (utf8_text_wf_len (List.length s)). apply le_n. Qed.

Lemma isWellFormed_join (sep : jsstring) (parts : list jsstring) :
  isWellFormed sep = true ->
  Forall (fun p => isWellFormed p = true) parts ->
  isWellFormed (join sep parts) = true.
Proof.
  intros S. induction 1 as [| p l Hp Hl IH]; [reflexivity|].
  destruct l as [| q l]; [exact Hp|].
  change (join sep (p :: q :: l)) with (p ++ sep ++ join sep (q :: l)).
  apply isWellFormed_app; [exact Hp|].
  apply isWellFormed_app; [exact S | exact IH].
Qed.

Lemma isWellFormed_wrap (gap stepback : jsstring) (opening closing : N)
  (partial : list jsstring) :
  opening < 55296 -> closing < 55296 ->
  isWellFormed gap = true -> isWellFormed stepback = true ->
  Forall (fun p => isWellFormed p = true) partial ->
  isWellFormed (wrap gap stepback opening closing partial) = true.
Proof.
  intros O C G S P. unfold wrap.
  assert (Cl : isWellFormed [closing] = true)
    by (rewrite (isWellFormed_cons closing [] C); reflexivity).
  destruct partial as [| p l].
  - rewrite (isWellFormed_cons opening _ O). exact Cl.
  - destruct (is_empty gap).
    + cbn [app]. rewrite (isWellFormed_cons opening _ O).
      apply isWellFormed_app; [| exact Cl].
      apply isWellFormed_join; [reflexivity | exact P].
    + cbn [app]. rewrite (isWellFormed_cons opening _ O).
      rewrite (isWellFormed_cons u_lf _ ltac:(reflexivity)).
      assert (I : isWellFormed (stepback ++ gap) = true)
        by (apply isWellFormed_app; assumption).
      apply isWellFormed_app; [exact I|].
      apply isWellFormed_app.
      * apply isWellFormed_join; [| exact P].
        rewrite (isWellFormed_cons u_comma _ ltac:(reflexivity)).
        rewrite (isWellFormed_cons u_lf _ ltac:(reflexivity)). exact I.
      * rewrite (isWellFormed_cons u_lf _ ltac:(reflexivity)).
        apply isWellFormed_app; [exact S | exact Cl].
Qed.

(** ** Numbers *)

Lemma no_surrogate_app (a b : jsstring) :
  no_surrogate a = true -> no_surrogate b = true ->
  no_surrogate (a ++ b) = true.
Proof.
  unfold no_surrogate. intros A B. rewrite forallb_app, A, B. reflexivity.
Qed.

Lemma no_surrogate_firstn (n : nat) (a : jsstring) :
  no_surrogate a = true -> no_surrogate (firstn n a) = true.
Proof.
  revert a. induction n as [| n IH]; intros a H; [reflexivity|].
  destruct a as [| c a]; [reflexivity|].
  cbn [firstn no_surrogate forallb] in *.
  apply andb_true_iff in H. destruct H as [H1 H2].
  rewrite H1. cbn [andb]. apply IH. exact H2.
Qed.

Lemma no_surrogate_skipn (n : nat) (a : jsstring) :
  no_surrogate a = true -> no_surrogate (skipn n a) = true.
Proof.
  revert a. induction n as [| n IH]; intros a H; [exact H|].
  destruct a as [| c a]; [reflexivity|].
  cbn [skipn no_surrogate forallb] in *.
  apply andb_true_iff in H. destruct H as [H1 H2]. apply IH. exact H2.
Qed.

Lemma no_surrogate_repeat (c : N) (n : nat) :
  c < 55296 -> no_surrogate (repeat c n) = true.
Proof.
  intros H. induction n as [| n IH]; [reflexivity|].
  cbn [repeat no_surrogate forallb]. apply andb_true_iff. split.
  - apply N.ltb_lt. exact H.
  - exact IH.
Qed.

Lemma no_surrogate_cons (c : N) (a : jsstring) :
  c < 55296 -> no_surrogate a = true -> no_surrogate (c :: a) = true.
Proof.
  intros H A. cbn [no_surrogate forallb]. apply andb_true_iff. split.
  - apply N.ltb_lt. exact H.
  - exact A.
Qed.

Lemma digit_unit_plain (n : Z) : digit_unit (n mod 10) < 55296.
Proof.
  unfold digit_unit. pose proof (Z.mod_pos_bound n 10 ltac:(lia)). lia.
Qed.

Lemma no_surrogate_digits_fuel (fuel : nat) :
  forall (n : Z) (acc : jsstring),
    no_surrogate acc = true -> no_surrogate (digits_fuel fuel n acc) = true.
Proof.
  induction fuel as [| f IH]; intros n acc A; [exact A|].
  cbn [digits_fuel].
  assert (A' : no_surrogate (digit_unit (n mod 10) :: acc) = true)
    by (apply no_surrogate_cons; [apply digit_unit_plain | exact A]).
  destruct (Z.ltb n 10); [exact A'|]. apply IH. exact A'.
Qed.

Lemma no_surrogate_digits (n : Z) : no_surrogate (digits n) = true.
Proof. unfold digits. apply no_surrogate_digits_fuel. reflexivity. Qed.

Lemma no_surrogate_format_digits (nks : Z * Z * Z) :
  no_surrogate (format_digits nks) = true.
Proof.
  destruct nks as [[n k] s]. unfold format_digits.
  pose proof (no_surrogate_digits s) as D.
  pose proof (no_surrogate_digits (Z.abs (n - 1))) as X.
  assert (E : no_surrogate
                (u_e :: (if Z.ltb (n - 1) 0 then u_minus else u_plus)
                   :: digits (Z.abs (n - 1))) = true).
  { apply no_surrogate_cons; [reflexivity|].
    apply no_surrogate_cons; [destruct (Z.ltb (n - 1) 0); reflexivity | exact X]. }
  destruct (_ && _)%bool.
  - apply no_surrogate_app; [exact D|]. apply no_surrogate_repeat. reflexivity.
  - destruct (_ && _)%bool.
    + apply no_surrogate_app; [apply no_surrogate_firstn; exact D|].
      apply no_surrogate_cons; [reflexivity|]. apply no_surrogate_skipn. exact D.
    + destruct (_ && _)%bool.
      * apply no_surrogate_cons; [reflexivity|].
        apply no_surrogate_cons; [reflexivity|].
        apply no_surrogate_app; [| exact D].
        apply no_surrogate_repeat. reflexivity.
      * cbv zeta. destruct (Z.eqb k 1).
        -- apply no_surrogate_app; [exact D | exact E].
        -- apply no_surrogate_app; [apply no_surrogate_firstn; exact D|].
           apply no_surrogate_cons; [reflexivity|].
           apply no_surrogate_app; [apply no_surrogate_skipn; exact D | exact E].
Qed.

Lemma no_surrogate_NumberToString (x : Number) :
  no_surrogate (NumberToString x) = true.
Proof.
  destruct x as [| neg | neg m e]; [reflexivity | destruct neg; reflexivity |].
  unfold NumberToString. destruct (Z.eqb m 0); [reflexivity|].
  apply no_surrogate_app; [destruct neg; reflexivity|].
  apply no_surrogate_format_digits.
Qed.

(** ** Strings *)

Lemma hex_unit_plain (d : N) : d < 16 -> hex_unit d < 55296.
Proof. intros H. unfold hex_unit. destruct (d <? 10); lia. Qed.

Lemma no_surrogate_UnicodeEscape (c : N) :
  c < 65536 -> no_surrogate (UnicodeEscape c) = true.
Proof.
  intros H. unfold UnicodeEscape.
  repeat (apply no_surrogate_cons; [| ]); try reflexivity.
  - apply hex_unit_plain. apply N.Div0.div_lt_upper_bound. lia.
  - apply hex_unit_plain. apply N.mod_lt. lia.
  - apply hex_unit_plain. apply N.mod_lt. lia.
  - apply hex_unit_plain. apply N.mod_lt. lia.
Qed.

Lemma short_escape_plain (c x : N) : short_escape c = Some x -> x < 55296.
Proof.
  unfold short_escape. intros H.
  repeat match type of H with
         | (if ?b then _ else _) = _ => destruct b
         end; inversion H; subst; reflexivity.
Qed.

Lemma surrogate_below (c : N) :
  is_high_surrogate c || is_low_surrogate c = true -> c < 65536.
Proof.
  unfold is_high_surrogate, is_low_surrogate. intros H.
  apply orb_true_iff in H. destruct H as [H | H];
    apply andb_true_iff in H; destruct H as [_ H]; apply N.leb_le in H; lia.
Qed.

Lemma isWellFormed_quote_units_len (n : nat) :
  forall s : jsstring,
    (List.length s <= n)%nat -> isWellFormed (quote_units s) = true.
Proof.
  induction n as [| n IH]; intros s L.
  - destruct s; [reflexivity | cbn in L; lia].
  - destruct s as [| c t]; [reflexivity|].
    cbn [quote_units].
    assert (Lt : (List.length t <= n)%nat) by (cbn in L; lia).
    destruct (short_escape c) as [x |] eqn:SE.
    + rewrite (isWellFormed_cons u_backslash _ ltac:(reflexivity)).
      rewrite (isWellFormed_cons x _ (short_escape_plain c x SE)).
      apply IH. exact Lt.
    + destruct (N.ltb_spec c 32) as [Lo | Hi].
      * rewrite (isWellFormed_plain_app _ _
                   (no_surrogate_UnicodeEscape c ltac:(lia))).
        apply IH. exact Lt.
      * destruct (is_high_surrogate c) eqn:H1.
        -- assert (B : c < 65536)
             by (apply surrogate_below; rewrite H1; reflexivity).
           destruct t as [| d t'].
           ++ apply no_surrogate_wf. apply no_surrogate_UnicodeEscape. exact B.
           ++ destruct (is_low_surrogate d) eqn:H2.
              ** cbn [isWellFormed]. rewrite H1, H2. cbn [andb].
                 apply IH. cbn in Lt. lia.
              ** rewrite (isWellFormed_plain_app _ _
                            (no_surrogate_UnicodeEscape c B)).
                 apply IH. exact Lt.
        -- destruct (is_low_surrogate c) eqn:H2.
           ++ assert (B : c < 65536)
                by (apply surrogate_below; rewrite H2; apply orb_true_r).
              rewrite (isWellFormed_plain_app _ _
                         (no_surrogate_UnicodeEscape c B)).
              apply IH. exact Lt.
           ++ cbn [isWellFormed]. rewrite H1, H2. cbn [negb andb].
              apply IH. exact Lt.
Qed.

Lemma isWellFormed_QuoteJSONString (s : jsstring) :
  isWellFormed (QuoteJSONString s) = true.
Proof.
  unfold QuoteJSONString.
  rewrite (isWellFormed_cons u_quote _ ltac:(reflexivity)).
  apply isWellFormed_app; [| reflexivity].
  apply (isWellFormed_quote_units_len (List.length s)). apply le_n.
Qed.

(** ** Values *)

Lemma isWellFormed_Serialize (v : JSValue) :
  forall gap indent : jsstring,
    isWellFormed gap = true -> isWellFormed indent = true ->
    isWellFormed (json_text gap indent v) = true.
Proof.
  induction v as [| b | x | s | items IH | props IH] using JSValue_ind;
    intros gap indent G I0.
  - reflexivity.
  - destruct b; reflexivity.
  - cbn [json_text]. destruct (isFinite x); [| reflexivity].
    apply no_surrogate_wf. apply no_surrogate_NumberToString.
  - apply isWellFormed_QuoteJSONString.
  - cbn [json_text].
    apply isWellFormed_wrap; try reflexivity; try assumption.
    apply Forall_map. eapply Forall_impl; [| exact IH].
    intros v Hv. apply Hv; [exact G | apply isWellFormed_app; assumption].
  - cbn [json_text].
    apply isWellFormed_wrap; try reflexivity; try assumption.
    apply Forall_map. eapply Forall_impl; [| exact IH].
    intros [k v] Hv. cbn [fst snd] in *.
    apply isWellFormed_app; [apply isWellFormed_QuoteJSONString|].
    change (isWellFormed
              (u_colon :: (if is_empty gap then [] else [u_space])
                 ++ json_text gap (indent ++ gap) v) = true).
    rewrite (isWellFormed_cons u_colon _ ltac:(reflexivity)).
    apply isWellFormed_app; [destruct (is_empty gap); reflexivity|].
    apply Hv; [exact G | apply isWellFormed_app; assumption].
Qed.

(** The text [JSON.stringify] gives is well formed: it is read back from
    UTF-8 as it was written. *)
Theorem utf8_text_stringify (v : JSValue) (space : nat) :
  utf8_text (stringify_text v space) = stringify_text v space.
Proof.
  apply utf8_text_wf. unfold stringify_text.
  apply isWellFormed_Serialize; [| reflexivity].
  apply no_surrogate_wf. apply no_surrogate_repeat. reflexivity.
Qed.

Local Open Scope Z_scope.

(* ===================================================================== *)
(** * Objects: property order and re-insertion *)
(* ===================================================================== *)

Lemma jsstring_eqb_eq (a b : jsstring) : jsstring_eqb a b = true <-> a = b.
Proof.
  revert b. induction a as [| x a IH]; intros [| y b]; simpl; split;
    try discriminate; try reflexivity.
  - rewrite andb_true_iff, N.eqb_eq, IH. intros [-> ->]. reflexivity.
  - intros H. inversion H; subst. rewrite N.eqb_refl. apply IH. reflexivity.
Qed.

Lemma jsstring_eqb_refl (a : jsstring) : jsstring_eqb a a = true.
Proof. apply jsstring_eqb_eq. reflexivity. Qed.

Lemma jsstring_eqb_sym (a b : jsstring) : jsstring_eqb a b = jsstring_eqb b a.
Proof.
  destruct (jsstring_eqb a b) eqn:E.
  - apply jsstring_eqb_eq in E. subst. symmetry. apply jsstring_eqb_refl.
  - destruct (jsstring_eqb b a) eqn:E'; [| reflexivity].
    apply jsstring_eqb_eq in E'. subst. rewrite jsstring_eqb_refl in E. discriminate.
Qed.

Lemma obj_has_app (a b : Props) (k : jsstring) :
  obj_has (a ++ b) k = obj_has a k || obj_has b k.
Proof.
  induction a as [| [k' v'] a IH]; simpl; [reflexivity|].
  rewrite IH, orb_assoc. reflexivity.
Qed.

Lemma keys_distinct_tail (a b : Props) (k : jsstring) (v : JSValue) :
  keys_distinct (a ++ (k, v) :: b) = true ->
  obj_has a k = false /\ keys_distinct a = true.
Proof.
  induction a as [| [k' v'] a IH]; [auto|].
  cbn [app keys_distinct obj_has].
  rewrite !andb_true_iff, !negb_true_iff, obj_has_app.
  cbn [obj_has]. rewrite !orb_false_iff.
  intros [[H1 [H2 H3]] H4]. destruct (IH H4) as [I1 I2].
  rewrite jsstring_eqb_sym, H2, I1, H1, I2. auto.
Qed.

(** The keys in front of an array-index key are lesser array indices. *)
Lemma keys_ordered_before (lo i : Z) (a b : Props) (k : jsstring) (v : JSValue) :
  keys_ordered lo (a ++ (k, v) :: b) = true -> array_index k = Some i ->
  lo <= i
  /\ Forall (fun kv => exists j, array_index (fst kv) = Some j /\ j <= i) a.
Proof.
  revert lo. induction a as [| [k' v'] a IH]; intros lo H K.
  - cbn [app keys_ordered] in H. rewrite K in H.
    apply andb_true_iff in H. destruct H as [H _]. apply Z.leb_le in H.
    split; [assumption | constructor].
  - cbn [app keys_ordered] in H.
    destruct (array_index k') as [j |] eqn:Kj.
    + apply andb_true_iff in H. destruct H as [H1 H2]. apply Z.leb_le in H1.
      destruct (IH j H2 K) as [L F].
      split; [lia|]. constructor; [| exact F].
      exists j. split; [exact Kj | exact L].
    + exfalso. unfold no_index_keys in H. rewrite forallb_app in H.
      apply andb_true_iff in H. destruct H as [_ H].
      cbn [forallb fst] in H. rewrite K in H. discriminate.
Qed.

Lemma obj_insert_index_last (i : Z) (k : jsstring) (v : JSValue) (a : Props) :
  Forall (fun kv => exists j, array_index (fst kv) = Some j /\ j <= i) a ->
  obj_insert_index i k v a = a ++ [(k, v)].
Proof.
  induction 1 as [| [k' v'] a [j [Kj L]] F IH]; [reflexivity|].
  cbn [fst] in Kj. cbn [obj_insert_index app]. rewrite Kj.
  destruct (Z.leb_spec j i); [| lia]. rewrite IH. reflexivity.
Qed.

Lemma obj_set_last (a b : Props) (k : jsstring) (v : JSValue) :
  props_ok (a ++ (k, v) :: b) = true -> obj_set a k v = a ++ [(k, v)].
Proof.
  unfold props_ok. rewrite andb_true_iff. intros [O D].
  destruct (keys_distinct_tail a b k v D) as [NH _].
  unfold obj_set. rewrite NH.
  destruct (array_index k) as [i |] eqn:K; [| reflexivity].
  apply obj_insert_index_last.
  apply (keys_ordered_before 0 i a b k v O K).
Qed.

(** An object in property order is what its own members build. *)
Lemma fold_obj_set (l acc : Props) :
  props_ok (acc ++ l) = true ->
  fold_left (fun o kv => obj_set o (fst kv) (snd kv)) l acc = acc ++ l.
Proof.
  revert acc. induction l as [| [k v] l IH]; intros acc H.
  - rewrite app_nil_r. reflexivity.
  - cbn [fold_left fst snd]. rewrite (obj_set_last acc l k v H).
    rewrite IH; rewrite <- app_assoc; [reflexivity | exact H].
Qed.

Lemma obj_of_members_ok (p : Props) :
  props_ok p = true -> obj_of_members p = p.
Proof.
  intros H. unfold obj_of_members. apply (fold_obj_set p []). exact H.
Qed.

(** ** Changing the values leaves the order as it is *)

Section MapValues.

Variable g : JSValue -> JSValue.

Lemma obj_has_map (p : Props) (k : jsstring) :
  obj_has (map_values g p) k = obj_has p k.
Proof.
  induction p as [| [k' v'] p IH]; [reflexivity|].
  cbn [map_values map fst obj_has]. fold (map_values g p). rewrite IH. reflexivity.
Qed.

Lemma no_index_keys_map (p : Props) :
  no_index_keys (map_values g p) = no_index_keys p.
Proof.
  unfold no_index_keys, map_values.
  induction p as [| [k' v'] p IH]; [reflexivity|].
  cbn [map forallb fst]. rewrite IH. reflexivity.
Qed.

Lemma keys_ordered_map (lo : Z) (p : Props) :
  keys_ordered lo (map_values g p) = keys_ordered lo p.
Proof.
  revert lo. induction p as [| [k' v'] p IH]; intros lo; [reflexivity|].
  cbn [map_values map fst keys_ordered]. fold (map_values g p).
  rewrite no_index_keys_map.
  destruct (array_index k'); [rewrite IH|]; reflexivity.
Qed.

Lemma keys_distinct_map (p : Props) :
  keys_distinct (map_values g p) = keys_distinct p.
Proof.
  induction p as [| [k' v'] p IH]; [reflexivity|].
  cbn [map_values map fst keys_distinct]. fold (map_values g p).
  rewrite obj_has_map, IH. reflexivity.
Qed.

Lemma props_ok_map (p : Props) : props_ok (map_values g p) = props_ok p.
Proof.
  unfold props_ok. rewrite keys_ordered_map, keys_distinct_map. reflexivity.
Qed.

End MapValues.

(** ** CreateDataProperty keeps the property order *)

Lemma obj_has_replace (p : Props) (k x : jsstring) (v : JSValue) :
  obj_has (obj_replace p k v) x = obj_has p x.
Proof.
  induction p as [| [k' v'] p IH]; [reflexivity|].
  cbn [obj_replace]. destruct (jsstring_eqb k' k); cbn [obj_has]; [reflexivity|].
  rewrite IH. reflexivity.
Qed.

Lemma no_index_keys_replace (p : Props) (k : jsstring) (v : JSValue) :
  no_index_keys (obj_replace p k v) = no_index_keys p.
Proof.
  induction p as [| [k' v'] p IH]; [reflexivity|].
  cbn [obj_replace]. destruct (jsstring_eqb k' k); [reflexivity|].
  unfold no_index_keys in *. cbn [forallb]. rewrite IH. reflexivity.
Qed.

Lemma keys_ordered_replace (lo : Z) (p : Props) (k : jsstring) (v : JSValue) :
  keys_ordered lo (obj_replace p k v) = keys_ordered lo p.
Proof.
  revert lo. induction p as [| [k' v'] p IH]; intros lo; [reflexivity|].
  cbn [obj_replace]. destruct (jsstring_eqb k' k); [reflexivity|].
  cbn [keys_ordered]. rewrite no_index_keys_replace.
  destruct (array_index k'); [rewrite IH|]; reflexivity.
Qed.

Lemma keys_distinct_replace (p : Props) (k : jsstring) (v : JSValue) :
  keys_distinct (obj_replace p k v) = keys_distinct p.
Proof.
  induction p as [| [k' v'] p IH]; [reflexivity|].
  cbn [obj_replace]. destruct (jsstring_eqb k' k); [reflexivity|].
  cbn [keys_distinct]. rewrite obj_has_replace, IH. reflexivity.
Qed.

Lemma obj_has_insert (i : Z) (k x : jsstring) (v : JSValue) (p : Props) :
  obj_has (obj_insert_index i k v p) x = jsstring_eqb k x || obj_has p x.
Proof.
  induction p as [| [k' v'] p IH]; [reflexivity|].
  cbn [obj_insert_index].
  destruct (array_index k') as [j |]; [| reflexivity].
  destruct (j <=? i); [| reflexivity].
  cbn [obj_has]. rewrite IH.
  destruct (jsstring_eqb k' x), (jsstring_eqb k x); reflexivity.
Qed.

Lemma keys_ordered_insert (lo i : Z) (k : jsstring) (v : JSValue) (p : Props) :
  array_index k = Some i -> lo <= i ->
  keys_ordered lo p = true ->
  keys_ordered lo (obj_insert_index i k v p) = true.
Proof.
  intros K. revert lo. induction p as [| [k' v'] p IH]; intros lo L H.
  - cbn [obj_insert_index keys_ordered]. rewrite K.
    apply andb_true_iff. split; [apply Z.leb_le; exact L | reflexivity].
  - cbn [obj_insert_index]. cbn [keys_ordered] in H.
    destruct (array_index k') as [j |] eqn:Kj.
    + apply andb_true_iff in H. destruct H as [H1 H2].
      destruct (Z.leb_spec j i).
      * cbn [keys_ordered]. rewrite Kj, H1. cbn [andb]. apply IH; assumption.
      * cbn [keys_ordered]. rewrite K, Kj, H2.
        replace (lo <=? i) with true by (symmetry; apply Z.leb_le; lia).
        replace (i <=? j) with true by (symmetry; apply Z.leb_le; lia).
        reflexivity.
    + cbn [keys_ordered]. rewrite K, Kj, H.
      replace (lo <=? i) with true by (symmetry; apply Z.leb_le; lia).
      reflexivity.
Qed.

Lemma keys_distinct_insert (i : Z) (k : jsstring) (v : JSValue) (p : Props) :
  obj_has p k = false -> keys_distinct p = true ->
  keys_distinct (obj_insert_index i k v p) = true.
Proof.
  induction p as [| [k' v'] p IH]; intros NH D; [reflexivity|].
  cbn [obj_has] in NH. apply orb_false_iff in NH. destruct NH as [N1 N2].
  assert (Hnew : keys_distinct ((k, v) :: (k', v') :: p) = true).
  { cbn [keys_distinct obj_has]. cbn [keys_distinct] in D.
    rewrite N1, N2, D. reflexivity. }
  cbn [obj_insert_index].
  destruct (array_index k') as [j |]; [| exact Hnew].
  destruct (j <=? i); [| exact Hnew].
  cbn [keys_distinct] in *. apply andb_true_iff in D. destruct D as [D1 D2].
  rewrite obj_has_insert. rewrite jsstring_eqb_sym, N1. cbn [orb].
  rewrite D1. cbn [andb]. apply IH; assumption.
Qed.

Lemma array_index_nonneg (k : jsstring) (i : Z) :
  array_index k = Some i -> 0 <= i.
Proof.
  unfold array_index. destruct k as [| c r]; [discriminate|].
  assert (G : forall s acc cnt,
             0 <= acc -> 0 <= fst (fst (read_digits s acc cnt))).
  { induction s as [| x s IH]; intros acc cnt A; [exact A|].
    cbn [read_digits]. destruct (is_digit x) eqn:D; [| exact A].
    apply IH. unfold is_digit in D. apply andb_true_iff in D.
    destruct D as [D1 D2]. apply N.leb_le in D1. unfold digit_val. lia. }
  specialize (G (c :: r) 0 0 ltac:(lia)).
  destruct (read_digits (c :: r) 0 0) as [[v cnt] rest].
  destruct rest; [| discriminate].
  destruct (_ && _); [| discriminate].
  intros H. inversion H; subst. exact G.
Qed.

Lemma keys_distinct_snoc (p : Props) (k : jsstring) (v : JSValue) :
  obj_has p k = false -> keys_distinct p = true ->
  keys_distinct (p ++ [(k, v)]) = true.
Proof.
  induction p as [| [k' v'] p IH]; intros NH D; [reflexivity|].
  cbn [obj_has] in NH. apply orb_false_iff in NH. destruct NH as [N1 N2].
  cbn [keys_distinct] in D. apply andb_true_iff in D. destruct D as [D1 D2].
  cbn [app keys_distinct]. rewrite obj_has_app. cbn [obj_has].
  apply negb_true_iff in D1. rewrite D1, jsstring_eqb_sym, N1. cbn [orb negb andb].
  apply IH; assumption.
Qed.

Lemma keys_ordered_snoc (lo : Z) (p : Props) (k : jsstring) (v : JSValue) :
  array_index k = None -> keys_ordered lo p = true ->
  keys_ordered lo (p ++ [(k, v)]) = true.
Proof.
  intros K. revert lo. induction p as [| [k' v'] p IH]; intros lo H.
  - cbn [app keys_ordered]. rewrite K. reflexivity.
  - cbn [app keys_ordered] in *.
    destruct (array_index k').
    + apply andb_true_iff in H. destruct H as [H1 H2].
      rewrite H1. cbn [andb]. apply IH; exact H2.
    + unfold no_index_keys in *. rewrite forallb_app, H.
      cbn [forallb fst]. rewrite K. reflexivity.
Qed.

Lemma obj_set_ok (p : Props) (k : jsstring) (v : JSValue) :
  props_ok p = true -> props_ok (obj_set p k v) = true.
Proof.
  unfold props_ok. rewrite !andb_true_iff. intros [O D].
  unfold obj_set. destruct (obj_has p k) eqn:H.
  - rewrite keys_ordered_replace, keys_distinct_replace. auto.
  - destruct (array_index k) as [i |] eqn:K.
    + split.
      * apply keys_ordered_insert; [exact K | | exact O].
        apply (array_index_nonneg k i K).
      * apply keys_distinct_insert; assumption.
    + split.
      * apply keys_ordered_snoc; assumption.
      * apply keys_distinct_snoc; assumption.
Qed.

Lemma obj_of_members_props_ok (ms : Props) : props_ok (obj_of_members ms) = true.
Proof.
  unfold obj_of_members.
  assert (G : forall acc, props_ok acc = true ->
                          props_ok (fold_left (fun o kv => obj_set o (fst kv) (snd kv)) ms acc) = true).
  { induction ms as [| [k v] ms IH]; intros acc A; [exact A|].
    cbn [fold_left]. apply IH. apply obj_set_ok. exact A. }
  apply G. reflexivity.
Qed.

(* ===================================================================== *)
(** * The shape of the text [JSON.stringify] writes *)
(* ===================================================================== *)

Lemma skip_ws_app (w r : text) :
  forallb is_ws w = true -> skip_ws (w ++ r) = skip_ws r.
Proof.
  induction w as [| c w IH]; [reflexivity|].
  cbn [forallb app skip_ws]. intros H. apply andb_true_iff in H.
  destruct H as [H1 H2]. rewrite H1. apply IH. exact H2.
Qed.

Lemma is_value_start_not_ws (c : N) : is_value_start c = true -> is_ws c = false.
Proof.
  unfold is_value_start, is_number_start, is_digit, is_ws, u_minus, u_lbracket,
    u_lbrace, u_quote.
  rewrite !orb_true_iff, !andb_true_iff, !N.leb_le, !N.eqb_eq.
  intros H. rewrite !orb_false_iff, !N.eqb_neq. lia.
Qed.

Lemma skip_ws_value (s : text) : starts_value s = true -> skip_ws s = s.
Proof.
  destruct s as [| c r]; [discriminate|]. cbn [starts_value skip_ws].
  intros H. rewrite (is_value_start_not_ws c H). reflexivity.
Qed.

Lemma starts_value_app (s r : text) :
  starts_value s = true -> starts_value (s ++ r) = true.
Proof.
  destruct s; [discriminate | intros H; exact H].
Qed.

Lemma wrap_shape (gap stepback : jsstring) (o c : N) (p : jsstring)
  (ps : list jsstring) :
  wrap gap stepback o c (p :: ps)
  = [o] ++ wrap_lead gap stepback
      ++ join (u_comma :: wrap_lead gap stepback) (p :: ps)
      ++ wrap_trail gap stepback ++ [c].
Proof.
  unfold wrap, wrap_lead, wrap_trail. destruct (is_empty gap).
  - reflexivity.
  - cbn [app]. rewrite <- !app_assoc. reflexivity.
Qed.

Lemma wrap_lead_ws (gap stepback : jsstring) :
  forallb is_ws gap = true -> forallb is_ws stepback = true ->
  forallb is_ws (wrap_lead gap stepback) = true.
Proof.
  intros G S0. unfold wrap_lead. destruct (is_empty gap); [reflexivity|].
  cbn [forallb]. rewrite forallb_app, G, S0. reflexivity.
Qed.

Lemma wrap_trail_ws (gap stepback : jsstring) :
  forallb is_ws stepback = true ->
  forallb is_ws (wrap_trail gap stepback) = true.
Proof.
  intros S0. unfold wrap_trail. destruct (is_empty gap); [reflexivity|].
  cbn [forallb]. rewrite S0. reflexivity.
Qed.

Lemma ws_number_end (w : text) (c : N) (r : text) :
  forallb is_ws w = true ->
  (c = u_comma \/ c = u_rbracket \/ c = u_rbrace) ->
  number_end (w ++ c :: r) = true.
Proof.
  intros W C. destruct w as [| x w].
  - cbn [app]. destruct C as [-> | [-> | ->]]; reflexivity.
  - cbn [forallb] in W. apply andb_true_iff in W. destruct W as [W _].
    cbn [app number_end]. unfold is_ws in W.
    rewrite !orb_true_iff, !N.eqb_eq in W.
    destruct W as [[[-> | ->] | ->] | ->]; reflexivity.
Qed.

(** ** The first unit of a value *)

Lemma format_digits_head (n k s : Z) :
  0 < s -> ndigits s = k ->
  exists c r, format_digits (n, k, s) = c :: r /\ is_digit c = true.
Proof.
  intros Hs Hk.
  destruct (digits_spec s ltac:(lia)) as [c [l [E [D _]]]].
  assert (Dc : is_digit c = true).
  { cbn [forallb] in D. apply andb_true_iff in D. tauto. }
  destruct (format_digits_cases n k s)
    as [[C F] | [[C [C' F]] | [[C F] | [[C [C' F]] | [C [C' F]]]]]];
    rewrite F, E; clear F.
  - exists c. eexists. split; [reflexivity | exact Dc].
  - destruct (Z.to_nat n) as [| j] eqn:En; [lia|].
    exists c. eexists. split; [reflexivity | exact Dc].
  - exists u_0. eexists. split; reflexivity.
  - exists c. eexists. split; [reflexivity | exact Dc].
  - exists c. eexists. split; [reflexivity | exact Dc].
Qed.

Lemma NumberToString_head (x : Number) :
  wf_Number x = true -> isFinite x = true ->
  exists c r, NumberToString x = c :: r /\ is_number_start c = true.
Proof.
  intros W F. destruct x as [| neg | neg m e]; try discriminate.
  cbn [wf_Number] in W. unfold NumberToString.
  destruct (Z.eqb_spec m 0) as [Z0 | NZ].
  - exists u_0. eexists. split; reflexivity.
  - assert (Hm : 0 < m) by (apply canonicalb_true in W; lia).
    pose proof (shortest_digits_ok m e W Hm) as Ok.
    destruct (shortest_digits m e) as [[n k] s]. destruct Ok as [Hs [Hk _]].
    destruct (format_digits_head n k s Hs Hk) as [c [r [E D]]].
    rewrite E. destruct neg.
    + exists u_minus. eexists. split; reflexivity.
    + exists c, r. split; [reflexivity|]. unfold is_number_start. rewrite D. reflexivity.
Qed.

Lemma Serialize_head (gap indent : jsstring) (v : JSValue) :
  wf_value v = true ->
  starts_value (json_text gap indent v) = true.
Proof.
  intros W. destruct v as [| [|] | x | s | items | props]; try reflexivity.
  - cbn [json_text]. destruct (isFinite x) eqn:F; [| reflexivity].
    destruct (NumberToString_head x W F) as [c [r [E S0]]]. rewrite E.
    cbn [starts_value]. unfold is_value_start. rewrite S0. reflexivity.
  - cbn [json_text]. unfold wrap.
    destruct (map _ items); [reflexivity|].
    destruct (is_empty gap); reflexivity.
  - cbn [json_text]. unfold wrap.
    destruct (map _ props); [reflexivity|].
    destruct (is_empty gap); reflexivity.
Qed.

Lemma join_head (sep p : jsstring) (ps : list jsstring) :
  starts_value p = true -> starts_value (join sep (p :: ps)) = true.
Proof.
  intros H. destruct ps; cbn [join]; [exact H|].
  apply starts_value_app. exact H.
Qed.

(** ** Scalars *)

Lemma parse_value_number (fuel : nat) (c : N) (r : text) :
  is_number_start c = true ->
  parse_value (S fuel) (c :: r)
  = match parse_number (c :: r) with
    | Some (x, rest) => Some (JNumber x, rest)
    | None => None
    end.
Proof.
  intros H.
  assert (T : N.eqb c u_lbracket = false /\ N.eqb c u_lbrace = false
              /\ N.eqb c u_quote = false /\ N.eqb c 116 = false
              /\ N.eqb c 102 = false /\ N.eqb c 110 = false).
  { unfold is_number_start, is_digit, u_minus in H.
    rewrite orb_true_iff, andb_true_iff, !N.leb_le, N.eqb_eq in H.
    unfold u_lbracket, u_lbrace, u_quote. rewrite !N.eqb_neq. lia. }
  destruct T as [T1 [T2 [T3 [T4 [T5 T6]]]]].
  cbn [parse_value]. rewrite T1, T2, T3, T4, T5, T6. reflexivity.
Qed.

Lemma parse_value_string (fuel : nat) (s : jsstring) (rest : text) :
  parse_value (S fuel) (QuoteJSONString s ++ rest) = Some (JString s, rest).
Proof.
  rewrite QuoteJSONString_app. cbn [parse_value].
  change (N.eqb u_quote u_lbracket) with false.
  change (N.eqb u_quote u_lbrace) with false.
  change (N.eqb u_quote u_quote) with true. cbv iota.
  rewrite parse_quote_units. reflexivity.
Qed.

Lemma parse_value_literal (fuel : nat) (rest : text) :
  parse_value (S fuel) (s_null ++ rest) = Some (JNull, rest)
  /\ parse_value (S fuel) (s_true ++ rest) = Some (JBool true, rest)
  /\ parse_value (S fuel) (s_false ++ rest) = Some (JBool false, rest).
Proof.
  unfold s_null, s_true, s_false. cbn [app].
  cbn [parse_value].
  repeat split.
Qed.

(* ===================================================================== *)
(** * [JSON.parse] after [JSON.stringify] *)
(* ===================================================================== *)

Lemma skip_ws_close (w : text) (c : N) (rest : text) :
  forallb is_ws w = true -> is_ws c = false ->
  skip_ws (w ++ c :: rest) = c :: rest.
Proof.
  intros W C. rewrite skip_ws_app by exact W. cbn [skip_ws]. rewrite C. reflexivity.
Qed.

Lemma join_cons (sep p q : jsstring) (ps : list jsstring) :
  join sep (p :: q :: ps) = p ++ sep ++ join sep (q :: ps).
Proof. reflexivity. Qed.

Lemma parse_elements_join (items : list JSValue) :
  Forall reads_back items ->
  forallb wf_value items = true ->
  items <> [] ->
  forall (gap indent W1 W2 : jsstring) (rest : text) (fuel : nat),
    forallb is_ws gap = true -> forallb is_ws indent = true ->
    forallb is_ws W1 = true -> forallb is_ws W2 = true ->
    (esize items <= fuel)%nat ->
    parse_elements fuel
      (join (u_comma :: W1) (map (json_text gap indent) items)
         ++ W2 ++ u_rbracket :: rest)
    = Some (map stored items, rest).
Proof.
  induction 1 as [| v l Hv Hl IH]; intros Wf NE; [contradiction|].
  intros gap indent W1 W2 rest fuel G I0 H1 H2 Fu.
  cbn [forallb] in Wf.
  apply andb_true_iff in Wf. destruct Wf as [Wv Wl].
  cbn [esize fold_right] in Fu. fold (esize l) in Fu.
  destruct fuel as [| f]; [lia|].
  cbn [parse_elements].
  destruct l as [| v2 l'].
  - cbn [map join].
    rewrite (Hv Wv gap indent (W2 ++ u_rbracket :: rest) f G I0
               (ws_number_end W2 u_rbracket rest H2 (or_intror (or_introl eq_refl)))
               ltac:(lia)).
    rewrite (skip_ws_close W2 u_rbracket rest H2 eq_refl).
    reflexivity.
  - cbn [map]. rewrite join_cons. rewrite <- !app_assoc. cbn [app].
    rewrite (Hv Wv gap indent (u_comma :: _) f G I0 eq_refl ltac:(lia)).
    cbn [skip_ws]. change (is_ws u_comma) with false. cbv iota.
    change (N.eqb u_comma u_comma) with true. cbv iota.
    rewrite skip_ws_app by exact H1.
    assert (SV : starts_value
                   (join (u_comma :: W1)
                      (json_text gap indent v2
                         :: map (json_text gap indent) l')
                    ++ W2 ++ u_rbracket :: rest) = true).
    { apply starts_value_app. apply join_head. apply Serialize_head.
      cbn [forallb] in Wl. apply andb_true_iff in Wl. tauto. }
    rewrite (skip_ws_value _ SV).
    change (json_text gap indent v2
              :: map (json_text gap indent) l')
      with (map (json_text gap indent) (v2 :: l')).
    rewrite (IH Wl ltac:(discriminate) gap indent W1 W2 rest f G I0 H1 H2
               ltac:(lia)).
    reflexivity.
Qed.

Lemma parse_members_join (props : Props) :
  Forall (fun kv => reads_back (snd kv)) props ->
  forallb (fun kv => wf_value (snd kv)) props = true ->
  props <> [] ->
  forall (gap indent W1 W2 : jsstring) (rest : text) (fuel : nat),
    forallb is_ws gap = true -> forallb is_ws indent = true ->
    forallb is_ws W1 = true -> forallb is_ws W2 = true ->
    (msize props <= fuel)%nat ->
    parse_members fuel
      (join (u_comma :: W1) (map (member_text gap indent) props)
         ++ W2 ++ u_rbrace :: rest)
    = Some (map_values stored props, rest).
Proof.
  induction 1 as [| [k v] l Hv Hl IH]; intros Wf NE; [contradiction|].
  intros gap indent W1 W2 rest fuel G I0 H1 H2 Fu.
  cbn [forallb snd] in Wf. cbn [snd] in Hv.
  apply andb_true_iff in Wf. destruct Wf as [Wv Wl].
  cbn [msize fold_right snd] in Fu. fold (msize l) in Fu.
  destruct fuel as [| f]; [lia|].
  assert (SP : forall r, skip_ws ((if is_empty gap then [] else [u_space]) ++ r)
                         = skip_ws r).
  { intros r. destruct (is_empty gap); reflexivity. }
  destruct l as [| kv2 l'].
  - cbn [map join]. unfold member_text. cbn [fst snd].
    rewrite <- !app_assoc. rewrite QuoteJSONString_app.
    cbn [parse_members]. change (N.eqb u_quote u_quote) with true. cbv iota.
    rewrite parse_quote_units.
    cbn [app skip_ws]. change (is_ws u_colon) with false. cbv iota.
    change (N.eqb u_colon u_colon) with true. cbv iota.
    rewrite SP.
    rewrite (skip_ws_value _ (starts_value_app _ _ (Serialize_head gap indent v Wv))).
    rewrite (Hv Wv gap indent (W2 ++ u_rbrace :: rest) f G I0
               (ws_number_end W2 u_rbrace rest H2 (or_intror (or_intror eq_refl)))
               ltac:(lia)).
    rewrite (skip_ws_close W2 u_rbrace rest H2 eq_refl).
    reflexivity.
  - cbn [map]. rewrite join_cons. unfold member_text at 1. cbn [fst snd].
    rewrite <- !app_assoc. rewrite QuoteJSONString_app.
    cbn [parse_members]. change (N.eqb u_quote u_quote) with true. cbv iota.
    rewrite parse_quote_units.
    cbn [app skip_ws]. change (is_ws u_colon) with false. cbv iota.
    change (N.eqb u_colon u_colon) with true. cbv iota.
    rewrite SP.
    rewrite (skip_ws_value _ (starts_value_app _ _ (Serialize_head gap indent v Wv))).
    rewrite (Hv Wv gap indent (u_comma :: _) f G I0 eq_refl ltac:(lia)).
    cbn [skip_ws]. change (is_ws u_comma) with false. cbv iota.
    change (N.eqb u_comma u_comma) with true. cbv iota.
    rewrite skip_ws_app by exact H1.
    assert (SV : starts_value
                   (join (u_comma :: W1)
                      (member_text gap indent kv2 :: map (member_text gap indent) l')
                    ++ W2 ++ u_rbrace :: rest) = true).
    { apply starts_value_app. apply join_head. reflexivity. }
    rewrite (skip_ws_value _ SV).
    change (member_text gap indent kv2 :: map (member_text gap indent) l')
      with (map (member_text gap indent) (kv2 :: l')).
    rewrite (IH Wl ltac:(discriminate) gap indent W1 W2 rest f G I0 H1 H2
               ltac:(lia)).
    reflexivity.
Qed.

Lemma ws_app (a b : jsstring) :
  forallb is_ws a = true -> forallb is_ws b = true ->
  forallb is_ws (a ++ b) = true.
Proof. intros A B. rewrite forallb_app, A, B. reflexivity. Qed.

(** The text of a well-formed value reads back as the value, infinities
    and the signs of zeros apart. *)
Theorem parse_Serialize (v : JSValue) : reads_back v.
Proof.
  induction v as [| b | x | s | items IH | props IH] using JSValue_ind;
    intros W gap indent rest fuel G I0 R Fu;
    (destruct fuel as [| f]; [cbn [vsize] in Fu; lia|]).
  - apply (parse_value_literal f rest).
  - destruct b; apply (parse_value_literal f rest).
  - cbn [wf_value] in W.
    cbn [json_text stored]. unfold stored_number.
    destruct (isFinite x) eqn:F; [| apply (parse_value_literal f rest)].
    destruct (NumberToString_head x W F) as [c [r [E S0]]].
    pose proof (parse_NumberToString x rest W F R) as P.
    rewrite E in *. cbn [app] in *.
    rewrite (parse_value_number f c (r ++ rest) S0). rewrite P. reflexivity.
  - apply parse_value_string.
  - cbn [wf_value] in W.
    cbn [json_text stored vsize] in *. fold (esize items) in Fu.
    destruct items as [| v l].
    + reflexivity.
    + cbn [map]. rewrite wrap_shape. rewrite <- !app_assoc. cbn [app].
      pose proof (wrap_lead_ws gap indent G I0) as L1.
      pose proof (wrap_trail_ws gap indent I0) as L2.
      cbn [parse_value].
      change (N.eqb u_lbracket u_lbracket) with true. cbv iota.
      rewrite skip_ws_app by exact L1.
      assert (SV : starts_value
                     (join (u_comma :: wrap_lead gap indent)
                        (json_text gap (indent ++ gap) v
                           :: map (json_text gap (indent ++ gap)) l)
                      ++ wrap_trail gap indent ++ u_rbracket :: rest) = true).
      { apply starts_value_app. apply join_head. apply Serialize_head.
        cbn [forallb] in W. apply andb_true_iff in W. tauto. }
      rewrite (skip_ws_value _ SV).
      destruct (join _ _ ++ _) as [| c' r'] eqn:T; [discriminate|].
      cbn [starts_value] in SV.
      assert (NB : N.eqb c' u_rbracket = false).
      { destruct (N.eqb_spec c' u_rbracket); [subst; discriminate | reflexivity]. }
      rewrite NB. rewrite <- T.
      change (json_text gap (indent ++ gap) v
                :: map (json_text gap (indent ++ gap)) l)
        with (map (json_text gap (indent ++ gap)) (v :: l)).
      rewrite (parse_elements_join (v :: l) IH W ltac:(discriminate) gap
                 (indent ++ gap) (wrap_lead gap indent) (wrap_trail gap indent)
                 rest f G (ws_app _ _ I0 G) L1 L2 ltac:(lia)).
      reflexivity.
  - cbn [wf_value] in W.
    apply andb_true_iff in W. destruct W as [Ok W].
    cbn [json_text stored vsize] in *. fold (msize props) in Fu.
    destruct props as [| kv l].
    + reflexivity.
    + change (map
                (fun kv0 : jsstring * JSValue =>
                   QuoteJSONString (fst kv0) ++ [u_colon]
                     ++ (if is_empty gap then [] else [u_space])
                     ++ json_text gap (indent ++ gap) (snd kv0))
                (kv :: l))
        with (member_text gap (indent ++ gap) kv
                :: map (member_text gap (indent ++ gap)) l).
      rewrite wrap_shape. rewrite <- !app_assoc. cbn [app].
      pose proof (wrap_lead_ws gap indent G I0) as L1.
      pose proof (wrap_trail_ws gap indent I0) as L2.
      cbn [parse_value].
      change (N.eqb u_lbrace u_lbracket) with false.
      change (N.eqb u_lbrace u_lbrace) with true. cbv iota.
      rewrite skip_ws_app by exact L1.
      assert (SV : starts_value
                     (join (u_comma :: wrap_lead gap indent)
                        (member_text gap (indent ++ gap) kv
                           :: map (member_text gap (indent ++ gap)) l)
                      ++ wrap_trail gap indent ++ u_rbrace :: rest) = true).
      { apply starts_value_app. apply join_head. reflexivity. }
      rewrite (skip_ws_value _ SV).
      destruct (join _ _ ++ _) as [| c' r'] eqn:T; [discriminate|].
      cbn [starts_value] in SV.
      assert (NB : N.eqb c' u_rbrace = false).
      { destruct (N.eqb_spec c' u_rbrace); [subst; discriminate | reflexivity]. }
      rewrite NB. rewrite <- T.
      change (member_text gap (indent ++ gap) kv
                :: map (member_text gap (indent ++ gap)) l)
        with (map (member_text gap (indent ++ gap)) (kv :: l)).
      rewrite (parse_members_join (kv :: l) IH W ltac:(discriminate) gap
                 (indent ++ gap) (wrap_lead gap indent) (wrap_trail gap indent)
                 rest f G (ws_app _ _ I0 G) L1 L2 ltac:(lia)).
      rewrite obj_of_members_ok; [reflexivity|].
      rewrite props_ok_map. exact Ok.
Qed.

(* ===================================================================== *)
(** * The length of the text bounds the fuel *)
(* ===================================================================== *)

Lemma join_length (sep : jsstring) (ps : list jsstring) (f : jsstring -> nat) :
  sep <> [] ->
  (forall p, In p ps -> (f p <= List.length p)%nat) ->
  ps <> [] ->
  (S (fold_right (fun p n => S (f p + n)%nat) O ps)
   <= 2 + List.length (join sep ps))%nat.
Proof.
  intros NS H NE. induction ps as [| p ps IH]; [contradiction|].
  destruct ps as [| q ps'].
  - cbn [fold_right join]. pose proof (H p (or_introl eq_refl)). lia.
  - rewrite join_cons. rewrite !length_app.
    assert (1 <= List.length sep)%nat by (destruct sep; [contradiction | simpl; lia]).
    pose proof (H p (or_introl eq_refl)).
    assert (IH' : (S (fold_right (fun p n => S (f p + n)%nat) O (q :: ps'))
                   <= 2 + List.length (join sep (q :: ps')))%nat).
    { apply IH; [| discriminate]. intros x Hx. apply H. right. exact Hx. }
    change (fold_right (fun p n => S (f p + n)%nat) O (p :: q :: ps'))
      with (S (f p + fold_right (fun p n => S (f p + n)%nat) O (q :: ps')))%nat.
    lia.
Qed.

Lemma fold_right_map_size (A : Type) (g : A -> jsstring) (h : A -> nat)
  (l : list A) :
  (forall x, In x l -> (h x <= List.length (g x))%nat) ->
  (fold_right (fun x n => S (h x + n)%nat) O l
   <= fold_right (fun (p : jsstring) n => S (List.length p + n)%nat) O (map g l))%nat.
Proof.
  intros H. induction l as [| x l IH]; [cbn; lia|].
  cbn [map fold_right].
  pose proof (H x (or_introl eq_refl)).
  assert (fold_right (fun x n => S (h x + n)%nat) O l
          <= fold_right (fun (p : jsstring) n => S (List.length p + n)%nat) O (map g l))%nat.
  { apply IH. intros y Hy. apply H. right. exact Hy. }
  lia.
Qed.

Lemma wrap_length (gap stepback : jsstring) (o c : N) (ps : list jsstring) :
  (S (fold_right (fun (p : jsstring) n => S (List.length p + n)%nat) O ps)
   <= List.length (wrap gap stepback o c ps))%nat.
Proof.
  destruct ps as [| p ps]; [simpl; lia|].
  rewrite wrap_shape. rewrite !length_app.
  pose proof (join_length (u_comma :: wrap_lead gap stepback) (p :: ps)
                (@List.length N) ltac:(discriminate) ltac:(intros; lia)
                ltac:(discriminate)) as J.
  cbn [List.length] in *. lia.
Qed.

Lemma Serialize_length (gap indent : jsstring) (v : JSValue) :
  wf_value v = true ->
  (vsize v <= List.length (json_text gap indent v))%nat.
Proof.
  revert indent.
  induction v as [| b | x | s | items IH | props IH] using JSValue_ind;
    intros indent W.
  - cbn. lia.
  - destruct b; cbn; lia.
  - pose proof (Serialize_head gap indent (JNumber x) W) as H.
    destruct (json_text gap indent (JNumber x)); [discriminate|].
    cbn. lia.
  - cbn [json_text vsize]. unfold QuoteJSONString. cbn [List.length]. lia.
  - cbn [json_text vsize wf_value] in *.
    etransitivity; [| apply wrap_length].
    apply le_n_S.
    apply (fold_right_map_size JSValue (json_text gap (indent ++ gap))
             vsize items).
    intros x Hx. rewrite Forall_forall in IH. apply IH; [exact Hx|].
    rewrite forallb_forall in W. apply W. exact Hx.
  - cbn [json_text vsize wf_value] in *.
    apply andb_true_iff in W. destruct W as [_ W].
    etransitivity; [| apply wrap_length].
    apply le_n_S.
    apply (fold_right_map_size (jsstring * JSValue)%type
             (fun kv => QuoteJSONString (fst kv) ++ [u_colon]
                          ++ (if is_empty gap then [] else [u_space])
                          ++ json_text gap (indent ++ gap) (snd kv))
             (fun kv => vsize (snd kv)) props).
    intros x Hx. rewrite Forall_forall in IH. rewrite !length_app.
    pose proof (IH x Hx (indent ++ gap)) as L.
    rewrite forallb_forall in W. specialize (L (W x Hx)). lia.
Qed.

(** [JSON.parse] gives back what [JSON.stringify] was given, with null
    for every infinity and the positive zero for the negative one. *)
Theorem JSON_parse_stringify (v : JSValue) (space : nat) :
  wf_value v = true ->
  JSON_parse (stringify_text v space) = Some (stored v).
Proof.
  intros W. unfold JSON_parse, stringify_text.
  set (gap := repeat u_space (Nat.min 10 space)).
  assert (G : forallb is_ws gap = true).
  { unfold gap. induction (Nat.min 10 space); [reflexivity | exact IHn]. }
  rewrite (skip_ws_value _ (Serialize_head gap [] v W)).
  pose proof (parse_Serialize v W gap [] []
                (List.length (json_text gap [] v)) G eq_refl eq_refl
                (Serialize_length gap [] v W)) as P.
  rewrite app_nil_r in P. rewrite P. reflexivity.
Qed.

(* ===================================================================== *)
(** * What [JSON.parse] returns is well formed *)
(* ===================================================================== *)

Lemma read_digits_nonneg (s : text) (acc cnt : Z) :
  0 <= acc -> 0 <= fst (fst (read_digits s acc cnt)).
Proof.
  revert acc cnt. induction s as [| x s IH]; intros acc cnt A; [exact A|].
  cbn [read_digits]. destruct (is_digit x) eqn:D; [| exact A].
  apply IH. pose proof (digit_val_range x D). lia.
Qed.

Lemma parse_int_nonneg (s r : text) (ip : Z) :
  parse_int s = Some (ip, r) -> 0 <= ip.
Proof.
  unfold parse_int. destruct s as [| c s']; [discriminate|].
  destruct (N.eqb c u_0); [intros H; inversion H; lia|].
  destruct (is_digit c); [| discriminate].
  pose proof (read_digits_nonneg (c :: s') 0 0 ltac:(lia)) as P.
  destruct (read_digits (c :: s') 0 0) as [[v cnt] rest].
  intros H. inversion H; subst. exact P.
Qed.

Lemma parse_fraction_nonneg (s r : text) (ip M fc : Z) :
  0 <= ip -> parse_fraction ip s = Some (M, fc, r) -> 0 <= M.
Proof.
  intros A. unfold parse_fraction. destruct s as [| c s'].
  - intros H. inversion H; subst. exact A.
  - destruct (N.eqb c u_dot).
    + pose proof (read_digits_nonneg s' ip 0 A) as P.
      destruct (read_digits s' ip 0) as [[v cnt] rest].
      destruct (cnt =? 0); [discriminate|].
      intros H. inversion H; subst. exact P.
    + intros H. inversion H; subst. exact A.
Qed.

Lemma parse_number_wf (s r : text) (x : Number) :
  parse_number s = Some (x, r) -> wf_Number x = true.
Proof.
  unfold parse_number.
  destruct (match s with
            | [] => (false, s)
            | c :: r0 => if N.eqb c u_minus then (true, r0) else (false, s)
            end) as [neg s1].
  destruct (parse_int s1) as [[ip r1] |] eqn:Hi; [| discriminate].
  destruct (parse_fraction ip r1) as [[[M fc] r2] |] eqn:Hf; [| discriminate].
  destruct (parse_exponent r2) as [[X r3] |]; [| discriminate].
  intros H. inversion H; subst. apply round_dec_wf.
  eapply parse_fraction_nonneg; [| exact Hf].
  eapply parse_int_nonneg. exact Hi.
Qed.

Lemma values_wf_obj_set (p : Props) (k : jsstring) (v : JSValue) :
  values_wf p = true -> wf_value v = true -> values_wf (obj_set p k v) = true.
Proof.
  intros P V. unfold obj_set.
  destruct (obj_has p k).
  - clear -P V. induction p as [| [k' v'] p IH]; [reflexivity|].
    unfold values_wf in *. cbn [forallb snd] in P.
    apply andb_true_iff in P. destruct P as [P1 P2].
    cbn [obj_replace]. destruct (jsstring_eqb k' k); cbn [forallb snd].
    + rewrite V, P2. reflexivity.
    + rewrite P1. cbn [andb]. apply IH. exact P2.
  - destruct (array_index k) as [i |].
    + clear -P V. induction p as [| [k' v'] p IH].
      * unfold values_wf. cbn. rewrite V. reflexivity.
      * unfold values_wf in *. cbn [forallb snd] in P.
        pose proof P as P0.
        apply andb_true_iff in P. destruct P as [P1 P2].
        cbn [obj_insert_index].
        destruct (array_index k') as [j |].
        -- destruct (j <=? i); cbn [forallb snd].
           ++ rewrite P1. cbn [andb]. apply IH. exact P2.
           ++ rewrite V, P1, P2. reflexivity.
        -- cbn [forallb snd]. rewrite V, P1, P2. reflexivity.
    + unfold values_wf in *. rewrite forallb_app, P. cbn. rewrite V. reflexivity.
Qed.

Lemma values_wf_obj_of_members (ms : Props) :
  values_wf ms = true -> values_wf (obj_of_members ms) = true.
Proof.
  unfold obj_of_members.
  assert (G : forall acc, values_wf acc = true -> values_wf ms = true ->
                          values_wf (fold_left (fun o kv => obj_set o (fst kv) (snd kv)) ms acc) = true).
  { induction ms as [| [k v] ms IH]; intros acc A M; [exact A|].
    unfold values_wf in M. cbn [forallb snd] in M.
    apply andb_true_iff in M. destruct M as [M1 M2].
    cbn [fold_left fst snd]. apply IH; [| exact M2].
    apply values_wf_obj_set; assumption. }
  intros M. apply G; [reflexivity | exact M].
Qed.

Lemma parse_wf (fuel : nat) :
  (forall s v r, parse_value fuel s = Some (v, r) -> wf_value v = true)
  /\ (forall s vs r, parse_elements fuel s = Some (vs, r) ->
                     forallb wf_value vs = true)
  /\ (forall s ms r, parse_members fuel s = Some (ms, r) -> values_wf ms = true).
Proof.
  induction fuel as [| f [IHv [IHe IHm]]].
  - repeat split; intros; discriminate.
  - repeat split.
    + intros s v r H. cbn [parse_value] in H.
      destruct s as [| c s']; [discriminate|].
      destruct (N.eqb c u_lbracket).
      { destruct (skip_ws s') as [| c' r']; [discriminate|].
        destruct (N.eqb c' u_rbracket); [inversion H; reflexivity|].
        destruct (parse_elements f (c' :: r')) as [[vs rest] |] eqn:E; [| discriminate].
        inversion H; subst. cbn [wf_value]. eapply IHe. exact E. }
      destruct (N.eqb c u_lbrace).
      { destruct (skip_ws s') as [| c' r']; [discriminate|].
        destruct (N.eqb c' u_rbrace); [inversion H; reflexivity|].
        destruct (parse_members f (c' :: r')) as [[ms rest] |] eqn:E; [| discriminate].
        inversion H; subst. cbn [wf_value].
        rewrite obj_of_members_props_ok. cbn [andb].
        apply values_wf_obj_of_members. eapply IHm. exact E. }
      destruct (N.eqb c u_quote).
      { destruct (parse_string_chars s') as [[str rest] |]; [| discriminate].
        inversion H; reflexivity. }
      destruct (N.eqb c 116).
      { destruct (strip_prefix s_true (c :: s')); [| discriminate].
        inversion H; reflexivity. }
      destruct (N.eqb c 102).
      { destruct (strip_prefix s_false (c :: s')); [| discriminate].
        inversion H; reflexivity. }
      destruct (N.eqb c 110).
      { destruct (strip_prefix s_null (c :: s')); [| discriminate].
        inversion H; reflexivity. }
      destruct (parse_number (c :: s')) as [[x rest] |] eqn:E; [| discriminate].
      inversion H; subst. cbn [wf_value]. eapply parse_number_wf. exact E.
    + intros s vs r H. cbn [parse_elements] in H.
      destruct (parse_value f s) as [[v r1] |] eqn:E; [| discriminate].
      destruct (skip_ws r1) as [| c r2]; [discriminate|].
      destruct (N.eqb c u_comma).
      { destruct (parse_elements f (skip_ws r2)) as [[vs' rest] |] eqn:E2; [| discriminate].
        inversion H; subst. cbn [forallb].
        rewrite (IHv _ _ _ E), (IHe _ _ _ E2). reflexivity. }
      destruct (N.eqb c u_rbracket); [| discriminate].
      inversion H; subst. cbn [forallb]. rewrite (IHv _ _ _ E). reflexivity.
    + intros s ms r H. cbn [parse_members] in H.
      destruct s as [| c s']; [discriminate|].
      destruct (N.eqb c u_quote); [| discriminate].
      destruct (parse_string_chars s') as [[k r1] |]; [| discriminate].
      destruct (skip_ws r1) as [| c1 r2]; [discriminate|].
      destruct (N.eqb c1 u_colon); [| discriminate].
      destruct (parse_value f (skip_ws r2)) as [[v r3] |] eqn:E; [| discriminate].
      destruct (skip_ws r3) as [| c3 r4]; [discriminate|].
      destruct (N.eqb c3 u_comma).
      { destruct (parse_members f (skip_ws r4)) as [[ms' rest] |] eqn:E2; [| discriminate].
        inversion H; subst. unfold values_wf. cbn [forallb snd].
        rewrite (IHv _ _ _ E). cbn [andb]. apply (IHm _ _ _ E2). }
      destruct (N.eqb c3 u_rbrace); [| discriminate].
      inversion H; subst. unfold values_wf. cbn [forallb snd].
      rewrite (IHv _ _ _ E). reflexivity.
Qed.

Theorem JSON_parse_wf (s : text) (v : JSValue) :
  JSON_parse s = Some v -> wf_value v = true.
Proof.
  unfold JSON_parse.
  destruct (parse_value (List.length s) (skip_ws s)) as [[v' rest] |] eqn:E;
    [| discriminate].
  destruct (skip_ws rest); [| discriminate].
  intros H. inversion H; subst.
  apply (proj1 (parse_wf (List.length s)) _ _ _ E).
Qed.

(* ===================================================================== *)
(** * Deep equality up to the signs of zeros *)
(* ===================================================================== *)

Lemma Number_strict_eq_plus_zero (x : Number) :
  isFinite x = true -> Number_strict_eq (plus_zero x) x = true.
Proof.
  destruct x as [| neg | neg m e]; try discriminate. intros _.
  unfold plus_zero. destruct (Z.eqb_spec m 0) as [-> | NZ].
  - cbn. rewrite Z.eqb_refl. reflexivity.
  - cbn. rewrite !Z.eqb_refl, Bool.eqb_reflx, orb_true_r. reflexivity.
Qed.

Lemma obj_get_app (a b : Props) (k : jsstring) :
  obj_has a k = false -> obj_get (a ++ b) k = obj_get b k.
Proof.
  induction a as [| [k' v'] a IH]; [reflexivity|].
  cbn [obj_has app obj_get]. intros H. apply orb_false_iff in H.
  destruct H as [H1 H2]. rewrite H1. apply IH. exact H2.
Qed.

(** What is read back is deep-equal to what was written exactly when the
    value written holds no infinity. *)
Theorem deep_equal_stored (v : JSValue) :
  wf_value v = true -> deep_equal (stored v) v = all_finite v.
Proof.
  induction v as [| b | x | s | items IH | props IH] using JSValue_ind;
    intros W.
  - reflexivity.
  - destruct b; reflexivity.
  - cbn [stored all_finite]. unfold stored_number.
    destruct (isFinite x) eqn:F; [| reflexivity].
    apply Number_strict_eq_plus_zero. exact F.
  - apply jsstring_eqb_refl.
  - cbn [wf_value all_finite stored deep_equal] in *.
    induction IH as [| v l Hv Hl IHl]; [reflexivity|].
    cbn [forallb] in W.
    apply andb_true_iff in W. destruct W as [W1 W2].
    cbn [map forall2b forallb]. rewrite (Hv W1), (IHl W2). reflexivity.
  - cbn [wf_value all_finite stored deep_equal] in *.
    apply andb_true_iff in W. destruct W as [Ok W].
    unfold map_values at 1. rewrite length_map, Nat.eqb_refl. cbn [andb].
    unfold props_ok in Ok. apply andb_true_iff in Ok. destruct Ok as [_ D].
    (* every property of a suffix is found in the whole object *)
    assert (G : forall p1 p2,
               props = p1 ++ p2 ->
               forallb
                 (fun kv => match obj_get props (fst kv) with
                            | Some v' => deep_equal (snd kv) v'
                            | None => false
                            end) (map_values stored p2)
               = forallb (fun kv => all_finite (snd kv)) p2).
    { intros p1 p2. revert p1. induction p2 as [| [k v] p2 IH2]; intros p1 E;
        [reflexivity|].
      cbn [map_values map forallb fst snd]. fold (map_values stored p2).
      assert (In (k, v) props) by (rewrite E; apply in_elt).
      rewrite E in D. destruct (keys_distinct_tail p1 p2 k v D) as [NH _].
      rewrite E at 1. rewrite (obj_get_app p1 ((k, v) :: p2) k NH).
      cbn [obj_get]. rewrite jsstring_eqb_refl.
      rewrite Forall_forall in IH. rewrite forallb_forall in W.
      pose proof (IH (k, v) H (W (k, v) H)) as Q.
      cbn [snd] in Q. rewrite Q. f_equal.
      apply (IH2 (p1 ++ [(k, v)])). rewrite <- app_assoc. exact E. }
    apply (G [] props). reflexivity.
Qed.

(* ===================================================================== *)
(** * The length of the text is fuel enough *)
(* ===================================================================== *)

Lemma skip_ws_length (s : text) : (List.length (skip_ws s) <= List.length s)%nat.
Proof.
  induction s as [| c s IH]; [apply le_n|].
  cbn [skip_ws]. destruct (is_ws c); cbn [List.length]; lia.
Qed.

Lemma read_digits_length (s : text) (acc cnt : Z) :
  (List.length (snd (read_digits s acc cnt)) <= List.length s)%nat.
Proof.
  revert acc cnt. induction s as [| c s IH]; intros acc cnt; [apply le_n|].
  cbn [read_digits]. destruct (is_digit c); [| apply le_n].
  specialize (IH (acc * 10 + digit_val c) (cnt + 1)). cbn [List.length]. lia.
Qed.

Lemma parse_string_chars_length (s r : text) (str : jsstring) :
  parse_string_chars s = Some (str, r) -> (List.length r < List.length s)%nat.
Proof.
  assert (G : forall n s, (List.length s <= n)%nat ->
                          forall str r, parse_string_chars s = Some (str, r) ->
                                        (List.length r < List.length s)%nat).
  { clear. induction n as [| n IH]; intros s L str r H.
    - destruct s; [discriminate | cbn in L; lia].
    - destruct s as [| c s1]; [discriminate|].
      cbn [parse_string_chars] in H. cbn [List.length] in *.
      destruct (c =? u_quote)%N.
      { inversion H; subst. lia. }
      destruct (c =? u_backslash)%N.
      { destruct s1 as [| x s2]; [discriminate|].
        destruct (x =? u_u)%N.
        - destruct s2 as [| h1 [| h2 [| h3 [| h4 s3]]]]; try discriminate.
          destruct (hex4 h1 h2 h3 h4); [| discriminate].
          destruct (parse_string_chars s3) as [[str' rest] |] eqn:E; [| discriminate].
          inversion H; subst.
          pose proof (IH s3 ltac:(cbn [List.length] in L; lia) _ _ E).
          cbn [List.length]. lia.
        - destruct (unescape x); [| discriminate].
          destruct (parse_string_chars s2) as [[str' rest] |] eqn:E; [| discriminate].
          inversion H; subst.
          pose proof (IH s2 ltac:(cbn [List.length] in L; lia) _ _ E).
          cbn [List.length]. lia. }
      destruct (c <? 32)%N; [discriminate|].
      destruct (parse_string_chars s1) as [[str' rest] |] eqn:E; [| discriminate].
      inversion H; subst.
      pose proof (IH s1 ltac:(lia) _ _ E). lia. }
  apply (G (List.length s) s (le_n _) str r).
Qed.

Lemma strip_prefix_length (p s r : text) :
  p <> [] -> strip_prefix p s = Some r -> (List.length r < List.length s)%nat.
Proof.
  assert (G : forall p s r, strip_prefix p s = Some r ->
                            (List.length r + List.length p = List.length s)%nat).
  { clear. induction p as [| x p IH]; intros s r H.
    - destruct s; inversion H; subst; cbn; lia.
    - destruct s as [| y s]; [discriminate|]. cbn [strip_prefix] in H.
      destruct (N.eqb x y); [| discriminate].
      specialize (IH s r H). cbn [List.length]. lia. }
  intros NE H. specialize (G p s r H).
  destruct p; [contradiction|]. cbn [List.length] in G. lia.
Qed.

Lemma parse_number_length (s r : text) (x : Number) :
  parse_number s = Some (x, r) -> (List.length r < List.length s)%nat.
Proof.
  unfold parse_number.
  assert (Hint : forall s1 ip r1, parse_int s1 = Some (ip, r1) ->
                                  (List.length r1 < List.length s1)%nat).
  { clear. intros s1 ip r1 H. unfold parse_int in H.
    destruct s1 as [| c s2]; [discriminate|].
    destruct (N.eqb c u_0); [inversion H; subst; cbn; lia|].
    destruct (is_digit c) eqn:D; [| discriminate].
    cbn [read_digits] in H. rewrite D in H.
    pose proof (read_digits_length s2 (0 * 10 + digit_val c) (0 + 1)) as L.
    destruct (read_digits s2 (0 * 10 + digit_val c) (0 + 1)) as [[v cnt] rest].
    inversion H; subst. cbn [snd List.length] in *. lia. }
  assert (Hfrac : forall ip r1 M fc r2, parse_fraction ip r1 = Some (M, fc, r2) ->
                                        (List.length r2 <= List.length r1)%nat).
  { clear. intros ip r1 M fc r2 H. unfold parse_fraction in H.
    destruct r1 as [| c r]; [inversion H; subst; apply le_n|].
    destruct (N.eqb c u_dot).
    - pose proof (read_digits_length r ip 0) as L.
      destruct (read_digits r ip 0) as [[v cnt] rest].
      destruct (cnt =? 0); [discriminate|].
      inversion H; subst. cbn [snd List.length] in *. lia.
    - inversion H; subst. apply le_n. }
  assert (Hexp : forall r2 X r3, parse_exponent r2 = Some (X, r3) ->
                                 (List.length r3 <= List.length r2)%nat).
  { clear. intros r2 X r3 H. unfold parse_exponent in H.
    destruct r2 as [| c r]; [inversion H; subst; apply le_n|].
    destruct (N.eqb c u_e || N.eqb c u_E)%bool.
    - destruct r as [| d r'].
      + cbn in H. discriminate.
      + destruct (N.eqb d u_minus).
        * pose proof (read_digits_length r' 0 0) as L.
          destruct (read_digits r' 0 0) as [[v cnt] rest].
          destruct (cnt =? 0); [discriminate|].
          inversion H; subst. cbn [snd List.length] in *. lia.
        * destruct (N.eqb d u_plus).
          -- pose proof (read_digits_length r' 0 0) as L.
             destruct (read_digits r' 0 0) as [[v cnt] rest].
             destruct (cnt =? 0); [discriminate|].
             inversion H; subst. cbn [snd List.length] in *. lia.
          -- pose proof (read_digits_length (d :: r') 0 0) as L.
             destruct (read_digits (d :: r') 0 0) as [[v cnt] rest].
             destruct (cnt =? 0); [discriminate|].
             inversion H; subst. cbn [snd List.length] in *. lia.
    - inversion H; subst. apply le_n. }
  assert (Hsign : forall neg s1,
             match s with
             | [] => (false, s)
             | c :: r0 => if N.eqb c u_minus then (true, r0) else (false, s)
             end = (neg, s1) -> (List.length s1 <= List.length s)%nat).
  { intros neg s1 H. destruct s as [| c r0]; [inversion H; subst; apply le_n|].
    destruct (N.eqb c u_minus); inversion H; subst; cbn [List.length]; lia. }
  destruct (match s with
            | [] => (false, s)
            | c :: r0 => if N.eqb c u_minus then (true, r0) else (false, s)
            end) as [neg s1] eqn:Es.
  specialize (Hsign neg s1 eq_refl).
  destruct (parse_int s1) as [[ip r1] |] eqn:Hi; [| discriminate].
  destruct (parse_fraction ip r1) as [[[M fc] r2] |] eqn:Hf; [| discriminate].
  destruct (parse_exponent r2) as [[X r3] |] eqn:He; [| discriminate].
  intros H. inversion H; subst.
  specialize (Hint _ _ _ Hi). specialize (Hfrac _ _ _ _ _ Hf).
  specialize (Hexp _ _ _ He). lia.
Qed.

(** A parse that succeeds with some fuel consumes part of the text, and
    succeeds with any fuel that is at least the number of units consumed. *)
Lemma parse_fuel (n : nat) :
  (forall s v r, parse_value n s = Some (v, r) ->
     (List.length r < List.length s)%nat
     /\ forall m, (List.length s - List.length r <= m)%nat ->
                  parse_value m s = Some (v, r))
  /\ (forall s vs r, parse_elements n s = Some (vs, r) ->
        (List.length r < List.length s)%nat
        /\ forall m, (List.length s - List.length r <= m)%nat ->
                     parse_elements m s = Some (vs, r))
  /\ (forall s ms r, parse_members n s = Some (ms, r) ->
        (List.length r < List.length s)%nat
        /\ forall m, (List.length s - List.length r <= m)%nat ->
                     parse_members m s = Some (ms, r)).
Proof.
  induction n as [| f [IHv [IHe IHm]]].
  - repeat split; intros; discriminate.
  - split; [| split].
    + intros s v r H. cbn [parse_value] in H.
      destruct s as [| c s']; [discriminate|].
      destruct (N.eqb c u_lbracket) eqn:C1.
      { pose proof (skip_ws_length s') as Ls.
        destruct (skip_ws s') as [| c' r'] eqn:Ew; [discriminate|].
        destruct (N.eqb c' u_rbracket) eqn:C2.
        - inversion H; subst. cbn [List.length] in *. split; [lia|].
          intros m Hm. destruct m as [| m']; [lia|].
          cbn [parse_value]. rewrite C1, Ew, C2. reflexivity.
        - destruct (parse_elements f (c' :: r')) as [[vs rest] |] eqn:E; [| discriminate].
          inversion H; subst. destruct (IHe _ _ _ E) as [L K].
          cbn [List.length] in *. split; [lia|].
          intros m Hm. destruct m as [| m']; [lia|].
          cbn [parse_value]. rewrite C1, Ew, C2.
          rewrite (K m' ltac:(cbn [List.length]; lia)). reflexivity. }
      destruct (N.eqb c u_lbrace) eqn:C2.
      { pose proof (skip_ws_length s') as Ls.
        destruct (skip_ws s') as [| c' r'] eqn:Ew; [discriminate|].
        destruct (N.eqb c' u_rbrace) eqn:C3.
        - inversion H; subst. cbn [List.length] in *. split; [lia|].
          intros m Hm. destruct m as [| m']; [lia|].
          cbn [parse_value]. rewrite C1, C2, Ew, C3. reflexivity.
        - destruct (parse_members f (c' :: r')) as [[ms rest] |] eqn:E; [| discriminate].
          inversion H; subst. destruct (IHm _ _ _ E) as [L K].
          cbn [List.length] in *. split; [lia|].
          intros m Hm. destruct m as [| m']; [lia|].
          cbn [parse_value]. rewrite C1, C2, Ew, C3.
          rewrite (K m' ltac:(cbn [List.length]; lia)). reflexivity. }
      assert (Scalar : forall m, (1 <= m)%nat ->
                                 parse_value m (c :: s') = parse_value (S f) (c :: s')).
      { intros m Hm. destruct m as [| m']; [lia|].
        cbn [parse_value]. rewrite C1, C2. reflexivity. }
      assert (Len : (List.length r < List.length (c :: s'))%nat).
      { destruct (N.eqb c u_quote).
        { destruct (parse_string_chars s') as [[str rest] |] eqn:E; [| discriminate].
          inversion H; subst. pose proof (parse_string_chars_length _ _ _ E).
          cbn [List.length]. lia. }
        destruct (N.eqb c 116).
        { destruct (strip_prefix s_true (c :: s')) eqn:E; [| discriminate].
          inversion H; subst.
          apply (strip_prefix_length s_true _ _ ltac:(discriminate) E). }
        destruct (N.eqb c 102).
        { destruct (strip_prefix s_false (c :: s')) eqn:E; [| discriminate].
          inversion H; subst.
          apply (strip_prefix_length s_false _ _ ltac:(discriminate) E). }
        destruct (N.eqb c 110).
        { destruct (strip_prefix s_null (c :: s')) eqn:E; [| discriminate].
          inversion H; subst.
          apply (strip_prefix_length s_null _ _ ltac:(discriminate) E). }
        destruct (parse_number (c :: s')) as [[x rest] |] eqn:E; [| discriminate].
        inversion H; subst. apply (parse_number_length _ _ _ E). }
      split; [exact Len|].
      intros m Hm. rewrite (Scalar m ltac:(lia)).
      cbn [parse_value]. rewrite C1, C2. exact H.
    + intros s vs r H. cbn [parse_elements] in H.
      destruct (parse_value f s) as [[v r1] |] eqn:E; [| discriminate].
      destruct (IHv _ _ _ E) as [L K].
      pose proof (skip_ws_length r1) as Ls.
      destruct (skip_ws r1) as [| c r2] eqn:Ew; [discriminate|].
      cbn [List.length] in Ls.
      destruct (N.eqb c u_comma) eqn:C1.
      { pose proof (skip_ws_length r2) as Ls2.
        destruct (parse_elements f (skip_ws r2)) as [[vs' rest] |] eqn:E2; [| discriminate].
        inversion H; subst. destruct (IHe _ _ _ E2) as [L2 K2].
        split; [lia|].
        intros m Hm. destruct m as [| m']; [lia|].
        cbn [parse_elements]. rewrite (K m' ltac:(lia)), Ew, C1.
        rewrite (K2 m' ltac:(lia)). reflexivity. }
      destruct (N.eqb c u_rbracket) eqn:C2; [| discriminate].
      inversion H; subst. split; [lia|].
      intros m Hm. destruct m as [| m']; [lia|].
      cbn [parse_elements]. rewrite (K m' ltac:(lia)), Ew, C1, C2. reflexivity.
    + intros s ms r H. cbn [parse_members] in H.
      destruct s as [| c s']; [discriminate|].
      destruct (N.eqb c u_quote) eqn:C0; [| discriminate].
      destruct (parse_string_chars s') as [[k r1] |] eqn:Ek; [| discriminate].
      pose proof (parse_string_chars_length _ _ _ Ek) as Lk.
      pose proof (skip_ws_length r1) as Ls1.
      destruct (skip_ws r1) as [| c1 r2] eqn:Ew1; [discriminate|].
      cbn [List.length] in Ls1.
      destruct (N.eqb c1 u_colon) eqn:C1; [| discriminate].
      pose proof (skip_ws_length r2) as Ls2.
      destruct (parse_value f (skip_ws r2)) as [[v r3] |] eqn:E; [| discriminate].
      destruct (IHv _ _ _ E) as [L K].
      pose proof (skip_ws_length r3) as Ls3.
      destruct (skip_ws r3) as [| c3 r4] eqn:Ew3; [discriminate|].
      cbn [List.length] in Ls3.
      destruct (N.eqb c3 u_comma) eqn:C3.
      { pose proof (skip_ws_length r4) as Ls4.
        destruct (parse_members f (skip_ws r4)) as [[ms' rest] |] eqn:E2; [| discriminate].
        inversion H; subst. destruct (IHm _ _ _ E2) as [L2 K2].
        cbn [List.length]. split; [lia|].
        intros m Hm. destruct m as [| m']; [lia|].
        cbn [parse_members]. rewrite C0, Ek, Ew1, C1.
        rewrite (K m' ltac:(lia)), Ew3, C3.
        rewrite (K2 m' ltac:(lia)). reflexivity. }
      destruct (N.eqb c3 u_rbrace) eqn:C4; [| discriminate].
      inversion H; subst. cbn [List.length]. split; [lia|].
      intros m Hm. destruct m as [| m']; [lia|].
      cbn [parse_members]. rewrite C0, Ek, Ew1, C1.
      rewrite (K m' ltac:(lia)), Ew3, C3, C4. reflexivity.
Qed.

(** [JSON.parse] fails only on a text that no amount of fuel parses: the
    [None] of the model is the SyntaxError, never a lack of fuel. *)
Theorem JSON_parse_fuel_enough (s : text) (n : nat) (v : JSValue) (r : text) :
  parse_value n (skip_ws s) = Some (v, r) -> skip_ws r = [] ->
  JSON_parse s = Some v.
Proof.
  intros H E. destruct (proj1 (parse_fuel n) _ _ _ H) as [L K].
  unfold JSON_parse.
  pose proof (skip_ws_length s).
  rewrite (K (List.length s) ltac:(lia)), E. reflexivity.
Qed.

(* ===================================================================== *)
(** * [JSON.stringify] and the stack *)
(* ===================================================================== *)

Lemma all_ok_map {A B : Type} (f : A -> result B) (g : A -> B)
  (size : A -> nat) (room : nat) (l : list A) :
  Forall (fun x => f x = if Nat.leb (size x) room then Ok (g x) else Throw) l ->
  all_ok (map f l)
  = if Nat.leb (fold_right (fun x n => Nat.max (size x) n) O l) room
    then Ok (map g l) else Throw.
Proof.
  induction 1 as [| x l Hx Hl IH]; [reflexivity|].
  cbn [map all_ok fold_right]. rewrite Hx, IH.
  destruct (Nat.leb_spec (size x) room) as [L1 | L1].
  - destruct (Nat.leb_spec (fold_right (fun x n => Nat.max (size x) n) O l) room)
      as [L2 | L2].
    + destruct (Nat.leb_spec (Nat.max (size x)
                  (fold_right (fun x n => Nat.max (size x) n) O l)) room);
        [reflexivity | lia].
    + destruct (Nat.leb_spec (Nat.max (size x)
                  (fold_right (fun x n => Nat.max (size x) n) O l)) room);
        [lia | reflexivity].
  - destruct (Nat.leb_spec (Nat.max (size x)
                (fold_right (fun x n => Nat.max (size x) n) O l)) room);
      [lia | reflexivity].
Qed.

(** [SerializeJSONProperty] returns the text of the value when the value
    is nested no deeper than the stack has room for, and throws when it
    is. *)
Lemma SerializeJSONProperty_depth (v : JSValue) :
  forall (stack : nat) (gap indent : jsstring),
    SerializeJSONProperty stack gap indent v
    = if Nat.leb (depth v) stack then Ok (json_text gap indent v) else Throw.
Proof.
  induction v as [| b | x | s | items IH | props IH] using JSValue_ind;
    intros stack gap indent; try reflexivity.
  - destruct b; reflexivity.
  - cbn [SerializeJSONProperty depth json_text].
    destruct stack as [| stack]; [reflexivity|].
    rewrite (all_ok_map _ (json_text gap (indent ++ gap)) depth stack items).
    + cbn [Nat.leb]. destruct (Nat.leb _ stack); reflexivity.
    + eapply Forall_impl; [| exact IH]. intros x Hx. apply Hx.
  - cbn [SerializeJSONProperty depth json_text].
    destruct stack as [| stack]; [reflexivity|].
    rewrite (all_ok_map _
               (fun kv => QuoteJSONString (fst kv) ++ [u_colon]
                            ++ (if is_empty gap then [] else [u_space])
                            ++ json_text gap (indent ++ gap) (snd kv))
               (fun kv => depth (snd kv)) stack props).
    + cbn [Nat.leb]. destruct (Nat.leb _ stack); reflexivity.
    + eapply Forall_impl; [| exact IH]. intros kv Hx. cbn beta.
      rewrite Hx. destruct (Nat.leb (depth (snd kv)) stack); reflexivity.
Qed.

Lemma JSON_stringify_depth (stack : nat) (v : JSValue) (space : nat) :
  JSON_stringify stack v space
  = if Nat.leb (depth v) stack then Ok (stringify_text v space) else Throw.
Proof. apply SerializeJSONProperty_depth. Qed.

(** When [JSON.stringify] returns, it returns the text of the value. *)
Lemma JSON_stringify_ok (stack : nat) (v : JSValue) (space : nat)
  (text : jsstring) :
  JSON_stringify stack v space = Ok text ->
  text = stringify_text v space /\ (depth v <= stack)%nat.
Proof.
  rewrite JSON_stringify_depth.
  destruct (Nat.leb_spec (depth v) stack) as [L | L]; [| discriminate].
  intros E. inversion E. split; [reflexivity | exact L].
Qed.

Lemma JSON_stringify_throw (stack : nat) (v : JSValue) (space : nat) :
  JSON_stringify stack v space = Throw -> (stack < depth v)%nat.
Proof.
  rewrite JSON_stringify_depth.
  destruct (Nat.leb_spec (depth v) stack) as [L | L];
    [discriminate | intros _; exact L].
Qed.

(** Whether [JSON.stringify] returns does not depend on the indentation. *)
Lemma JSON_stringify_space (stack : nat) (v : JSValue) (s1 s2 : nat)
  (text : jsstring) :
  JSON_stringify stack v s1 = Ok text ->
  JSON_stringify stack v s2 = Ok (stringify_text v s2).
Proof.
  rewrite !JSON_stringify_depth.
  destruct (Nat.leb (depth v) stack); [reflexivity | discriminate].
Qed.

Lemma depth_stored (v : JSValue) : depth (stored v) = depth v.
Proof.
  induction v as [| b | x | s | items IH | props IH] using JSValue_ind;
    try reflexivity.
  - cbn [stored]. unfold stored_number. destruct (isFinite x); reflexivity.
  - cbn [stored depth]. f_equal.
    induction IH as [| v l Hv Hl IHl]; [reflexivity|].
    cbn [map fold_right]. rewrite Hv, IHl. reflexivity.
  - cbn [stored depth]. f_equal.
    induction IH as [| [k v] l Hv Hl IHl]; [reflexivity|].
    cbn [map_values map fold_right fst snd] in *. fold (map_values stored l).
    rewrite Hv, IHl. reflexivity.
Qed.

Lemma depth_nest (n : nat) : depth (nest n) = S n.
Proof.
  induction n as [| n IH]; [reflexivity|].
  cbn [nest depth fold_right]. rewrite IH. rewrite Nat.max_0_r. reflexivity.
Qed.

Lemma stored_nest (n : nat) : stored (nest n) = nest n.
Proof.
  induction n as [| n IH]; [reflexivity|].
  cbn [nest stored map]. rewrite IH. reflexivity.
Qed.

Lemma wf_nest (n : nat) : wf_value (nest n) = true.
Proof.
  induction n as [| n IH]; [reflexivity|].
  cbn [nest wf_value forallb]. rewrite IH. reflexivity.
Qed.

Lemma all_finite_nest (n : nat) : all_finite (nest n) = true.
Proof.
  induction n as [| n IH]; [reflexivity|].
  cbn [nest all_finite forallb]. rewrite IH. reflexivity.
Qed.

(* ===================================================================== *)
(** * The chunks of a body *)
(* ===================================================================== *)

(** Bytes read after a chunk that ends between two characters are read
    as if they came first. *)
Lemma utf8_decode_from_app (a b : list N) :
  forall st,
    utf8_state_after st a = None ->
    utf8_decode_from st (a ++ b)
    = utf8_decode_from st a ++ utf8_decode_from None b.
Proof.
  induction a as [| x a IH]; intros st H.
  - cbn [utf8_state_after] in H. subst st. reflexivity.
  - cbn [utf8_state_after] in H. cbn [app utf8_decode_from].
    destruct (utf8_step st x) as [out st'] eqn:E. cbn [snd] in H.
    rewrite (IH st' H), app_assoc. reflexivity.
Qed.

Lemma utf8_decode_concat (cs : list (list N)) :
  whole_chunks cs = true ->
  utf8_decode (List.concat cs) = List.concat (map utf8_decode cs).
Proof.
  induction cs as [| c cs IH]; intros H; [reflexivity|].
  cbn [whole_chunks forallb] in H. apply andb_true_iff in H.
  destruct H as [H1 H2]. unfold whole_chunk in H1.
  destruct (utf8_state_after None c) eqn:E; [discriminate|].
  cbn [List.concat map]. unfold utf8_decode at 1.
  rewrite (utf8_decode_from_app c (List.concat cs) None E).
  fold (utf8_decode c). fold (utf8_decode (List.concat cs)).
  rewrite (IH H2). reflexivity.
Qed.

Lemma fold_left_append (cs : list (list N)) :
  forall acc : jsstring,
    fold_left (fun acc chunk => acc ++ utf8_decode chunk) cs acc
    = acc ++ List.concat (map utf8_decode cs).
Proof.
  induction cs as [| c cs IH]; intros acc.
  - cbn. rewrite app_nil_r. reflexivity.
  - cbn [fold_left map List.concat]. rewrite IH, app_assoc. reflexivity.
Qed.

(** The text collected from the chunks: the chunks decoded one by one. *)
Lemma body_chunks (req : Request) :
  body req = List.concat (map utf8_decode (chunks req)).
Proof. unfold body. apply (fold_left_append (chunks req) []). Qed.

(** When no chunk ends inside a character, the text collected is the
    text that was sent. *)
Lemma body_whole (req : Request) :
  whole_chunks (chunks req) = true -> body req = posted_text req.
Proof.
  intros H. rewrite body_chunks. unfold posted_text.
  symmetry. apply utf8_decode_concat. exact H.
Qed.

Lemma utf8_decode_ascii (s : list N) :
  ascii_bytes s = true -> utf8_decode s = s /\ whole_chunk s = true.
Proof.
  unfold utf8_decode, whole_chunk.
  induction s as [| b s IH]; intros H; [split; reflexivity|].
  cbn [ascii_bytes forallb] in H. apply andb_true_iff in H.
  destruct H as [H1 H2]. destruct (IH H2) as [I1 I2].
  cbn [utf8_decode_from utf8_state_after utf8_step]. unfold utf8_first.
  rewrite H1. cbn [snd app]. rewrite I1. split; [reflexivity | exact I2].
Qed.

Lemma body_ascii (m : string) (u : jsstring) (s : list N) :
  ascii_bytes s = true -> body (mkRequest m u [s]) = s.
Proof.
  intros H. unfold body. cbn [chunks fold_left app].
  apply (utf8_decode_ascii s H).
Qed.

(* ===================================================================== *)
(** * The branches of the request listener *)
(* ===================================================================== *)

Section Branches.

Variable dir : jsstring.
Variable w : World.
Variable req : Request.

Lemma handler_options :
  is_api_path (request_path req) = true -> method req = "OPTIONS"%string ->
  handler dir w req = (end_ (writeHead cors_response 204 []) [], w, []).
Proof.
  intros A M. unfold handler. fold (request_path req). rewrite A, M. reflexivity.
Qed.

Lemma handler_get_config :
  method req = "GET"%string -> request_path req = js "/config" ->
  handler dir w req
  = match JSON_stringify (S (compact_room w)) (fst (readConfig dir w)) 0 with
    | Ok text =>
        (end_ (writeHead cors_response 200
                 [("Content-Type", "application/json")]%string) text,
         w, snd (readConfig dir w))
    | Throw =>
        (writeHead cors_response 200
           [("Content-Type", "application/json")]%string,
         w, snd (readConfig dir w) ++ [Uncaught "RangeError"])
    end.
Proof.
  intros M P. unfold handler. fold (request_path req). rewrite P, M.
  change (is_api_path (js "/config")) with true.
  cbn [andb]. change (String.eqb "GET" "OPTIONS") with false.
  change (String.eqb "GET" "GET") with true.
  change (jsstring_eqb (js "/config") (js "/config")) with true. cbv iota.
  destruct (readConfig dir w) as [config effs]. reflexivity.
Qed.

(** The GET of /config that is answered: the value is nested no deeper
    than the stack has room for. *)
Lemma handler_get_config_answered :
  method req = "GET"%string -> request_path req = js "/config" ->
  (depth (fst (readConfig dir w)) <= S (compact_room w))%nat ->
  handler dir w req
  = (end_ (writeHead cors_response 200
             [("Content-Type", "application/json")]%string)
       (stringify_text (fst (readConfig dir w)) 0),
     w, snd (readConfig dir w)).
Proof.
  intros M P D. rewrite (handler_get_config M P), JSON_stringify_depth.
  apply Nat.leb_le in D. rewrite D. reflexivity.
Qed.

(** The GET of /config during which [JSON.stringify] runs out of stack. *)
Lemma handler_get_config_thrown :
  method req = "GET"%string -> request_path req = js "/config" ->
  (S (compact_room w) < depth (fst (readConfig dir w)))%nat ->
  handler dir w req
  = (writeHead cors_response 200
       [("Content-Type", "application/json")]%string,
     w, snd (readConfig dir w) ++ [Uncaught "RangeError"]).
Proof.
  intros M P D. rewrite (handler_get_config M P), JSON_stringify_depth.
  apply Nat.leb_gt in D. rewrite D. reflexivity.
Qed.

Lemma handler_get_static :
  method req = "GET"%string ->
  jsstring_eqb (request_path req) (js "/config") = false ->
  handler dir w req
  = (fst (serveStatic dir w
            (if jsstring_eqb (request_path req) (js "/") || is_empty (request_path req)
             then js "/index.html" else request_path req)
            (first_response req)),
     w,
     snd (serveStatic dir w
            (if jsstring_eqb (request_path req) (js "/") || is_empty (request_path req)
             then js "/index.html" else request_path req)
            (first_response req))).
Proof.
  intros M P. unfold handler, first_response. fold (request_path req). rewrite P, M.
  change (String.eqb "GET" "OPTIONS") with false. rewrite andb_false_r.
  change (String.eqb "GET" "GET") with true. cbv iota.
  fold cors_response.
  destruct (serveStatic dir w _ _) as [res' effs]. reflexivity.
Qed.

Lemma handler_post_invalid :
  method req = "POST"%string -> request_path req = js "/update-config" ->
  JSON_parse (body req) = None ->
  handler dir w req
  = (end_ (writeHead cors_response 400 [("Content-Type", "application/json")]%string)
       error_body,
     w, [ReadBody; ParseBody; LogError "Failed to update config:"]).
Proof.
  intros M P J. unfold handler. fold (request_path req). rewrite P, M, J.
  reflexivity.
Qed.

Lemma handler_post_written (data : JSValue) :
  method req = "POST"%string -> request_path req = js "/update-config" ->
  JSON_parse (body req) = Some data ->
  (depth data <= S (pretty_room w))%nat ->
  write_fault w = None ->
  handler dir w req
  = (end_ (writeHead cors_response 200 [("Content-Type", "application/json")]%string)
       success_body,
     mkWorld (update_file (files w) (CONFIG_FILE dir)
                (Content (stringify_text data 2))) None
       (pretty_room w) (compact_room w),
     [ReadBody; ParseBody; WriteFile (CONFIG_FILE dir) (stringify_text data 2)]).
Proof.
  intros M P J D F. unfold handler. fold (request_path req). rewrite P, M, J.
  unfold writeConfig. rewrite JSON_stringify_depth.
  apply Nat.leb_le in D. rewrite D.
  unfold writeFileSync. rewrite F, utf8_text_stringify.
  reflexivity.
Qed.

Lemma handler_post_write_error (data : JSValue) (st : FileState) :
  method req = "POST"%string -> request_path req = js "/update-config" ->
  JSON_parse (body req) = Some data ->
  (depth data <= S (pretty_room w))%nat ->
  write_fault w = Some st ->
  handler dir w req
  = (end_ (writeHead cors_response 400 [("Content-Type", "application/json")]%string)
       error_body,
     mkWorld (update_file (files w) (CONFIG_FILE dir) st) (Some st)
       (pretty_room w) (compact_room w),
     [ReadBody; ParseBody; WriteFile (CONFIG_FILE dir) (stringify_text data 2);
      LogError "Failed to update config:"]).
Proof.
  intros M P J D F. unfold handler. fold (request_path req). rewrite P, M, J.
  unfold writeConfig. rewrite JSON_stringify_depth.
  apply Nat.leb_le in D. rewrite D.
  unfold writeFileSync. rewrite F. reflexivity.
Qed.

(** The POST of a value nested deeper than the stack has room for:
    [JSON.stringify] throws inside [writeConfig], nothing is written and
    the [catch] answers. *)
Lemma handler_post_thrown (data : JSValue) :
  method req = "POST"%string -> request_path req = js "/update-config" ->
  JSON_parse (body req) = Some data ->
  (S (pretty_room w) < depth data)%nat ->
  handler dir w req
  = (end_ (writeHead cors_response 400 [("Content-Type", "application/json")]%string)
       error_body,
     w, [ReadBody; ParseBody; LogError "Failed to update config:"]).
Proof.
  intros M P J D. unfold handler. fold (request_path req). rewrite P, M, J.
  unfold writeConfig. rewrite JSON_stringify_depth.
  apply Nat.leb_gt in D. rewrite D. reflexivity.
Qed.

Lemma handler_not_allowed :
  method req <> "GET"%string ->
  ~ (method req = "POST"%string /\ request_path req = js "/update-config") ->
  ~ (method req = "OPTIONS"%string /\ is_api_path (request_path req) = true) ->
  handler dir w req
  = (end_ (writeHead (first_response req) 405 [("Content-Type", "text/plain")]%string)
       (js "Method Not Allowed"),
     w, []).
Proof.
  intros G P O. unfold handler, first_response. fold (request_path req).
  fold cors_response.
  assert (C1 : is_api_path (request_path req) && String.eqb (method req) "OPTIONS" = false).
  { destruct (is_api_path (request_path req)) eqn:A; [| reflexivity].
    destruct (String.eqb_spec (method req) "OPTIONS"); [| reflexivity].
    exfalso. apply O. split; [assumption | reflexivity]. }
  assert (C2 : String.eqb (method req) "GET" = false).
  { apply String.eqb_neq. exact G. }
  assert (C3 : String.eqb (method req) "POST"
               && jsstring_eqb (request_path req) (js "/update-config") = false).
  { destruct (String.eqb_spec (method req) "POST"); [| reflexivity].
    destruct (jsstring_eqb (request_path req) (js "/update-config")) eqn:E;
      [| reflexivity].
    exfalso. apply P. split; [assumption|]. apply jsstring_eqb_eq. exact E. }
  rewrite C1, C2, C3. reflexivity.
Qed.

End Branches.

Lemma error_body_text :
  error_body
  = js "{" ++ quoted "status" ++ js ":" ++ quoted "error" ++ js ","
      ++ quoted "message" ++ js ":" ++ quoted "Invalid JSON" ++ js "}".
Proof. vm_compute. reflexivity. Qed.

Lemma success_body_text :
  success_body = js "{" ++ quoted "status" ++ js ":" ++ quoted "success" ++ js "}".
Proof. vm_compute. reflexivity. Qed.

(** Every request takes one of nine ways through the listener. *)
Lemma handler_branches (dir : jsstring) (w : World) (req : Request) :
  (is_api_path (request_path req) = true /\ method req = "OPTIONS"%string
   /\ handler dir w req = (end_ (writeHead cors_response 204 []) [], w, []))
  \/ (method req = "GET"%string /\ request_path req = js "/config"
      /\ (depth (fst (readConfig dir w)) <= S (compact_room w))%nat
      /\ handler dir w req
         = (end_ (writeHead cors_response 200
                    [("Content-Type", "application/json")]%string)
              (stringify_text (fst (readConfig dir w)) 0),
            w, snd (readConfig dir w)))
  \/ (method req = "GET"%string /\ request_path req = js "/config"
      /\ (S (compact_room w) < depth (fst (readConfig dir w)))%nat
      /\ handler dir w req
         = (writeHead cors_response 200
              [("Content-Type", "application/json")]%string,
            w, snd (readConfig dir w) ++ [Uncaught "RangeError"]))
  \/ (method req = "GET"%string
      /\ jsstring_eqb (request_path req) (js "/config") = false
      /\ exists filePath,
           handler dir w req
           = (fst (serveStatic dir w filePath (first_response req)), w,
              snd (serveStatic dir w filePath (first_response req))))
  \/ (method req = "POST"%string /\ request_path req = js "/update-config"
      /\ JSON_parse (body req) = None
      /\ handler dir w req
         = (end_ (writeHead cors_response 400
                    [("Content-Type", "application/json")]%string) error_body,
            w, [ReadBody; ParseBody; LogError "Failed to update config:"]))
  \/ (method req = "POST"%string /\ request_path req = js "/update-config"
      /\ exists data,
           JSON_parse (body req) = Some data
           /\ (depth data <= S (pretty_room w))%nat
           /\ write_fault w = None
           /\ handler dir w req
              = (end_ (writeHead cors_response 200
                         [("Content-Type", "application/json")]%string)
                   success_body,
                 mkWorld (update_file (files w) (CONFIG_FILE dir)
                            (Content (stringify_text data 2))) None
                   (pretty_room w) (compact_room w),
                 [ReadBody; ParseBody;
                  WriteFile (CONFIG_FILE dir) (stringify_text data 2)]))
  \/ (method req = "POST"%string /\ request_path req = js "/update-config"
      /\ exists data st,
           JSON_parse (body req) = Some data
           /\ (depth data <= S (pretty_room w))%nat
           /\ write_fault w = Some st
           /\ handler dir w req
              = (end_ (writeHead cors_response 400
                         [("Content-Type", "application/json")]%string)
                   error_body,
                 mkWorld (update_file (files w) (CONFIG_FILE dir) st) (Some st)
                   (pretty_room w) (compact_room w),
                 [ReadBody; ParseBody;
                  WriteFile (CONFIG_FILE dir) (stringify_text data 2);
                  LogError "Failed to update config:"]))
  \/ (method req = "POST"%string /\ request_path req = js "/update-config"
      /\ exists data,
           JSON_parse (body req) = Some data
           /\ (S (pretty_room w) < depth data)%nat
           /\ handler dir w req
              = (end_ (writeHead cors_response 400
                         [("Content-Type", "application/json")]%string)
                   error_body,
                 w, [ReadBody; ParseBody; LogError "Failed to update config:"]))
  \/ (method req <> "GET"%string
      /\ ~ (method req = "POST"%string /\ request_path req = js "/update-config")
      /\ handler dir w req
         = (end_ (writeHead (first_response req) 405
                    [("Content-Type", "text/plain")]%string)
              (js "Method Not Allowed"),
            w, [])).
Proof.
  assert (O : (is_api_path (request_path req) = true
               /\ method req = "OPTIONS"%string)
              \/ ~ (method req = "OPTIONS"%string
                    /\ is_api_path (request_path req) = true)).
  { destruct (is_api_path (request_path req));
      [| right; intros [_ E]; discriminate].
    destruct (String.eqb_spec (method req) "OPTIONS") as [MO | MO];
      [left; split; [reflexivity | exact MO] | right; intros [E _]; exact (MO E)]. }
  destruct O as [[A MO] | O].
  { left. split; [exact A|]. split; [exact MO|].
    apply handler_options; assumption. }
  right.
  destruct (String.eqb_spec (method req) "GET") as [MG | MG].
  { destruct (jsstring_eqb (request_path req) (js "/config")) eqn:P.
    - apply jsstring_eqb_eq in P.
      destruct (Nat.le_gt_cases (depth (fst (readConfig dir w)))
                  (S (compact_room w))) as [D | D].
      + left. split; [exact MG|]. split; [exact P|]. split; [exact D|].
        apply handler_get_config_answered; assumption.
      + right. left. split; [exact MG|]. split; [exact P|]. split; [exact D|].
        apply handler_get_config_thrown; assumption.
    - right. right. left. split; [exact MG|]. split; [reflexivity|].
      eexists. apply handler_get_static; assumption. }
  right. right. right.
  assert (U : (method req = "POST"%string
               /\ request_path req = js "/update-config")
              \/ ~ (method req = "POST"%string
                    /\ request_path req = js "/update-config")).
  { destruct (String.eqb_spec (method req) "POST") as [MP | MP];
      [| right; intros [E _]; exact (MP E)].
    destruct (jsstring_eqb (request_path req) (js "/update-config")) eqn:P.
    - left. split; [exact MP | apply jsstring_eqb_eq; exact P].
    - right. intros [_ E]. rewrite E in P. discriminate. }
  destruct U as [[MP P] | NP].
  - destruct (JSON_parse (body req)) as [data |] eqn:J.
    + right.
      destruct (Nat.le_gt_cases (depth data) (S (pretty_room w))) as [D | D].
      * destruct (write_fault w) as [st |] eqn:F.
        -- right. left. split; [exact MP|]. split; [exact P|].
           exists data, st. split; [reflexivity|]. split; [exact D|].
           split; [reflexivity|].
           apply handler_post_write_error; assumption.
        -- left. split; [exact MP|]. split; [exact P|].
           exists data. split; [reflexivity|]. split; [exact D|].
           split; [reflexivity|].
           apply handler_post_written; assumption.
      * right. right. left. split; [exact MP|]. split; [exact P|].
        exists data. split; [reflexivity|]. split; [exact D|].
        apply (handler_post_thrown dir w req data); assumption.
    + left. split; [exact MP|]. split; [exact P|]. split; [reflexivity|].
      apply handler_post_invalid; assumption.
  - right. right. right. right. split; [exact MG|]. split; [exact NP|].
    apply handler_not_allowed; assumption.
Qed.

(* ===================================================================== *)
(** * The extension of a file name *)
(* ===================================================================== *)

(** Units that are neither a dot nor a separator, met before any dot,
    change nothing once the end of the name is marked. *)
Lemma extname_scan_tail (l rest : list N) :
  forall (i sp en pd : Z),
    no_slash l = true -> no_dot l = true -> en <> -1 ->
    extname_scan (l ++ rest) i (mkExtScan (-1) sp en false pd)
    = extname_scan rest (i - Z.of_nat (List.length l))
        (mkExtScan (-1) sp en false pd).
Proof.
  induction l as [| c l IH]; intros i sp en pd S D E.
  - cbn [app List.length]. f_equal. cbn. lia.
  - cbn [no_slash no_dot forallb] in S, D.
    apply andb_true_iff in S. destruct S as [S1 S2].
    apply andb_true_iff in D. destruct D as [D1 D2].
    apply negb_true_iff in S1. apply negb_true_iff in D1.
    cbn [app extname_scan]. rewrite S1.
    cbn [endIdx startDot]. apply Z.eqb_neq in E. rewrite E.
    rewrite D1. cbn [startDot negb Z.eqb Pos.eqb].
    rewrite (IH (i - 1) sp en pd S2 D2 ltac:(apply Z.eqb_neq; exact E)).
    f_equal. cbn [List.length]. lia.
Qed.

(** The scan of the extension, then of its dot: the dot and the end of the
    name are marked. *)
Lemma extname_scan_ext (e rest : list N) (i : Z) :
  no_slash e = true -> no_dot e = true ->
  Z.of_nat (List.length e) <= i ->
  extname_scan (e ++ u_dot :: rest) i (mkExtScan (-1) 0 (-1) true 0)
  = extname_scan rest (i - Z.of_nat (List.length e) - 1)
      (mkExtScan (i - Z.of_nat (List.length e)) 0 (i + 1) false 0).
Proof.
  intros S D L. destruct e as [| c e].
  - cbn [app List.length extname_scan].
    change (N.eqb u_dot u_slash) with false. cbn [endIdx Z.eqb Pos.eqb].
    change (N.eqb u_dot u_dot) with true. cbn [startDot Z.eqb Pos.eqb].
    cbn [startPart endIdx matchedSlash preDotState].
    f_equal; [cbn; lia|]. f_equal. cbn. lia.
  - cbn [no_slash no_dot forallb] in S, D.
    apply andb_true_iff in S. destruct S as [S1 S2].
    apply andb_true_iff in D. destruct D as [D1 D2].
    apply negb_true_iff in S1. apply negb_true_iff in D1.
    cbn [List.length] in L.
    cbn [app extname_scan]. rewrite S1. cbn [endIdx Z.eqb Pos.eqb].
    rewrite D1. cbn [startDot negb Z.eqb Pos.eqb startPart preDotState matchedSlash endIdx].
    rewrite (extname_scan_tail e (u_dot :: rest) (i - 1) 0 (i + 1) 0 S2 D2
               ltac:(lia)).
    cbn [extname_scan].
    change (N.eqb u_dot u_slash) with false. cbn [endIdx].
    assert (E : (i + 1 =? -1) = false) by (apply Z.eqb_neq; lia).
    rewrite E. change (N.eqb u_dot u_dot) with true. cbn [startDot Z.eqb Pos.eqb].
    cbn [startPart endIdx matchedSlash preDotState].
    f_equal; [cbn [List.length]; lia|]. f_equal. cbn [List.length]. lia.
Qed.

Lemma extname_scan_base (base : jsstring) :
  forall (rest : list N) (i d en pd : Z),
    no_slash base = true -> d <> -1 -> en <> -1 ->
    extname_scan (rev base ++ rest) i (mkExtScan d 0 en false pd)
    = extname_scan rest (i - Z.of_nat (List.length base))
        (mkExtScan d 0 en false (before_dot base pd)).
Proof.
  induction base as [| c b IH]; intros rest i d en pd S Hd He.
  - cbn [rev app List.length before_dot]. f_equal. cbn. lia.
  - cbn [no_slash forallb] in S.
    apply andb_true_iff in S. destruct S as [S1 S2].
    apply negb_true_iff in S1.
    cbn [rev]. rewrite <- app_assoc. cbn [app].
    rewrite (IH (c :: rest) i d en pd S2 Hd He).
    cbn [extname_scan]. rewrite S1. cbn [endIdx].
    apply Z.eqb_neq in Hd, He. rewrite He. cbn [startDot]. rewrite Hd.
    cbn [negb preDotState].
    cbn [before_dot List.length].
    replace (i - Z.of_nat (List.length b) - 1)
      with (i - Z.of_nat (S (List.length b))) by lia.
    destruct (N.eqb c u_dot).
    + cbn [startDot startPart endIdx matchedSlash preDotState].
      destruct (negb (before_dot b pd =? 1)) eqn:Q; [reflexivity|].
      apply negb_false_iff in Q. apply Z.eqb_eq in Q. rewrite Q. reflexivity.
    + reflexivity.
Qed.

Lemma forallb_rev {A : Type} (f : A -> bool) (l : list A) :
  forallb f (rev l) = forallb f l.
Proof.
  induction l as [| x l IH]; [reflexivity|].
  cbn [rev forallb]. rewrite forallb_app, IH. cbn [forallb].
  rewrite andb_true_r. apply andb_comm.
Qed.

Lemma before_dot_named (base : jsstring) :
  base <> [] -> before_dot base 0 = 1 \/ before_dot base 0 = -1.
Proof.
  destruct base as [| c b]; [intros H; contradiction|]. intros _.
  cbn [before_dot]. destruct (N.eqb c u_dot); [left | right]; reflexivity.
Qed.

(** The extension of a path that ends in a name [base.e]: the name has no
    separator, [e] no dot, and the name is not [..]. *)
Theorem path_extname_named (pre base e : jsstring) :
  pre = [] \/ (exists d, pre = d ++ [u_slash]) ->
  base <> [] -> no_slash base = true ->
  no_slash e = true -> no_dot e = true ->
  (base = [u_dot] -> e <> []) ->
  path_extname (pre ++ base ++ u_dot :: e) = u_dot :: e.
Proof.
  intros Hpre NE SB SE DE ND. unfold path_extname.
  set (p := pre ++ base ++ u_dot :: e).
  assert (Lp : Z.of_nat (List.length p)
               = Z.of_nat (List.length pre) + Z.of_nat (List.length base) + 1
                 + Z.of_nat (List.length e)).
  { unfold p. rewrite !length_app. cbn [List.length]. lia. }
  assert (Rp : rev p = rev e ++ u_dot :: (rev base ++ rev pre)).
  { unfold p. rewrite !rev_app_distr. cbn [rev].
    rewrite <- !app_assoc. reflexivity. }
  rewrite Rp.
  rewrite (extname_scan_ext (rev e) (rev base ++ rev pre)
             (Z.of_nat (List.length p) - 1)); cycle 1.
  { unfold no_slash. rewrite forallb_rev. exact SE. }
  { unfold no_dot. rewrite forallb_rev. exact DE. }
  { rewrite length_rev. lia. }
  rewrite length_rev.
  rewrite (extname_scan_base base (rev pre) _ _ _ 0 SB); [| lia | lia].
  set (d := Z.of_nat (List.length p) - 1 - Z.of_nat (List.length e)).
  set (en := Z.of_nat (List.length p) - 1 + 1).
  assert (Ed : d = Z.of_nat (List.length (pre ++ base)))
    by (unfold d; rewrite length_app; lia).
  assert (Een : en - d = Z.of_nat (List.length (u_dot :: e)))
    by (unfold en, d; cbn [List.length]; lia).
  (* the state when the scan stops *)
  assert (St : exists sp,
             extname_scan (rev pre) (d - 1 - Z.of_nat (List.length base))
               (mkExtScan d 0 en false (before_dot base 0))
             = mkExtScan d sp en false (before_dot base 0)
             /\ sp = Z.of_nat (List.length pre)).
  { destruct Hpre as [-> | [q ->]].
    - exists 0. split; reflexivity.
    - exists (Z.of_nat (List.length (q ++ [u_slash]))).
      split; [| reflexivity].
      rewrite rev_app_distr. cbn [rev app extname_scan].
      change (N.eqb u_slash u_slash) with true.
      cbn [matchedSlash negb startDot endIdx preDotState].
      f_equal. rewrite Ed, !length_app. cbn [List.length]. lia. }
  destruct St as [sp [-> Esp]].
  cbn [startDot endIdx preDotState startPart].
  assert (C1 : (d =? -1) = false) by (apply Z.eqb_neq; lia).
  assert (C2 : (en =? -1) = false) by (apply Z.eqb_neq; unfold en; lia).
  assert (C3 : (before_dot base 0 =? 0) = false)
    by (apply Z.eqb_neq; destruct (before_dot_named base NE); lia).
  assert (C4 : (before_dot base 0 =? 1) && (d =? en - 1) && (d =? sp + 1)
               = false).
  { apply not_true_is_false. intros H.
    apply andb_true_iff in H. destruct H as [H H3].
    apply andb_true_iff in H. destruct H as [H1 H2].
    apply Z.eqb_eq in H1, H2, H3.
    assert (Le : List.length e = 0%nat) by (unfold en, d in H2; lia).
    assert (Lb : List.length base = 1%nat)
      by (rewrite Ed, length_app in H3; lia).
    destruct e; [| discriminate].
    destruct base as [| c [| c' b]]; try discriminate.
    cbn [before_dot] in H1.
    destruct (N.eqb_spec c u_dot) as [-> | _]; [| discriminate].
    apply (ND eq_refl). reflexivity. }
  rewrite C1, C2, C3, C4. cbn [orb].
  rewrite Een, Ed, !Nat2Z.id.
  unfold p. rewrite app_assoc.
  rewrite skipn_app, skipn_all, Nat.sub_diag. cbn [app skipn].
  apply firstn_all.
Qed.

(* ===================================================================== *)
(** * The endpoints *)
(* ===================================================================== *)

Lemma api_path_iff (p : jsstring) :
  is_api_path p = true
  <-> startsWith p (js "/config") = true
      \/ startsWith p (js "/update-config") = true.
Proof.
  unfold is_api_path. apply orb_true_iff.
Qed.

Lemma cors_kept (status : Z) (ct : string) (data : jsstring) :
  has_cors_headers
    (end_ (writeHead cors_response status [("Content-Type", ct)]%string) data).
Proof. repeat split. Qed.

Lemma readConfig_fallback (dir : jsstring) (w : World) :
  config_unusable dir w ->
  readConfig dir w
  = (JObject [], [ReadFile (CONFIG_FILE dir); LogError "Error reading config:"]).
Proof.
  unfold config_unusable, readConfig, readFileSync.
  destruct (files w (CONFIG_FILE dir)) as [| | raw]; try reflexivity.
  intros H. rewrite H. reflexivity.
Qed.

(** C2.  A POST to /update-config whose body is not well-formed JSON is
    answered with status 400 and the body
    {"status":"error","message":"Invalid JSON"}; the world, and so the
    configuration file, is left as it was, no file is written, and the
    failure is logged. *)
Theorem C2_malformed_body_rejected (dir : jsstring) (w : World) (req : Request) :
  method req = "POST"%string ->
  request_path req = js "/update-config" ->
  JSON_parse (body req) = None ->
  let '(res, w', effs) := handler dir w req in
  statusCode res = 400
  /\ payload res
     = js "{" ++ quoted "status" ++ js ":" ++ quoted "error" ++ js ","
         ++ quoted "message" ++ js ":" ++ quoted "Invalid JSON" ++ js "}"
  /\ get_header (headers res) "Content-Type" = Some "application/json"%string
  /\ w' = w
  /\ (forall p data, ~ In (WriteFile p data) effs)
  /\ In (LogError "Failed to update config:") effs.
Proof.
  intros M P J. rewrite (handler_post_invalid dir w req M P J).
  split; [reflexivity|]. split; [exact error_body_text|].
  split; [reflexivity|]. split; [reflexivity|]. split.
  - intros p data [H | [H | [H | []]]]; discriminate.
  - right. right. left. reflexivity.
Qed.

Lemma C2_witness :
  let req := mkRequest "POST" (js "/update-config?x=1") [js "not json"] in
  let '(res, w', effs) := handler (js "/srv/app") empty_world req in
  statusCode res = 400
  /\ payload res
     = js "{" ++ quoted "status" ++ js ":" ++ quoted "error" ++ js ","
         ++ quoted "message" ++ js ":" ++ quoted "Invalid JSON" ++ js "}"
  /\ get_header (headers res) "Content-Type" = Some "application/json"%string
  /\ w' = empty_world
  /\ (forall p data, ~ In (WriteFile p data) effs)
  /\ In (LogError "Failed to update config:") effs.
Proof.
  exact (C2_malformed_body_rejected (js "/srv/app") empty_world
           (mkRequest "POST" (js "/update-config?x=1") [js "not json"])
           eq_refl eq_refl eq_refl).
Defined.

(** What GET /config answers when [JSON.stringify] returns. *)
Lemma get_config_answered (dir : jsstring) (w : World) (req : Request)
  (text : jsstring) :
  method req = "GET"%string ->
  request_path req = js "/config" ->
  JSON_stringify (S (compact_room w)) (fst (readConfig dir w)) 0 = Ok text ->
  handler dir w req
  = (end_ (writeHead cors_response 200
             [("Content-Type", "application/json")]%string) text,
     w, snd (readConfig dir w)).
Proof.
  intros M P E. rewrite (handler_get_config dir w req M P), E. reflexivity.
Qed.

(** What holds of the claim about the read of the configuration.
    [readConfig] does not propagate an error: it returns the empty object,
    after logging, whenever the file is missing, unreadable or does not
    hold JSON.  GET /config leaves the world as it was; whenever
    [JSON.stringify] of the configuration returns, the answer is sent with
    status 200, the content type application/json and the text
    [JSON.stringify] returned; and it does return, with the body {}, when
    the file is missing, unreadable or does not hold JSON. *)
Lemma config_read_falls_back (dir : jsstring) (w : World) (req : Request) :
  method req = "GET"%string ->
  request_path req = js "/config" ->
  let '(res, w', effs) := handler dir w req in
  w' = w
  /\ (forall text,
        JSON_stringify (S (compact_room w)) (fst (readConfig dir w)) 0 = Ok text ->
        answered_with_json res /\ payload res = text)
  /\ (config_unusable dir w ->
      fst (readConfig dir w) = JObject []
      /\ answered_with_json res
      /\ payload res = js "{}"
      /\ In (LogError "Error reading config:") effs).
Proof.
  intros M P.
  assert (W : snd (fst (handler dir w req)) = w).
  { rewrite (handler_get_config dir w req M P).
    destruct (JSON_stringify _ _ _); reflexivity. }
  assert (A : forall text,
             JSON_stringify (S (compact_room w)) (fst (readConfig dir w)) 0
             = Ok text ->
             answered_with_json (fst (fst (handler dir w req)))
             /\ payload (fst (fst (handler dir w req))) = text
             /\ snd (handler dir w req) = snd (readConfig dir w)).
  { intros text E. rewrite (get_config_answered dir w req text M P E).
    cbn [fst snd payload end_].
    destruct (JSON_stringify_ok _ _ _ _ E) as [T _]. subst text.
    rewrite utf8_text_stringify. repeat split. }
  destruct (handler dir w req) as [[res w'] effs]. cbn [fst snd] in W, A.
  split; [exact W|]. split.
  - intros text E. destruct (A text E) as [A1 [A2 _]]. split; assumption.
  - intros U. pose proof (readConfig_fallback dir w U) as F.
    rewrite F in A. cbn [fst snd] in A.
    destruct (A (js "{}") eq_refl) as [A1 [A2 A3]].
    rewrite F. cbn [fst]. split; [reflexivity|]. split; [exact A1|].
    split; [exact A2|]. rewrite A3. right. left. reflexivity.
Qed.

Example config_read_falls_back_missing :
  let '(res, w', effs) :=
    handler (js "/srv/app") empty_world (mkRequest "GET" (js "/config") []) in
  w' = empty_world
  /\ answered_with_json res
  /\ payload res = js "{}"
  /\ effs = [ReadFile (CONFIG_FILE (js "/srv/app"));
             LogError "Error reading config:"].
Proof. vm_compute. repeat split. Qed.

(** The text of [n + 1] nested arrays is read back as these arrays. *)
Lemma parse_nest (n : nat) (space : nat) :
  JSON_parse (stringify_text (nest n) space) = Some (nest n).
Proof.
  rewrite (JSON_parse_stringify (nest n) space (wf_nest n)), stored_nest.
  reflexivity.
Qed.

(** A configuration file nested deeper than the stack has room for:
    [readConfig] reads it without an error, and GET /config is not
    answered. *)
Lemma deep_config_not_answered (dir : jsstring) (f : jsstring -> FileState)
  (fault : option FileState) (p c : nat) (req : Request) :
  method req = "GET"%string ->
  request_path req = js "/config" ->
  let w := mkWorld (update_file f (CONFIG_FILE dir)
                      (Content (stringify_text (nest (S c)) 2))) fault p c in
  readConfig dir w = (nest (S c), [ReadFile (CONFIG_FILE dir)])
  /\ handler dir w req
     = (writeHead cors_response 200
          [("Content-Type", "application/json")]%string,
        w, [ReadFile (CONFIG_FILE dir); Uncaught "RangeError"]).
Proof.
  intros M P w.
  assert (R : readConfig dir w = (nest (S c), [ReadFile (CONFIG_FILE dir)])).
  { unfold readConfig, readFileSync, w. cbn [files].
    unfold update_file. rewrite jsstring_eqb_refl, parse_nest. reflexivity. }
  split; [exact R|].
  rewrite (handler_get_config_thrown dir w req M P).
  - rewrite R. reflexivity.
  - rewrite R. cbn [fst]. rewrite depth_nest. unfold w. cbn [compact_room]. lia.
Qed.

(** C3.  The claim fails on the code, by a defect of the code:
    [readConfig] never propagates an error, but the call
    [JSON.stringify(config)] of the GET /config branch stands outside any
    [try], where the POST branch has its own inside one.  A configuration
    file that holds well-formed JSON nested deeper than the stack has room
    for is read without any error; [JSON.stringify] then throws a
    RangeError, the exception leaves the listener and GET /config is not
    answered.  With room for two levels the file [[[]]] does it, and
    whatever the room is, so does a file nested two levels deeper. *)
Theorem C3_deep_config_is_not_answered :
  (let w := mkWorld (update_file (fun _ => Missing) (CONFIG_FILE (js "/srv/app"))
                       (Content (js "[[[]]]")))
              None 1 1 in
   let '(res, _, effs) :=
     handler (js "/srv/app") w (mkRequest "GET" (js "/config") []) in
   readConfig (js "/srv/app") w
   = (JArray [JArray [JArray []]], [ReadFile (CONFIG_FILE (js "/srv/app"))])
   /\ finished res = false
   /\ effs = [ReadFile (CONFIG_FILE (js "/srv/app")); Uncaught "RangeError"])
  /\ (forall (dir : jsstring) (f : jsstring -> FileState) (p c : nat),
        let w := mkWorld (update_file f (CONFIG_FILE dir)
                            (Content (stringify_text (nest (S c)) 2)))
                   None p c in
        let '(res, _, effs) :=
          handler dir w (mkRequest "GET" (js "/config") []) in
        readConfig dir w = (nest (S c), [ReadFile (CONFIG_FILE dir)])
        /\ finished res = false
        /\ effs = [ReadFile (CONFIG_FILE dir); Uncaught "RangeError"]).
Proof.
  split.
  - cbv zeta. vm_compute. repeat split.
  - intros dir f p c.
    destruct (deep_config_not_answered dir f None p c
                (mkRequest "GET" (js "/config") []) eq_refl eq_refl)
      as [R H].
    cbv zeta. rewrite H, R. repeat split.
Qed.

Lemma not_allowed_response (dir : jsstring) (w : World) (req : Request) :
  method req <> "GET"%string ->
  ~ (method req = "POST"%string /\ request_path req = js "/update-config") ->
  ~ (method req = "OPTIONS"%string
     /\ (startsWith (request_path req) (js "/config") = true
         \/ startsWith (request_path req) (js "/update-config") = true)) ->
  let '(res, w', effs) := handler dir w req in
  statusCode res = 405
  /\ payload res = js "Method Not Allowed"
  /\ get_header (headers res) "Content-Type" = Some "text/plain"%string
  /\ w' = w
  /\ effs = [].
Proof.
  intros G P O.
  rewrite (handler_not_allowed dir w req G P).
  - split; [reflexivity|]. split; [reflexivity|]. split; [| split; reflexivity].
    unfold first_response. destruct (is_api_path (request_path req)); reflexivity.
  - intros [M A]. apply O. split; [exact M|]. apply api_path_iff. exact A.
Qed.

(** C5.  A request whose method is not GET, that is not a POST to
    /update-config and not an OPTIONS on a path starting with /config or
    /update-config, is answered with status 405 and a plain-text body; the
    body of the request is neither read nor parsed (the handler performs
    no effect).  In particular a PUT to any path is answered with 405. *)
Theorem C5_method_not_allowed (dir : jsstring) (w : World) (req : Request) :
  (method req <> "GET"%string ->
   ~ (method req = "POST"%string /\ request_path req = js "/update-config") ->
   ~ (method req = "OPTIONS"%string
      /\ (startsWith (request_path req) (js "/config") = true
          \/ startsWith (request_path req) (js "/update-config") = true)) ->
   let '(res, w', effs) := handler dir w req in
   statusCode res = 405
   /\ payload res = js "Method Not Allowed"
   /\ get_header (headers res) "Content-Type" = Some "text/plain"%string
   /\ w' = w
   /\ effs = [])
  /\ (method req = "PUT"%string ->
      statusCode (fst (fst (handler dir w req))) = 405).
Proof.
  split.
  - apply not_allowed_response.
  - intros M.
    assert (H := not_allowed_response dir w req).
    rewrite M in H.
    specialize (H ltac:(discriminate)
                  ltac:(intros [X _]; discriminate)
                  ltac:(intros [X _]; discriminate)).
    destruct (handler dir w req) as [[res w'] effs]. apply H.
Qed.

Lemma C5_witness :
  let req := mkRequest "PUT" (js "/config") [js "{}"] in
  let '(res, w', effs) := handler (js "/srv/app") empty_world req in
  statusCode res = 405
  /\ payload res = js "Method Not Allowed"
  /\ get_header (headers res) "Content-Type" = Some "text/plain"%string
  /\ w' = empty_world
  /\ effs = [].
Proof.
  refine (proj1 (C5_method_not_allowed (js "/srv/app") empty_world
                   (mkRequest "PUT" (js "/config") [js "{}"])) _ _ _).
  - discriminate.
  - intros [X _]; discriminate.
  - intros [X _]; discriminate.
Defined.



(** C9.  When the body of a POST to /update-config is well-formed JSON
    but the write of the file fails, the answer is the status 400 and the
    body {"status":"error","message":"Invalid JSON"}, the very response a
    malformed body gets. *)
Theorem C9_write_failure_reported_as_invalid_json
  (dir : jsstring) (w : World) (req : Request) (V : JSValue) (st : FileState) :
  method req = "POST"%string ->
  request_path req = js "/update-config" ->
  JSON_parse (body req) = Some V ->
  write_fault w = Some st ->
  let res := fst (fst (handler dir w req)) in
  statusCode res = 400
  /\ payload res
     = js "{" ++ quoted "status" ++ js ":" ++ quoted "error" ++ js ","
         ++ quoted "message" ++ js ":" ++ quoted "Invalid JSON" ++ js "}"
  /\ (forall bad : Request,
        method bad = "POST"%string ->
        request_path bad = js "/update-config" ->
        JSON_parse (body bad) = None ->
        fst (fst (handler dir w bad)) = res).
Proof.
  intros M P J F. cbv zeta.
  assert (R : fst (fst (handler dir w req))
              = end_ (writeHead cors_response 400
                        [("Content-Type", "application/json")]%string)
                  error_body).
  { destruct (Nat.le_gt_cases (depth V) (S (pretty_room w))) as [D | D].
    - rewrite (handler_post_write_error dir w req V st M P J D F). reflexivity.
    - rewrite (handler_post_thrown dir w req V M P J D). reflexivity. }
  rewrite R.
  split; [reflexivity|]. split; [exact error_body_text|].
  intros bad M' P' J'. rewrite (handler_post_invalid dir w bad M' P' J').
  reflexivity.
Qed.

Lemma C9_witness :
  let w := mkWorld (fun _ => Missing) (Some Unreadable) 1000 1000 in
  let req := mkRequest "POST" (js "/update-config") [js "[1, 2]"] in
  let res := fst (fst (handler (js "/srv/app") w req)) in
  statusCode res = 400
  /\ payload res
     = js "{" ++ quoted "status" ++ js ":" ++ quoted "error" ++ js ","
         ++ quoted "message" ++ js ":" ++ quoted "Invalid JSON" ++ js "}"
  /\ (forall bad : Request,
        method bad = "POST"%string ->
        request_path bad = js "/update-config" ->
        JSON_parse (body bad) = None ->
        fst (fst (handler (js "/srv/app") w bad)) = res).
Proof.
  exact (C9_write_failure_reported_as_invalid_json (js "/srv/app")
           (mkWorld (fun _ => Missing) (Some Unreadable) 1000 1000)
           (mkRequest "POST" (js "/update-config") [js "[1, 2]"])
           (JArray [JNumber (Finite false 4503599627370496 (-52));
                    JNumber (Finite false 4503599627370496 (-51))])
           Unreadable eq_refl eq_refl eq_refl eq_refl).
Defined.

(** C10.  Whatever the method, the response to a request whose path
    (query string removed) starts with /config or /update-config carries
    the three CORS headers; /configuration is such a path. *)
Theorem C10_cors_on_every_api_path (dir : jsstring) (w : World) (req : Request) :
  startsWith (request_path req) (js "/config") = true
  \/ startsWith (request_path req) (js "/update-config") = true ->
  has_cors_headers (fst (fst (handler dir w req))).
Proof.
  intros A. apply api_path_iff in A.
  destruct (handler_branches dir w req)
    as [[_ [_ H]] | [[_ [_ [_ H]]] | [[_ [_ [_ H]]] | [[_ [_ [fp H]]]
       | [[_ [_ [_ H]]] | [[_ [_ [data [_ [_ [_ H]]]]]]
       | [[_ [_ [data [st [_ [_ [_ H]]]]]]] | [[_ [_ [data [_ [_ H]]]]]
       | [_ [_ H]]]]]]]]]]; rewrite H; cbn [fst].
  - repeat split.
  - apply cors_kept.
  - repeat split.
  - unfold first_response. rewrite A. unfold serveStatic.
    destruct (files w _); repeat split.
  - apply cors_kept.
  - apply cors_kept.
  - apply cors_kept.
  - apply cors_kept.
  - unfold first_response. rewrite A. apply cors_kept.
Qed.

Lemma C10_witness :
  has_cors_headers
    (fst (fst (handler (js "/srv/app") empty_world
                 (mkRequest "GET" (js "/configuration?lang=en") [])))).
Proof.
  exact (C10_cors_on_every_api_path (js "/srv/app") empty_world
           (mkRequest "GET" (js "/configuration?lang=en") [])
           (or_introl eq_refl)).
Defined.

(* ===================================================================== *)
(** * The round trip of the configuration *)
(* ===================================================================== *)

Lemma plus_zero_idem (x : Number) : plus_zero (plus_zero x) = plus_zero x.
Proof.
  destruct x as [| neg | neg m e]; try reflexivity.
  unfold plus_zero. destruct (m =? 0) eqn:E; cbn; rewrite E; reflexivity.
Qed.

Lemma isFinite_plus_zero (x : Number) : isFinite (plus_zero x) = isFinite x.
Proof.
  destruct x as [| neg | neg m e]; try reflexivity.
  unfold plus_zero. destruct (m =? 0); reflexivity.
Qed.

Lemma wf_plus_zero (x : Number) :
  wf_Number x = true -> wf_Number (plus_zero x) = true.
Proof.
  destruct x as [| neg | neg m e]; try (intros; reflexivity).
  cbn. destruct (m =? 0); cbn; intros H; exact H.
Qed.

(** Writing what was read back changes nothing more. *)
Lemma stored_idem (v : JSValue) : stored (stored v) = stored v.
Proof.
  induction v as [| b | x | s | items IH | props IH] using JSValue_ind;
    try reflexivity.
  - cbn [stored]. unfold stored_number.
    destruct (isFinite x) eqn:F; [| reflexivity].
    cbn [stored]. unfold stored_number.
    rewrite isFinite_plus_zero, F, plus_zero_idem. reflexivity.
  - cbn [stored]. f_equal.
    induction IH as [| v l Hv Hl IHl]; [reflexivity|].
    cbn [map]. rewrite Hv, IHl. reflexivity.
  - cbn [stored]. f_equal.
    induction IH as [| [k v] l Hv Hl IHl]; [reflexivity|].
    cbn [map_values map fst snd] in *. fold (map_values stored l).
    fold (map_values stored (map_values stored l)).
    rewrite Hv, IHl. reflexivity.
Qed.

Lemma wf_stored (v : JSValue) : wf_value v = true -> wf_value (stored v) = true.
Proof.
  induction v as [| b | x | s | items IH | props IH] using JSValue_ind;
    try (intros; reflexivity).
  - cbn [wf_value stored]. unfold stored_number. intros W.
    destruct (isFinite x); [| reflexivity].
    cbn [wf_value]. apply wf_plus_zero. exact W.
  - cbn [wf_value stored]. intros W.
    induction IH as [| v l Hv Hl IHl]; [reflexivity|].
    cbn [forallb map] in *. apply andb_true_iff in W. destruct W as [W1 W2].
    rewrite (Hv W1), (IHl W2). reflexivity.
  - cbn [wf_value stored]. intros W.
    apply andb_true_iff in W. destruct W as [Ok W].
    rewrite props_ok_map, Ok. cbn [andb]. clear Ok.
    induction IH as [| [k v] l Hv Hl IHl]; [reflexivity|].
    cbn [forallb map_values map fst snd] in *. fold (map_values stored l).
    apply andb_true_iff in W. destruct W as [W1 W2].
    rewrite (Hv W1). cbn [andb]. apply IHl. exact W2.
Qed.

Lemma update_file_same (f : jsstring -> FileState) (p : jsstring) (st : FileState) :
  update_file f p st p = st.
Proof. unfold update_file. rewrite jsstring_eqb_refl. reflexivity. Qed.

Lemma update_file_other (f : jsstring -> FileState) (p q : jsstring)
  (st : FileState) :
  jsstring_eqb q p = false -> update_file f p st q = f q.
Proof. intros H. unfold update_file. rewrite H. reflexivity. Qed.

Lemma NumberToString_plus_zero (x : Number) :
  NumberToString (plus_zero x) = NumberToString x.
Proof.
  destruct x as [| neg | neg m e]; try reflexivity.
  unfold plus_zero. destruct (m =? 0) eqn:E; [| reflexivity].
  cbn [NumberToString]. rewrite E. reflexivity.
Qed.

(** A value and what is read back of it have the same text. *)
Lemma json_text_stored (v : JSValue) :
  forall gap indent : jsstring,
    json_text gap indent (stored v) = json_text gap indent v.
Proof.
  induction v as [| b | x | s | items IH | props IH] using JSValue_ind;
    intros gap indent; try reflexivity.
  - cbn [stored json_text]. unfold stored_number.
    destruct (isFinite x) eqn:F; [| reflexivity].
    cbn [json_text]. rewrite isFinite_plus_zero, F.
    apply NumberToString_plus_zero.
  - cbn [stored json_text]. f_equal. rewrite map_map.
    apply map_ext_Forall. eapply Forall_impl; [| exact IH].
    intros v Hv. apply Hv.
  - cbn [stored json_text]. f_equal. unfold map_values.
    rewrite map_map. apply map_ext_Forall. eapply Forall_impl; [| exact IH].
    intros [k v] Hv. cbn [fst snd] in *. rewrite Hv. reflexivity.
Qed.

Lemma stringify_text_stored (v : JSValue) (space : nat) :
  stringify_text (stored v) space = stringify_text v space.
Proof. apply json_text_stored. Qed.

(** What [readConfig] finds once the text of [V] is in the file. *)
Lemma readConfig_written (dir : jsstring) (f : jsstring -> FileState)
  (fault : option FileState) (p c : nat) (V : JSValue) :
  wf_value V = true ->
  readConfig dir
    (mkWorld (update_file f (CONFIG_FILE dir) (Content (stringify_text V 2)))
       fault p c)
  = (stored V, [ReadFile (CONFIG_FILE dir)]).
Proof.
  intros W. unfold readConfig, readFileSync. cbn [files].
  rewrite update_file_same, (JSON_parse_stringify V 2 W). reflexivity.
Qed.

(** A POST to /update-config that is answered with 200: the value was
    serialised and written. *)
Lemma post_succeeded
  (dir : jsstring) (w : World) (post : Request) (V : JSValue) :
  method post = "POST"%string ->
  request_path post = js "/update-config" ->
  JSON_parse (body post) = Some V ->
  statusCode (fst (fst (handler dir w post))) = 200 ->
  (depth V <= S (pretty_room w))%nat
  /\ write_fault w = None
  /\ handler dir w post
     = (end_ (writeHead cors_response 200
                [("Content-Type", "application/json")]%string) success_body,
        mkWorld (update_file (files w) (CONFIG_FILE dir)
                   (Content (stringify_text V 2))) None
          (pretty_room w) (compact_room w),
        [ReadBody; ParseBody;
         WriteFile (CONFIG_FILE dir) (stringify_text V 2)]).
Proof.
  intros M P J Hs.
  destruct (Nat.le_gt_cases (depth V) (S (pretty_room w))) as [D | D].
  - destruct (write_fault w) as [st |] eqn:F.
    + rewrite (handler_post_write_error dir w post V st M P J D F) in Hs.
      discriminate.
    + split; [exact D|]. split; [reflexivity|].
      apply handler_post_written; assumption.
  - rewrite (handler_post_thrown dir w post V M P J D) in Hs. discriminate.
Qed.

(** A GET of /config that is answered, after the text of [V] was written:
    the answer is the text of [V]. *)
Lemma get_written
  (dir : jsstring) (f : jsstring -> FileState) (fault : option FileState)
  (p c : nat) (get : Request) (V : JSValue) :
  method get = "GET"%string ->
  request_path get = js "/config" ->
  wf_value V = true ->
  let w := mkWorld (update_file f (CONFIG_FILE dir)
                      (Content (stringify_text V 2))) fault p c in
  finished (fst (fst (handler dir w get))) = true ->
  (depth V <= S c)%nat
  /\ handler dir w get
     = (end_ (writeHead cors_response 200
                [("Content-Type", "application/json")]%string)
          (stringify_text V 0),
        w, [ReadFile (CONFIG_FILE dir)]).
Proof.
  intros M P W w F.
  pose proof (readConfig_written dir f fault p c V W) as R. fold w in R.
  destruct (Nat.le_gt_cases (depth (fst (readConfig dir w)))
              (S (compact_room w))) as [D | D].
  - rewrite (handler_get_config_answered dir w get M P D).
    rewrite R in D |- *. cbn [fst snd] in *. rewrite depth_stored in D.
    rewrite stringify_text_stored. split; [exact D | reflexivity].
  - rewrite (handler_get_config_thrown dir w get M P D) in F. discriminate.
Qed.

(** The round trip as far as it goes: a POST that succeeds writes the
    text of the value, and a GET of /config that is then answered returns
    the text of the value, which parses to the value with null for an
    infinity and 0 for -0. *)
Lemma post_then_get
  (dir : jsstring) (w : World) (post get : Request) (V : JSValue) :
  method post = "POST"%string ->
  request_path post = js "/update-config" ->
  method get = "GET"%string ->
  request_path get = js "/config" ->
  JSON_parse (body post) = Some V ->
  statusCode (fst (fst (handler dir w post))) = 200 ->
  let w1 := snd (fst (handler dir w post)) in
  files w1 (CONFIG_FILE dir) = Content (stringify_text V 2)
  /\ (forall p, jsstring_eqb p (CONFIG_FILE dir) = false -> files w1 p = files w p)
  /\ write_fault w1 = None
  /\ pretty_room w1 = pretty_room w
  /\ (finished (fst (fst (handler dir w1 get))) = true ->
      handler dir w1 get
      = (end_ (writeHead cors_response 200
                 [("Content-Type", "application/json")]%string)
           (stringify_text V 0),
         w1, [ReadFile (CONFIG_FILE dir)])
      /\ JSON_parse (stringify_text V 0) = Some (stored V)).
Proof.
  intros M1 P1 M2 P2 J Hs.
  destruct (post_succeeded dir w post V M1 P1 J Hs) as [D [F H]].
  rewrite H. cbn [fst snd files write_fault pretty_room].
  split; [apply update_file_same|]. split.
  { intros p E. apply update_file_other. exact E. }
  split; [reflexivity|]. split; [reflexivity|].
  intros A.
  destruct (get_written dir (files w) None (pretty_room w) (compact_room w)
              get V M2 P2 (JSON_parse_wf _ _ J) A) as [_ G].
  split; [exact G|].
  apply JSON_parse_stringify. apply (JSON_parse_wf _ _ J).
Qed.

(** C1 (as amended).  For every body whose chunks do not end inside a
    character, that is well-formed JSON and whose value V holds no number
    beyond the range of binary64: when the POST of it to /update-config
    succeeds and the GET of /config that follows is answered, the answer
    has status 200 and a text that parses to a value deep-equal to V
    (numbers compared with ===), on any file system.  (Nothing is said of
    a GET during which [JSON.stringify] runs out of stack.) *)
Theorem C1_round_trip_of_finite_values
  (dir : jsstring) (w : World) (post get : Request) (V : JSValue) :
  method post = "POST"%string ->
  request_path post = js "/update-config" ->
  method get = "GET"%string ->
  request_path get = js "/config" ->
  whole_chunks (chunks post) = true ->
  JSON_parse (posted_text post) = Some V ->
  all_finite V = true ->
  round_trip_if_answered dir w post get V.
Proof.
  intros M1 P1 M2 P2 Wh J F. unfold round_trip_if_answered.
  rewrite <- (body_whole post Wh) in J.
  pose proof (post_then_get dir w post get V M1 P1 M2 P2 J) as H.
  destruct (handler dir w post) as [[r1 w1] e1]. cbn [fst snd] in H.
  intros Hs. destruct (H Hs) as [_ [_ [_ [_ G]]]].
  destruct (handler dir w1 get) as [[r2 w2] e2]. cbn [fst] in G.
  intros A. destruct (G A) as [E R]. inversion E; subst r2.
  split; [reflexivity|].
  exists (stored V). cbn [payload end_]. rewrite utf8_text_stringify.
  split; [exact R|].
  rewrite (deep_equal_stored V (JSON_parse_wf _ _ J)). exact F.
Qed.

Lemma C1_witness :
  let post := mkRequest "POST" (js "/update-config")
                [[123; 34; 110; 111; 109]; [34; 58; 34; 195; 169; 34; 125]]%N in
  let get := mkRequest "GET" (js "/config") [] in
  let w1 := snd (fst (handler (js "/srv/app") empty_world post)) in
  statusCode (fst (fst (handler (js "/srv/app") empty_world post))) = 200
  /\ finished (fst (fst (handler (js "/srv/app") w1 get))) = true
  /\ payload (fst (fst (handler (js "/srv/app") w1 get)))
     = js "{" ++ quoted "nom" ++ js ":" ++ [34; 233; 34]%N ++ js "}"
  /\ round_trip_if_answered (js "/srv/app") empty_world post get
       (JObject [(js "nom", JString [233%N])]).
Proof.
  split; [vm_compute; reflexivity|]. split; [vm_compute; reflexivity|].
  split; [vm_compute; reflexivity|].
  exact (C1_round_trip_of_finite_values (js "/srv/app") empty_world
           (mkRequest "POST" (js "/update-config")
              [[123; 34; 110; 111; 109]; [34; 58; 34; 195; 169; 34; 125]]%N)
           (mkRequest "GET" (js "/config") [])
           (JObject [(js "nom", JString [233%N])])
           eq_refl eq_refl eq_refl eq_refl eq_refl eq_refl eq_refl).
Defined.

Lemma ascii_nest (n : nat) : ascii_bytes (stringify_text (nest n) 0) = true.
Proof.
  unfold stringify_text. cbn [Nat.min repeat].
  induction n as [| n IH]; [reflexivity|].
  cbn [nest json_text map wrap is_empty join app].
  unfold ascii_bytes in *. cbn [forallb]. rewrite forallb_app, IH.
  reflexivity.
Qed.

(** A body nested one level deeper than the stack has room for at the
    GET, and no deeper than it has at the POST: the POST succeeds and the
    GET of /config is not answered. *)
Lemma deep_body_not_answered (dir : jsstring) (f : jsstring -> FileState)
  (c : nat) :
  let w := mkWorld f None (S c) c in
  let post := mkRequest "POST" (js "/update-config")
                [stringify_text (nest (S c)) 0] in
  let get := mkRequest "GET" (js "/config") [] in
  whole_chunks (chunks post) = true
  /\ JSON_parse (posted_text post) = Some (nest (S c))
  /\ all_finite (nest (S c)) = true
  /\ statusCode (fst (fst (handler dir w post))) = 200
  /\ finished (fst (fst (handler dir (snd (fst (handler dir w post))) get)))
     = false.
Proof.
  intros w post get.
  destruct (utf8_decode_ascii _ (ascii_nest (S c))) as [A1 A2].
  assert (Wh : whole_chunks (chunks post) = true).
  { unfold post. cbn [chunks whole_chunks forallb]. rewrite A2. reflexivity. }
  assert (B : body post = stringify_text (nest (S c)) 0).
  { apply body_ascii. apply ascii_nest. }
  assert (J : JSON_parse (body post) = Some (nest (S c))).
  { rewrite B. apply parse_nest. }
  split; [exact Wh|]. split; [rewrite <- (body_whole post Wh); exact J|].
  split; [apply all_finite_nest|].
  assert (D : (depth (nest (S c)) <= S (pretty_room w))%nat).
  { rewrite depth_nest. unfold w. cbn [pretty_room]. lia. }
  rewrite (handler_post_written dir w post (nest (S c)) eq_refl eq_refl J D
             eq_refl).
  cbn [fst snd]. split; [reflexivity|].
  destruct (deep_config_not_answered dir (files w) None (pretty_room w) c get
              eq_refl eq_refl) as [_ H].
  unfold w in H |- *. cbn [files pretty_room compact_room] in H |- *.
  rewrite H. reflexivity.
Qed.

(** C1, as stated, fails, in three ways.  The body 1e400 is well-formed
    JSON, the POST succeeds, and the GET returns null.  The body "é" that
    arrives in two chunks, cut between the two bytes of é, is well-formed
    JSON; the POST succeeds and the GET returns a string of two U+FFFD.
    And whatever room the stack has, a body of arrays nested one level
    deeper than [JSON.stringify] can go at the GET is accepted by the POST
    and then the GET is not answered. *)
Lemma C1_counterexample :
  (let post := mkRequest "POST" (js "/update-config") [js "1e400"] in
   let get := mkRequest "GET" (js "/config") [] in
   JSON_parse (posted_text post) = Some (JNumber (Infinity false))
   /\ statusCode (fst (fst (handler (js "/srv/app") empty_world post))) = 200
   /\ ~ round_trip (js "/srv/app") empty_world post get
          (JNumber (Infinity false)))
  /\ (let post := mkRequest "POST" (js "/update-config")
                    [[34; 195]; [169; 34]]%N in
      let get := mkRequest "GET" (js "/config") [] in
      JSON_parse (posted_text post) = Some (JString [233%N])
      /\ statusCode (fst (fst (handler (js "/srv/app") empty_world post))) = 200
      /\ ~ round_trip (js "/srv/app") empty_world post get (JString [233%N]))
  /\ (forall (dir : jsstring) (f : jsstring -> FileState) (c : nat),
        let w := mkWorld f None (S c) c in
        let post := mkRequest "POST" (js "/update-config")
                      [stringify_text (nest (S c)) 0] in
        let get := mkRequest "GET" (js "/config") [] in
        JSON_parse (posted_text post) = Some (nest (S c))
        /\ statusCode (fst (fst (handler dir w post))) = 200
        /\ ~ round_trip dir w post get (nest (S c))).
Proof.
  split; [| split].
  - cbv zeta. split; [vm_compute; reflexivity|].
    split; [vm_compute; reflexivity|].
    unfold round_trip. intros H. vm_compute in H.
    destruct (H eq_refl) as [_ [_ [V' [E D]]]].
    inversion E; subst. discriminate.
  - cbv zeta. split; [vm_compute; reflexivity|].
    split; [vm_compute; reflexivity|].
    unfold round_trip. intros H. vm_compute in H.
    destruct (H eq_refl) as [_ [_ [V' [E D]]]].
    inversion E; subst. discriminate.
  - intros dir f c.
    destruct (deep_body_not_answered dir f c) as [_ [J [_ [Hs A]]]].
    cbv zeta. split; [exact J|]. split; [exact Hs|].
    unfold round_trip.
    destruct (handler dir (mkWorld f None (S c) c)
                (mkRequest "POST" (js "/update-config")
                   [stringify_text (nest (S c)) 0])) as [[r1 w1] e1].
    cbn [fst snd] in Hs, A.
    destruct (handler dir w1 (mkRequest "GET" (js "/config") []))
      as [[r2 w2] e2].
    cbn [fst] in A. intros H. destruct (H Hs) as [Fin _].
    rewrite A in Fin. discriminate.
Qed.

(** The same POST again changes no file, whatever the value. *)
Lemma second_post_changes_nothing
  (dir : jsstring) (w : World) (post : Request) (V : JSValue) :
  method post = "POST"%string ->
  request_path post = js "/update-config" ->
  JSON_parse (body post) = Some V ->
  statusCode (fst (fst (handler dir w post))) = 200 ->
  let w1 := snd (fst (handler dir w post)) in
  let w2 := snd (fst (handler dir w1 post)) in
  (forall p, files w2 p = files w1 p)
  /\ files w2 (CONFIG_FILE dir) = Content (stringify_text V 2).
Proof.
  intros M P J Hs.
  destruct (post_succeeded dir w post V M P J Hs) as [D [F H]].
  rewrite H. cbn [fst snd].
  rewrite (handler_post_written dir
             (mkWorld (update_file (files w) (CONFIG_FILE dir)
                         (Content (stringify_text V 2))) None
                (pretty_room w) (compact_room w))
             post V M P J D eq_refl).
  cbn [fst snd files]. split.
  - intros p. unfold update_file. destruct (jsstring_eqb p (CONFIG_FILE dir)); reflexivity.
  - apply update_file_same.
Qed.

(** C7 (as amended).  For every body whose chunks do not end inside a
    character, that is well-formed JSON and whose value V holds no number
    beyond the range of binary64, the same successful POST to
    /update-config done twice leaves every file as it was after the first
    POST, and the configuration file holds a text that parses to a value
    deep-equal to V (numbers compared with ===). *)
Theorem C7_repeated_post_of_finite_values
  (dir : jsstring) (w : World) (post : Request) (V : JSValue) :
  method post = "POST"%string ->
  request_path post = js "/update-config" ->
  whole_chunks (chunks post) = true ->
  JSON_parse (posted_text post) = Some V ->
  all_finite V = true ->
  idempotent_post dir w post V.
Proof.
  intros M P Wh J F. unfold idempotent_post.
  rewrite <- (body_whole post Wh) in J.
  pose proof (second_post_changes_nothing dir w post V M P J) as S2.
  destruct (handler dir w post) as [[r1 w1] e1]. cbn [fst snd] in S2.
  destruct (handler dir w1 post) as [[r2 w2] e2]. cbn [fst snd] in S2.
  intros Hs _. destruct (S2 Hs) as [Same Held]. split; [exact Same|].
  exists (stringify_text V 2), (stored V).
  split; [exact Held|]. split.
  - apply JSON_parse_stringify. apply (JSON_parse_wf _ _ J).
  - rewrite (deep_equal_stored V (JSON_parse_wf _ _ J)). exact F.
Qed.

Lemma C7_witness :
  let post := mkRequest "POST" (js "/update-config")
                [js "[0.1, "; js "true, null]"] in
  let w1 := snd (fst (handler (js "/srv/app") empty_world post)) in
  statusCode (fst (fst (handler (js "/srv/app") empty_world post))) = 200
  /\ statusCode (fst (fst (handler (js "/srv/app") w1 post))) = 200
  /\ idempotent_post (js "/srv/app") empty_world post
       (JArray [JNumber (Finite false 7205759403792794 (-56)); JBool true;
                JNull]).
Proof.
  split; [vm_compute; reflexivity|]. split; [vm_compute; reflexivity|].
  exact (C7_repeated_post_of_finite_values (js "/srv/app") empty_world
           (mkRequest "POST" (js "/update-config")
              [js "[0.1, "; js "true, null]"])
           (JArray [JNumber (Finite false 7205759403792794 (-56)); JBool true; JNull])
           eq_refl eq_refl eq_refl eq_refl eq_refl).
Defined.

(** C7, as stated, fails, in two ways.  After the body 1e400 is posted
    twice, both times with success, the file holds null.  After the body
    "é", cut between the two bytes of é, is posted twice, both times with
    success, the file holds a string of two U+FFFD.  Neither is deep-equal
    to the value posted. *)
Lemma C7_counterexample :
  (let post := mkRequest "POST" (js "/update-config") [js "1e400"] in
   JSON_parse (posted_text post) = Some (JNumber (Infinity false))
   /\ ~ idempotent_post (js "/srv/app") empty_world post
          (JNumber (Infinity false)))
  /\ (let post := mkRequest "POST" (js "/update-config")
                    [[34; 195]; [169; 34]]%N in
      JSON_parse (posted_text post) = Some (JString [233%N])
      /\ ~ idempotent_post (js "/srv/app") empty_world post (JString [233%N])).
Proof.
  split.
  - cbv zeta. split; [vm_compute; reflexivity|].
    unfold idempotent_post.
    pose proof (second_post_changes_nothing (js "/srv/app") empty_world
                  (mkRequest "POST" (js "/update-config") [js "1e400"])
                  (JNumber (Infinity false)) eq_refl eq_refl eq_refl eq_refl)
      as [_ Held].
    destruct (handler (js "/srv/app") empty_world
                (mkRequest "POST" (js "/update-config") [js "1e400"]))
      as [[r1 w1] e1] eqn:H1.
    assert (S1 : statusCode r1 = 200)
      by (vm_compute in H1; inversion H1; reflexivity).
    cbn [fst snd] in Held.
    destruct (handler (js "/srv/app") w1
                (mkRequest "POST" (js "/update-config") [js "1e400"]))
      as [[r2 w2] e2] eqn:H2.
    assert (S2 : statusCode r2 = 200).
    { pose proof (f_equal (fun x => statusCode (fst (fst x))) H2) as Q.
      cbn [fst] in Q. rewrite <- Q.
      vm_compute in H1. inversion H1; subst w1. reflexivity. }
    cbn [fst snd] in Held.
    intros H. destruct (H S1 S2) as [_ [raw [V' [E1 [E2 D]]]]].
    rewrite Held in E1. inversion E1; subst raw.
    vm_compute in E2. inversion E2; subst V'. discriminate.
  - cbv zeta. split; [vm_compute; reflexivity|].
    unfold idempotent_post.
    pose proof (second_post_changes_nothing (js "/srv/app") empty_world
                  (mkRequest "POST" (js "/update-config")
                     [[34; 195]; [169; 34]]%N)
                  (JString [65533; 65533]%N) eq_refl eq_refl eq_refl eq_refl)
      as [_ Held].
    destruct (handler (js "/srv/app") empty_world
                (mkRequest "POST" (js "/update-config")
                   [[34; 195]; [169; 34]]%N))
      as [[r1 w1] e1] eqn:H1.
    assert (S1 : statusCode r1 = 200)
      by (vm_compute in H1; inversion H1; reflexivity).
    cbn [fst snd] in Held.
    destruct (handler (js "/srv/app") w1
                (mkRequest "POST" (js "/update-config")
                   [[34; 195]; [169; 34]]%N))
      as [[r2 w2] e2] eqn:H2.
    assert (S2 : statusCode r2 = 200).
    { pose proof (f_equal (fun x => statusCode (fst (fst x))) H2) as Q.
      cbn [fst] in Q. rewrite <- Q.
      vm_compute in H1. inversion H1; subst w1. reflexivity. }
    cbn [fst snd] in Held.
    intros H. destruct (H S1 S2) as [_ [raw [V' [E1 [E2 D]]]]].
    rewrite Held in E1. inversion E1; subst raw.
    vm_compute in E2. inversion E2; subst V'. discriminate.
Qed.

(* ===================================================================== *)
(** * Content types *)
(* ===================================================================== *)

Example extname_index : path_extname (js "/srv/app/public/index.html") = js ".html".
Proof. reflexivity. Qed.

Example extname_hidden : path_extname (js "/home/user/.bashrc") = [].
Proof. reflexivity. Qed.

Example extname_directory_dot : path_extname (js "/a/b.c/readme") = [].
Proof. reflexivity. Qed.

Example extname_upper : path_extname (js "photo.JPEG") = js ".JPEG".
Proof. reflexivity. Qed.

Lemma lookup_type_none (t : list (jsstring * string)) (ext : jsstring) :
  ~ In ext (map fst t) -> lookup_type t ext = None.
Proof.
  induction t as [| [k v] t IH]; [reflexivity|].
  cbn [map fst In lookup_type]. intros H.
  destruct (jsstring_eqb k ext) eqn:E.
  - apply jsstring_eqb_eq in E. exfalso. apply H. left. exact E.
  - apply IH. intros I. apply H. right. exact I.
Qed.

(** C6 (as amended).  [getContentType] looks the extension of the path up
    in the table after putting it in lower case: .html, .css, .js, .json,
    .png, .jpg, .jpeg, .gif, .svg and .ico, in any case, give text/html,
    text/css, application/javascript, application/json, image/png,
    image/jpeg, image/jpeg, image/gif, image/svg+xml and image/x-icon;
    every other extension, and a missing one, gives
    application/octet-stream. *)
Theorem C6_content_type_by_lowercase_extension (filePath : jsstring) :
  let ext := toLowerCase (path_extname filePath) in
  (ext = js ".html" -> getContentType filePath = "text/html"%string)
  /\ (ext = js ".css" -> getContentType filePath = "text/css"%string)
  /\ (ext = js ".js" -> getContentType filePath = "application/javascript"%string)
  /\ (ext = js ".json" -> getContentType filePath = "application/json"%string)
  /\ (ext = js ".png" -> getContentType filePath = "image/png"%string)
  /\ (ext = js ".jpg" -> getContentType filePath = "image/jpeg"%string)
  /\ (ext = js ".jpeg" -> getContentType filePath = "image/jpeg"%string)
  /\ (ext = js ".gif" -> getContentType filePath = "image/gif"%string)
  /\ (ext = js ".svg" -> getContentType filePath = "image/svg+xml"%string)
  /\ (ext = js ".ico" -> getContentType filePath = "image/x-icon"%string)
  /\ (~ In ext known_extensions ->
      getContentType filePath = "application/octet-stream"%string).
Proof.
  cbv zeta. unfold getContentType.
  repeat split; try (intros E; rewrite E; reflexivity).
  intros H. rewrite (lookup_type_none types _ H). reflexivity.
Qed.

Lemma C6_witness :
  getContentType (js "/srv/app/public/img/Logo.PNG") = "image/png"%string
  /\ getContentType (js "/srv/app/public/LICENSE") = "application/octet-stream"%string.
Proof.
  split.
  - apply (C6_content_type_by_lowercase_extension (js "/srv/app/public/img/Logo.PNG")).
    reflexivity.
  - apply (C6_content_type_by_lowercase_extension (js "/srv/app/public/LICENSE")).
    vm_compute. intuition discriminate.
Defined.

(** C6, as stated, fails: the extension of index.HTML is .HTML, which is
    none of the ten extensions of the table, and the content type is
    text/html, not application/octet-stream. *)
Lemma C6_counterexample :
  path_extname (js "index.HTML") = js ".HTML"
  /\ ~ In (js ".HTML") known_extensions
  /\ getContentType (js "index.HTML") = "text/html"%string
  /\ getContentType (js "index.HTML") <> table_type (path_extname (js "index.HTML")).
Proof.
  split; [reflexivity|]. split.
  - vm_compute. intuition discriminate.
  - split; [reflexivity|]. vm_compute. discriminate.
Qed.

(* ===================================================================== *)
(** * Static files and the root directory *)
(* ===================================================================== *)

Lemma plain_no_slash (s : jsstring) : plain_segment s = true -> no_slash s = true.
Proof.
  unfold plain_segment. rewrite !andb_true_iff. tauto.
Qed.

Lemma split_path_no_slash (s t : jsstring) :
  no_slash s = true -> split_path (s ++ u_slash :: t) = s :: split_path t.
Proof.
  induction s as [| c s IH]; intros H.
  - reflexivity.
  - cbn [no_slash forallb] in H. apply andb_true_iff in H. destruct H as [H1 H2].
    apply negb_true_iff in H1. cbn [app split_path]. rewrite H1.
    rewrite (IH H2). reflexivity.
Qed.

Lemma split_path_segment (s : jsstring) : no_slash s = true -> split_path s = [s].
Proof.
  induction s as [| c s IH]; intros H; [reflexivity|].
  cbn [no_slash forallb] in H. apply andb_true_iff in H. destruct H as [H1 H2].
  apply negb_true_iff in H1. cbn [split_path]. rewrite H1, (IH H2). reflexivity.
Qed.

Lemma abs_path_app (a b : list jsstring) :
  abs_path (a ++ b) = abs_path a ++ abs_path b.
Proof.
  induction a as [| s a IH]; [reflexivity|].
  cbn [app abs_path]. rewrite IH, <- app_assoc. reflexivity.
Qed.

Lemma split_abs_path (segs : list jsstring) (t : jsstring) :
  forallb plain_segment segs = true ->
  split_path (abs_path segs ++ u_slash :: t) = [] :: segs ++ split_path t.
Proof.
  induction segs as [| s segs IH]; intros H; [reflexivity|].
  cbn [forallb] in H. apply andb_true_iff in H. destruct H as [H1 H2].
  specialize (IH H2).
  cbn [abs_path app split_path]. change (u_slash =? u_slash)%N with true. cbv iota.
  f_equal. rewrite <- app_assoc.
  destruct segs as [| s2 segs'].
  - cbn [abs_path app]. apply split_path_no_slash. apply plain_no_slash. exact H1.
  - cbn [abs_path app] in *. change (u_slash =? u_slash)%N with true in IH.
    cbv iota in IH. inversion IH as [IH'].
    rewrite split_path_no_slash by (apply plain_no_slash; exact H1).
    cbn [split_path]. change (u_slash =? u_slash)%N with true. cbv iota.
    rewrite IH'. reflexivity.
Qed.

Lemma plain_segment_kept (s : jsstring) :
  plain_segment s = true ->
  is_empty s || jsstring_eqb s s_dot = false /\ jsstring_eqb s s_dotdot = false.
Proof.
  unfold plain_segment. rewrite !andb_true_iff, !negb_true_iff.
  intros [[[H1 H2] H3] H4]. rewrite H1, H3, H4. auto.
Qed.

Lemma normalize_plain (a : bool) (segs rest res : list jsstring) :
  forallb plain_segment segs = true ->
  normalize_segments a (segs ++ rest) res
  = normalize_segments a rest (rev segs ++ res).
Proof.
  revert res. induction segs as [| s segs IH]; intros res H; [reflexivity|].
  cbn [forallb] in H. apply andb_true_iff in H. destruct H as [H1 H2].
  destruct (plain_segment_kept s H1) as [K1 K2].
  cbn [app normalize_segments]. rewrite K1, K2.
  rewrite (IH (s :: res) H2). cbn [rev]. rewrite <- app_assoc. reflexivity.
Qed.

Lemma abs_path_join (l : list jsstring) :
  l <> [] -> u_slash :: join [u_slash] l = abs_path l.
Proof.
  induction l as [| s l IH]; [contradiction|]. intros _.
  destruct l as [| s2 l'].
  - cbn [join abs_path]. rewrite app_nil_r. reflexivity.
  - rewrite join_cons. cbn [abs_path app] in *.
    rewrite <- (IH ltac:(discriminate)). reflexivity.
Qed.

Lemma ends_with_slash_app (x t : jsstring) (c : N) :
  ends_with_slash (x ++ t ++ [c]) = N.eqb c u_slash.
Proof.
  unfold ends_with_slash. rewrite app_assoc, rev_app_distr. reflexivity.
Qed.

(** The normal form of an absolute path of plain segments followed by a
    tail that does not end with a separator. *)
Lemma normalize_abs_path (pre : list jsstring) (t : jsstring) (c : N)
  (out : list jsstring) :
  forallb plain_segment pre = true ->
  N.eqb c u_slash = false ->
  normalize_segments false (split_path (t ++ [c])) (rev pre) = rev out ->
  out <> [] ->
  path_normalize (abs_path pre ++ u_slash :: t ++ [c]) = abs_path out.
Proof.
  intros P C Nm NE.
  assert (Hd : exists r, abs_path pre ++ u_slash :: t ++ [c] = u_slash :: r).
  { destruct pre; cbn [abs_path app]; eexists; reflexivity. }
  destruct Hd as [r Hr].
  assert (EW : ends_with_slash (abs_path pre ++ u_slash :: t ++ [c]) = false).
  { change (abs_path pre ++ u_slash :: t ++ [c])
      with (abs_path pre ++ (u_slash :: t) ++ [c]).
    rewrite ends_with_slash_app. exact C. }
  unfold path_normalize. rewrite EW. rewrite Hr. rewrite <- Hr.
  change (u_slash =? u_slash)%N with true. cbn [negb].
  rewrite split_abs_path by exact P.
  cbn [normalize_segments is_empty orb].
  rewrite normalize_plain by exact P. rewrite app_nil_r, Nm, rev_involutive.
  pose proof (abs_path_join out NE) as J.
  destruct (join [u_slash] out) as [| x body]; exact J.
Qed.

Lemma path_join_plain (segs : list jsstring) (name : jsstring) (c : N) :
  segs <> [] -> forallb plain_segment segs = true ->
  plain_segment (name ++ [c]) = true ->
  path_join [abs_path segs; name ++ [c]] = abs_path (segs ++ [name ++ [c]]).
Proof.
  intros NE P Pn.
  assert (C : N.eqb c u_slash = false).
  { apply plain_no_slash in Pn. unfold no_slash in Pn. rewrite forallb_app in Pn.
    apply andb_true_iff in Pn. destruct Pn as [_ Pn]. cbn in Pn.
    rewrite andb_true_r in Pn. apply negb_true_iff in Pn. exact Pn. }
  unfold path_join. cbn [filter].
  assert (E1 : is_empty (abs_path segs) = false).
  { destruct segs; [contradiction | reflexivity]. }
  assert (E2 : is_empty (name ++ [c]) = false) by (destruct name; reflexivity).
  rewrite E1, E2. cbn [negb]. rewrite join_cons. cbn [join app].
  apply normalize_abs_path; try assumption.
  - rewrite (split_path_segment (name ++ [c]) (plain_no_slash _ Pn)).
    cbn [normalize_segments]. destruct (plain_segment_kept _ Pn) as [K1 K2].
    rewrite K1, K2. rewrite rev_app_distr. reflexivity.
  - intros Z0. apply app_eq_nil in Z0. destruct Z0 as [_ Z0]. discriminate.
Qed.

Lemma startsWith_app (a x y : jsstring) :
  startsWith (a ++ x) (a ++ y) = startsWith x y.
Proof.
  induction a as [| c a IH]; [reflexivity|].
  cbn [app startsWith]. rewrite N.eqb_refl. exact IH.
Qed.

Lemma jsstring_eqb_app (a x y : jsstring) :
  jsstring_eqb (a ++ x) (a ++ y) = jsstring_eqb x y.
Proof.
  induction a as [| c a IH]; [reflexivity|].
  cbn [app jsstring_eqb]. rewrite N.eqb_refl. exact IH.
Qed.

Section Traversal.

Variable segs : list jsstring.
Hypothesis segs_nonempty : segs <> [].
Hypothesis segs_plain : forallb plain_segment segs = true.

Lemma PUBLIC_DIR_abs : PUBLIC_DIR (abs_path segs) = abs_path (segs ++ [js "public"]).
Proof.
  apply (path_join_plain segs (js "publi") 99%N segs_nonempty segs_plain eq_refl).
Qed.

Lemma CONFIG_FILE_abs :
  CONFIG_FILE (abs_path segs) = abs_path (segs ++ [js "config.json"]).
Proof.
  apply (path_join_plain segs (js "config.jso") 110%N segs_nonempty segs_plain eq_refl).
Qed.

Lemma traversal_resolves_to_config :
  path_join [PUBLIC_DIR (abs_path segs); js "/../config.json"]
  = CONFIG_FILE (abs_path segs).
Proof.
  rewrite PUBLIC_DIR_abs, CONFIG_FILE_abs.
  unfold path_join. cbn [filter].
  assert (E1 : is_empty (abs_path (segs ++ [js "public"])) = false).
  { destruct segs; reflexivity. }
  assert (E2 : is_empty (js "/../config.json") = false) by reflexivity.
  rewrite E1, E2. cbn [negb]. rewrite join_cons. cbn [join app].
  change (js "/../config.json") with ((js "/../config.jso") ++ [110%N]).
  assert (P : forallb plain_segment (segs ++ [js "public"]) = true).
  { rewrite forallb_app, segs_plain. reflexivity. }
  apply normalize_abs_path.
  - exact P.
  - reflexivity.
  - change (split_path (js "/../config.jso" ++ [110%N]))
      with [[]; s_dotdot; js "config.json"].
    rewrite rev_app_distr. cbn [rev app]. cbn [normalize_segments].
    change (is_empty [] || jsstring_eqb [] s_dot) with true. cbv iota.
    change (is_empty s_dotdot || jsstring_eqb s_dotdot s_dot) with false.
    change (jsstring_eqb s_dotdot s_dotdot) with true.
    change (jsstring_eqb (js "public") s_dotdot) with false. cbv iota.
    change (is_empty (js "config.json") || jsstring_eqb (js "config.json") s_dot)
      with false.
    change (jsstring_eqb (js "config.json") s_dotdot) with false. cbv iota.
    rewrite rev_app_distr. reflexivity.
  - intros Z0. apply app_eq_nil in Z0. destruct Z0 as [_ Z0]. discriminate.
Qed.

Lemma config_outside_public :
  inside_dir (PUBLIC_DIR (abs_path segs)) (CONFIG_FILE (abs_path segs)) = false.
Proof.
  rewrite PUBLIC_DIR_abs, CONFIG_FILE_abs. unfold inside_dir.
  rewrite !abs_path_app. rewrite <- app_assoc.
  rewrite jsstring_eqb_app, startsWith_app. reflexivity.
Qed.

End Traversal.

(** C4.  Whatever the directory of the server (any absolute path of plain
    segments), the request path /../config.json has a parent-directory
    component and [serveStatic] resolves it to the configuration file,
    which lies outside the root of the static files; the file read is that
    one, and a GET of this path returns its content with status 200. *)
Theorem C4_static_path_escapes_root (segs : list jsstring) (w : World) :
  segs <> [] ->
  forallb plain_segment segs = true ->
  let dir := abs_path segs in
  let filePath := js "/../config.json" in
  let fullPath := path_join [PUBLIC_DIR dir; filePath] in
  has_parent_component filePath = true
  /\ fullPath = CONFIG_FILE dir
  /\ inside_dir (PUBLIC_DIR dir) fullPath = false
  /\ snd (serveStatic dir w filePath new_response) = [ReadFile fullPath]
  /\ (forall data,
        files w (CONFIG_FILE dir) = Content data ->
        let res := fst (fst (handler dir w (mkRequest "GET" filePath []))) in
        statusCode res = 200 /\ payload res = data).
Proof.
  intros NE P. cbv zeta.
  pose proof (traversal_resolves_to_config segs NE P) as T.
  split; [reflexivity|]. split; [exact T|]. split.
  { rewrite T. apply config_outside_public; assumption. }
  split.
  { unfold serveStatic. destruct (files w _); reflexivity. }
  intros data F.
  rewrite (handler_get_static (abs_path segs) w
             (mkRequest "GET" (js "/../config.json") []) eq_refl eq_refl).
  cbn [fst]. unfold serveStatic.
  change (request_path (mkRequest "GET" (js "/../config.json") []))
    with (js "/../config.json").
  change (jsstring_eqb (js "/../config.json") (js "/") || is_empty (js "/../config.json"))
    with false. cbv iota.
  rewrite T, F. split; reflexivity.
Qed.

Lemma C4_witness :
  let dir := js "/srv/app" in
  let filePath := js "/../config.json" in
  let fullPath := path_join [PUBLIC_DIR dir; filePath] in
  has_parent_component filePath = true
  /\ fullPath = js "/srv/app/config.json"
  /\ inside_dir (js "/srv/app/public") fullPath = false.
Proof.
  pose proof (C4_static_path_escapes_root [js "srv"; js "app"] empty_world
                ltac:(discriminate) eq_refl) as H.
  cbv zeta in H. destruct H as [H1 [H2 [H3 _]]].
  cbv zeta. split; [exact H1|]. split; [exact H2 | exact H3].
Defined.

(* ===================================================================== *)
(** * The listener as a whole *)
(* ===================================================================== *)

Lemma serveStatic_effects (dir : jsstring) (w : World) (filePath : jsstring)
  (res : Response) :
  snd (serveStatic dir w filePath res)
  = [ReadFile (path_join [PUBLIC_DIR dir; filePath])].
Proof. unfold serveStatic. destruct (files w _); reflexivity. Qed.

(** X1.  Whatever the request, the only file the server ever writes is
    the configuration file: every other path keeps its state and every
    write of the trace is a write of config.json.  A request that is not a
    POST to /update-config changes nothing at all, writes nothing and does
    not read the request body. *)
Theorem X1_only_the_configuration_file_is_written
  (dir : jsstring) (w : World) (req : Request) :
  let '(res, w', effs) := handler dir w req in
  (forall p, jsstring_eqb p (CONFIG_FILE dir) = false -> files w' p = files w p)
  /\ (forall p data, In (WriteFile p data) effs -> p = CONFIG_FILE dir)
  /\ (~ (method req = "POST"%string /\ request_path req = js "/update-config") ->
      w' = w
      /\ (forall p data, ~ In (WriteFile p data) effs)
      /\ ~ In ReadBody effs).
Proof.
  destruct (handler_branches dir w req)
    as [[_ [_ H]] | [[_ [_ [_ H]]] | [[_ [_ [_ H]]] | [[_ [_ [fp H]]]
       | [[M [P [_ H]]] | [[M [P [data [_ [_ [_ H]]]]]]
       | [[M [P [data [st [_ [_ [_ H]]]]]]] | [[M [P [data [_ [_ H]]]]]
       | [_ [_ H]]]]]]]]]]; rewrite H; clear H.
  - split; [reflexivity|]. split; [intros p data []|].
    intros _. split; [reflexivity|]. split; intros; intros [].
  - unfold readConfig. destruct (readFileSync w _) as [raw |];
      [destruct (JSON_parse raw) |]; cbn [snd];
      (split; [reflexivity|]; split;
       [ intros p data I; cbn in I; intuition discriminate
       | intros _; split; [reflexivity|]; split;
         [ intros p data I | intros I ]; cbn in I; intuition discriminate ]).
  - unfold readConfig. destruct (readFileSync w _) as [raw |];
      [destruct (JSON_parse raw) |]; cbn [snd app];
      (split; [reflexivity|]; split;
       [ intros p data I; cbn in I; intuition discriminate
       | intros _; split; [reflexivity|]; split;
         [ intros p data I | intros I ]; cbn in I; intuition discriminate ]).
  - rewrite serveStatic_effects.
    split; [reflexivity|]. split.
    + intros p data [I | []]. discriminate.
    + intros _. split; [reflexivity|]. split.
      * intros p data [I | []]. discriminate.
      * intros [I | []]. discriminate.
  - split; [reflexivity|]. split.
    + intros p data I. cbn in I. intuition discriminate.
    + intros N. exfalso. apply N. split; assumption.
  - split.
    + intros p E. cbn [files]. apply update_file_other. exact E.
    + split.
      * intros p d I. cbn in I. destruct I as [I | [I | [I | []]]];
          try discriminate. inversion I. reflexivity.
      * intros N. exfalso. apply N. split; assumption.
  - split.
    + intros p E. cbn [files]. apply update_file_other. exact E.
    + split.
      * intros p d I. cbn in I. destruct I as [I | [I | [I | [I | []]]]];
          try discriminate. inversion I. reflexivity.
      * intros N. exfalso. apply N. split; assumption.
  - split; [reflexivity|]. split.
    + intros p d I. cbn in I. intuition discriminate.
    + intros N. exfalso. apply N. split; assumption.
  - split; [reflexivity|]. split; [intros p data []|].
    intros _. split; [reflexivity|]. split; intros; intros [].
Qed.

(** X2.  The status of every response is 200, 204, 400, 404 or 405, so
    never a 3xx or a 5xx; a 400 is always JSON, a 404 and a 405 always
    plain text, and every response but the 204 has a content type. *)
Theorem X2_statuses_and_content_types
  (dir : jsstring) (w : World) (req : Request) :
  let res := fst (fst (handler dir w req)) in
  let content_type := get_header (headers res) "Content-Type" in
  In (statusCode res) [200; 204; 400; 404; 405]
  /\ (statusCode res = 400 -> content_type = Some "application/json"%string)
  /\ (statusCode res = 404 \/ statusCode res = 405 ->
      content_type = Some "text/plain"%string)
  /\ (statusCode res <> 204 -> exists t, content_type = Some t).
Proof.
  cbv zeta.
  destruct (handler_branches dir w req)
    as [[_ [_ H]] | [[_ [_ [_ H]]] | [[_ [_ [_ H]]] | [[_ [_ [fp H]]]
       | [[_ [_ [_ H]]] | [[_ [_ [data [_ [_ [_ H]]]]]]
       | [[_ [_ [data [st [_ [_ [_ H]]]]]]] | [[_ [_ [data [_ [_ H]]]]]
       | [_ [_ H]]]]]]]]]]; rewrite H; clear H; cbn [fst].
  - cbn. split; [tauto|]. split; [discriminate|].
    split; [intros [E | E]; discriminate | intros E; contradiction].
  - cbn. split; [tauto|]. split; [discriminate|].
    split; [intros [E | E]; discriminate | intros _; eexists; reflexivity].
  - cbn. split; [tauto|]. split; [discriminate|].
    split; [intros [E | E]; discriminate | intros _; eexists; reflexivity].
  - unfold serveStatic, first_response.
    destruct (files w _); destruct (is_api_path (request_path req));
      cbn [fst]; cbn;
      (split; [tauto|]; split; [try discriminate; reflexivity|]; split;
       [ intros [E | E]; try discriminate; reflexivity
       | intros _; eexists; reflexivity ]).
  - cbn. split; [tauto|]. split; [reflexivity|].
    split; [intros [E | E]; discriminate | intros _; eexists; reflexivity].
  - cbn. split; [tauto|]. split; [discriminate|].
    split; [intros [E | E]; discriminate | intros _; eexists; reflexivity].
  - cbn. split; [tauto|]. split; [reflexivity|].
    split; [intros [E | E]; discriminate | intros _; eexists; reflexivity].
  - cbn. split; [tauto|]. split; [reflexivity|].
    split; [intros [E | E]; discriminate | intros _; eexists; reflexivity].
  - unfold first_response. destruct (is_api_path (request_path req)); cbn;
      (split; [tauto|]; split; [discriminate|]; split;
       [ intros _; reflexivity | intros _; eexists; reflexivity ]).
Qed.

(** X3.  A response to a request whose path starts neither with /config
    nor with /update-config carries no CORS header: the only header the
    listener sets on it is the content type. *)
Theorem X3_no_cors_outside_the_api
  (dir : jsstring) (w : World) (req : Request) :
  startsWith (request_path req) (js "/config") = false ->
  startsWith (request_path req) (js "/update-config") = false ->
  let res := fst (fst (handler dir w req)) in
  no_cors_headers res
  /\ exists t, headers res = [("Content-Type"%string, t)].
Proof.
  intros S1 S2. cbv zeta.
  assert (A : is_api_path (request_path req) = false)
    by (unfold is_api_path; rewrite S1, S2; reflexivity).
  destruct (handler_branches dir w req)
    as [[A' _] | [[_ [P _]] | [[_ [P _]] | [[_ [_ [fp H]]] | [[_ [P _]]
       | [[_ [P _]] | [[_ [P _]] | [[_ [P _]] | [_ [_ H]]]]]]]]]].
  - rewrite A in A'. discriminate.
  - rewrite P in A. discriminate.
  - rewrite P in A. discriminate.
  - rewrite H. cbn [fst]. unfold serveStatic, first_response. rewrite A.
    destruct (files w _); (split; [repeat split | eexists; reflexivity]).
  - rewrite P in A. discriminate.
  - rewrite P in A. discriminate.
  - rewrite P in A. discriminate.
  - rewrite P in A. discriminate.
  - rewrite H. cbn [fst]. unfold first_response. rewrite A.
    split; [repeat split | eexists; reflexivity].
Qed.

Lemma X3_witness :
  let res := fst (fst (handler (js "/srv/app") empty_world
                         (mkRequest "GET" (js "/index.html") []))) in
  no_cors_headers res
  /\ exists t, headers res = [("Content-Type"%string, t)].
Proof.
  exact (X3_no_cors_outside_the_api (js "/srv/app") empty_world
           (mkRequest "GET" (js "/index.html") []) eq_refl eq_refl).
Defined.

Lemma split_head_query (u q : jsstring) :
  no_query u = true -> split_head 63%N (u ++ 63%N :: q) = u.
Proof.
  induction u as [| c u IH]; intros H.
  - reflexivity.
  - cbn [no_query forallb] in H. apply andb_true_iff in H.
    destruct H as [H1 H2]. apply negb_true_iff in H1.
    cbn [app split_head]. rewrite H1, (IH H2). reflexivity.
Qed.

Lemma split_head_no_query (u : jsstring) :
  no_query u = true -> split_head 63%N u = u.
Proof.
  induction u as [| c u IH]; intros H.
  - reflexivity.
  - cbn [no_query forallb] in H. apply andb_true_iff in H.
    destruct H as [H1 H2]. apply negb_true_iff in H1.
    cbn [split_head]. rewrite H1, (IH H2). reflexivity.
Qed.

(** X4.  The query string plays no part: a request for [u?q] is handled
    exactly as the request for [u] with the same method and body (same
    response, same world, same effects). *)
Theorem X4_query_string_ignored
  (dir : jsstring) (w : World) (m : string) (u q : jsstring)
  (b : list (list N)) :
  no_query u = true ->
  handler dir w (mkRequest m (u ++ 63%N :: q) b)
  = handler dir w (mkRequest m u b).
Proof.
  intros H. unfold handler, body. cbn [url method chunks].
  rewrite (split_head_query u q H), (split_head_no_query u H). reflexivity.
Qed.

Lemma X4_witness :
  handler (js "/srv/app") empty_world
    (mkRequest "GET" (js "/config" ++ 63%N :: js "t=1&t=2?") [])
  = handler (js "/srv/app") empty_world (mkRequest "GET" (js "/config") []).
Proof.
  exact (X4_query_string_ignored (js "/srv/app") empty_world "GET"
           (js "/config") (js "t=1&t=2?") [] eq_refl).
Defined.

(* ===================================================================== *)
(** * Writing and reading the configuration *)
(* ===================================================================== *)

(** X5.  What [writeConfig] writes, [readConfig] reads: for every value
    of the kind [JSON.parse] builds (its numbers are binary64 values, the
    keys of its objects are distinct and in property order), when
    [writeConfig] returns, it has written the text [JSON.stringify] gave,
    and [readConfig] then returns the value written, with null for every
    infinity and 0 for -0, without falling back to the empty object and
    without logging an error.  When [JSON.stringify] throws, [writeConfig]
    throws and nothing is written. *)
Theorem X5_readConfig_after_writeConfig
  (dir : jsstring) (w : World) (V : JSValue) :
  wf_value V = true ->
  let '(r, w', effs) := writeConfig dir w V in
  (r = Ok tt ->
   exists text,
     JSON_stringify (S (pretty_room w)) V 2 = Ok text
     /\ effs = [WriteFile (CONFIG_FILE dir) text]
     /\ files w' (CONFIG_FILE dir) = Content text
     /\ readConfig dir w' = (stored V, [ReadFile (CONFIG_FILE dir)]))
  /\ (JSON_stringify (S (pretty_room w)) V 2 = Throw ->
      r = Throw /\ w' = w /\ effs = []).
Proof.
  intros W. unfold writeConfig. rewrite JSON_stringify_depth.
  destruct (Nat.leb (depth V) (S (pretty_room w))).
  - unfold writeFileSync. destruct (write_fault w) as [st |].
    + split; [intros H; discriminate | intros H; discriminate].
    + rewrite utf8_text_stringify. split; [| intros H; discriminate].
      intros _. exists (stringify_text V 2).
      split; [reflexivity|]. split; [reflexivity|].
      split; [apply update_file_same|].
      apply readConfig_written. exact W.
  - split; [intros H; discriminate|]. intros _. repeat split.
Qed.

Lemma X5_witness :
  let V := JObject [(js "vat", JNumber (Finite false 8444249301319680 (-50)));
                    (js "cap", JNumber (Infinity false))] in
  let text := js "{" ++ [10; 32; 32]%N ++ quoted "vat" ++ js ": 7.5,"
              ++ [10; 32; 32]%N ++ quoted "cap" ++ js ": null" ++ [10]%N
              ++ js "}" in
  let '(r, w', effs) := writeConfig (js "/srv/app") empty_world V in
  r = Ok tt
  /\ effs = [WriteFile (CONFIG_FILE (js "/srv/app")) text]
  /\ files w' (CONFIG_FILE (js "/srv/app")) = Content text
  /\ readConfig (js "/srv/app") w'
     = (JObject [(js "vat", JNumber (Finite false 8444249301319680 (-50)));
                 (js "cap", JNull)],
        [ReadFile (CONFIG_FILE (js "/srv/app"))]).
Proof.
  pose proof (X5_readConfig_after_writeConfig (js "/srv/app") empty_world
                (JObject [(js "vat", JNumber (Finite false 8444249301319680 (-50)));
                          (js "cap", JNumber (Infinity false))])
                eq_refl) as H.
  vm_compute in H. vm_compute.
  destruct H as [H _]. destruct (H eq_refl) as [text [T [E [F R]]]].
  inversion T; subst text.
  repeat split; assumption.
Defined.

(** X6.  When a POST to /update-config succeeds (it is then answered 200
    with the body {"status":"success"}) and the GET of /config that
    follows is answered, the GET returns exactly the text [JSON.stringify]
    gives for the value [JSON.parse] gave for the text the handler
    collected, whatever the configuration file held before; the file is
    read once, no error is logged and the GET changes nothing. *)
Theorem X6_get_returns_the_text_of_the_posted_value
  (dir : jsstring) (w : World) (post get : Request) (V : JSValue) :
  method post = "POST"%string ->
  request_path post = js "/update-config" ->
  method get = "GET"%string ->
  request_path get = js "/config" ->
  JSON_parse (body post) = Some V ->
  let '(r1, w1, _) := handler dir w post in
  statusCode r1 = 200 ->
  payload r1 = js "{" ++ quoted "status" ++ js ":" ++ quoted "success" ++ js "}"
  /\ let '(r2, w2, effs) := handler dir w1 get in
     finished r2 = true ->
     statusCode r2 = 200
     /\ JSON_stringify (S (compact_room w)) V 0 = Ok (payload r2)
     /\ effs = [ReadFile (CONFIG_FILE dir)]
     /\ w2 = w1.
Proof.
  intros M1 P1 M2 P2 J.
  pose proof (post_then_get dir w post get V M1 P1 M2 P2 J) as H.
  pose proof (post_succeeded dir w post V M1 P1 J) as Q.
  destruct (handler dir w post) as [[r1 w1] e1]. cbn [fst snd] in H, Q.
  intros Hs. destruct (Q Hs) as [_ [_ E1]]. destruct (H Hs) as [_ [_ [_ [_ G]]]].
  split.
  { inversion E1. cbn [payload end_]. exact success_body_text. }
  assert (C : compact_room w1 = compact_room w) by (inversion E1; reflexivity).
  assert (Fl : files w1 (CONFIG_FILE dir) = Content (stringify_text V 2))
    by (inversion E1; cbn [files]; apply update_file_same).
  pose proof (JSON_parse_wf _ _ J) as W.
  destruct (handler dir w1 get) as [[r2 w2] e2] eqn:E2. cbn [fst] in G.
  intros A. destruct (G A) as [E R]. inversion E; subst r2 w2 e2.
  cbn [statusCode payload end_ writeHead]. rewrite utf8_text_stringify.
  split; [reflexivity|]. split; [| split; reflexivity].
  rewrite JSON_stringify_depth.
  assert (D : (depth V <= S (compact_room w))%nat).
  { destruct (Nat.le_gt_cases (depth V) (S (compact_room w))) as [D | D];
      [exact D|]. exfalso.
    assert (R1 : readConfig dir w1 = (stored V, [ReadFile (CONFIG_FILE dir)])).
    { unfold readConfig, readFileSync. rewrite Fl.
      rewrite (JSON_parse_stringify V 2 W). reflexivity. }
    rewrite (handler_get_config_thrown dir w1 get M2 P2) in E2.
    - inversion E2.
    - rewrite R1, C. cbn [fst]. rewrite depth_stored. exact D. }
  apply Nat.leb_le in D. rewrite D. reflexivity.
Qed.

Lemma X6_witness :
  let post := mkRequest "POST" (js "/update-config")
                [js " { " ++ quoted "rate"; js " : [ 1e2 , -0 , 1E400 ] } "] in
  let get := mkRequest "GET" (js "/config") [] in
  let '(r1, w1, _) := handler (js "/srv/app") empty_world post in
  let '(r2, w2, effs) := handler (js "/srv/app") w1 get in
  statusCode r1 = 200
  /\ finished r2 = true
  /\ statusCode r2 = 200
  /\ payload r2 = js "{" ++ quoted "rate" ++ js ":[100,0,null]}"
  /\ effs = [ReadFile (CONFIG_FILE (js "/srv/app"))]
  /\ w2 = w1.
Proof.
  pose proof (X6_get_returns_the_text_of_the_posted_value (js "/srv/app")
                empty_world
                (mkRequest "POST" (js "/update-config")
                   [js " { " ++ quoted "rate"; js " : [ 1e2 , -0 , 1E400 ] } "])
                (mkRequest "GET" (js "/config") [])
                (JObject [(js "rate",
                           JArray [JNumber (Finite false 7036874417766400 (-46));
                                   JNumber (Finite true 0 (-1074));
                                   JNumber (Infinity false)])])
                eq_refl eq_refl eq_refl eq_refl eq_refl) as H.
  vm_compute in H. vm_compute.
  destruct (H eq_refl) as [_ G]. destruct (G eq_refl) as [G1 [G2 [G3 G4]]].
  inversion G2 as [G5].
  repeat split; assumption.
Defined.

(** X7.  The last write wins: after a POST to /update-config that
    succeeded, a second POST that succeeds leaves in the configuration
    file the text [JSON.stringify] gave for the second value only, changes
    no other file, and a GET of /config that is then answered returns the
    text of the second value; nothing of the first is left.  A second POST
    during which [JSON.stringify] throws is answered 400 and leaves the
    files as the first POST left them. *)
Theorem X7_last_write_wins
  (dir : jsstring) (w : World) (post1 post2 get : Request) (V1 V2 : JSValue) :
  method post1 = "POST"%string ->
  request_path post1 = js "/update-config" ->
  JSON_parse (body post1) = Some V1 ->
  method post2 = "POST"%string ->
  request_path post2 = js "/update-config" ->
  JSON_parse (body post2) = Some V2 ->
  method get = "GET"%string ->
  request_path get = js "/config" ->
  let '(r1, w1, _) := handler dir w post1 in
  statusCode r1 = 200 ->
  let '(r2, w2, _) := handler dir w1 post2 in
  (statusCode r2 = 200 ->
   JSON_stringify (S (pretty_room w)) V2 2 = Ok (stringify_text V2 2)
   /\ files w2 (CONFIG_FILE dir) = Content (stringify_text V2 2)
   /\ (forall p, jsstring_eqb p (CONFIG_FILE dir) = false ->
                 files w2 p = files w p)
   /\ let '(r3, _, _) := handler dir w2 get in
      finished r3 = true -> payload r3 = stringify_text V2 0)
  /\ (JSON_stringify (S (pretty_room w)) V2 2 = Throw ->
      statusCode r2 = 400 /\ w2 = w1).
Proof.
  intros M1 P1 J1 M2 P2 J2 M3 P3.
  pose proof (post_then_get dir w post1 get V1 M1 P1 M3 P3 J1) as H1.
  destruct (handler dir w post1) as [[r1 w1] e1]. cbn [fst snd] in H1.
  intros S1. destruct (H1 S1) as [_ [K1 [F1 [R1 _]]]].
  pose proof (post_then_get dir w1 post2 get V2 M2 P2 M3 P3 J2) as H2.
  pose proof (post_succeeded dir w1 post2 V2 M2 P2 J2) as Q2.
  destruct (handler dir w1 post2) as [[r2 w2] e2] eqn:E2.
  cbn [fst snd] in H2, Q2.
  split.
  - intros S2. destruct (H2 S2) as [C2 [K2 [_ [_ G]]]].
    destruct (Q2 S2) as [D2 _]. rewrite R1 in D2.
    split.
    { rewrite JSON_stringify_depth. apply Nat.leb_le in D2. rewrite D2.
      reflexivity. }
    split; [exact C2|]. split.
    { intros p E. rewrite (K2 p E). apply K1. exact E. }
    destruct (handler dir w2 get) as [[r3 w3] e3]. cbn [fst] in G.
    intros A. destruct (G A) as [E _]. inversion E.
    cbn [payload end_]. apply utf8_text_stringify.
  - intros T. rewrite JSON_stringify_depth in T.
    destruct (Nat.leb (depth V2) (S (pretty_room w))) eqn:D; [discriminate|].
    apply Nat.leb_gt in D. rewrite <- R1 in D.
    rewrite (handler_post_thrown dir w1 post2 V2 M2 P2 J2 D) in E2.
    inversion E2. split; reflexivity.
Qed.

Lemma X7_witness :
  let post1 := mkRequest "POST" (js "/update-config")
                 [js "{" ++ quoted "vat" ++ js ":7.5," ++ quoted "cit" ++ js ":30}"] in
  let post2 := mkRequest "POST" (js "/update-config")
                 [js "{" ++ quoted "vat"; js ":10}"] in
  let get := mkRequest "GET" (js "/config") [] in
  let '(r1, w1, _) := handler (js "/srv/app") empty_world post1 in
  let '(r2, w2, _) := handler (js "/srv/app") w1 post2 in
  let '(r3, _, _) := handler (js "/srv/app") w2 get in
  statusCode r1 = 200
  /\ statusCode r2 = 200
  /\ files w2 (CONFIG_FILE (js "/srv/app"))
     = Content (js "{" ++ [10; 32; 32]%N ++ quoted "vat" ++ js ": 10" ++ [10]%N
                  ++ js "}")
  /\ finished r3 = true
  /\ payload r3 = js "{" ++ quoted "vat" ++ js ":10}".
Proof.
  pose proof (X7_last_write_wins (js "/srv/app") empty_world
                (mkRequest "POST" (js "/update-config")
                   [js "{" ++ quoted "vat" ++ js ":7.5," ++ quoted "cit" ++ js ":30}"])
                (mkRequest "POST" (js "/update-config")
                   [js "{" ++ quoted "vat"; js ":10}"])
                (mkRequest "GET" (js "/config") [])
                (JObject [(js "vat", JNumber (Finite false 8444249301319680 (-50)));
                          (js "cit", JNumber (Finite false 8444249301319680 (-48)))])
                (JObject [(js "vat", JNumber (Finite false 5629499534213120 (-49)))])
                eq_refl eq_refl eq_refl eq_refl eq_refl eq_refl eq_refl eq_refl)
    as H.
  vm_compute in H. vm_compute.
  destruct (H eq_refl) as [G _]. destruct (G eq_refl) as [_ [F [_ P]]].
  split; [reflexivity|]. split; [reflexivity|]. split; [exact F|].
  split; [reflexivity|]. exact (P eq_refl).
Defined.

Lemma readConfig_wf (dir : jsstring) (w : World) :
  wf_value (fst (readConfig dir w)) = true.
Proof.
  unfold readConfig. destruct (readFileSync w _) as [raw |]; [| reflexivity].
  destruct (JSON_parse raw) as [v |] eqn:J; [| reflexivity].
  cbn [fst]. apply (JSON_parse_wf raw v J).
Qed.

(** X8.  What GET /config returns can be posted back without changing
    it: for every state of the configuration file, readable or not, when a
    GET of /config is answered and the text the handler collects for a POST
    to /update-config is the body of that answer, then after a successful
    POST the next GET of /config is answered too, with 200 and the same
    body again. *)
Theorem X8_posting_back_what_was_read
  (dir : jsstring) (w : World) (get post : Request) :
  method get = "GET"%string ->
  request_path get = js "/config" ->
  method post = "POST"%string ->
  request_path post = js "/update-config" ->
  finished (fst (fst (handler dir w get))) = true ->
  body post = payload (fst (fst (handler dir w get))) ->
  let '(r1, w1, _) := handler dir w post in
  statusCode r1 = 200 ->
  let '(r2, _, _) := handler dir w1 get in
  finished r2 = true
  /\ statusCode r2 = 200
  /\ payload r2 = payload (fst (fst (handler dir w get))).
Proof.
  intros M1 P1 M2 P2 A B.
  set (config := fst (readConfig dir w)).
  assert (D : (depth config <= S (compact_room w))%nat).
  { destruct (Nat.le_gt_cases (depth config) (S (compact_room w))) as [D | D];
      [exact D|].
    rewrite (handler_get_config_thrown dir w get M1 P1 D) in A. discriminate. }
  rewrite (handler_get_config_answered dir w get M1 P1 D) in *.
  cbn [fst payload end_] in *. rewrite utf8_text_stringify in *.
  fold config in B |- *.
  assert (W : wf_value config = true) by apply readConfig_wf.
  assert (J : JSON_parse (body post) = Some (stored config)).
  { rewrite B. apply JSON_parse_stringify. exact W. }
  pose proof (post_succeeded dir w post (stored config) M2 P2 J) as Q.
  destruct (handler dir w post) as [[r1 w1] e1]. cbn [fst] in Q.
  intros Hs. destruct (Q Hs) as [_ [_ E]]. inversion E as [[Hr Hw He]].
  pose proof (readConfig_written dir (files w) None (pretty_room w)
                (compact_room w) (stored config) (wf_stored config W)) as R.
  rewrite stored_idem in R.
  rewrite (handler_get_config_answered dir _ get M1 P1).
  - rewrite R. cbn [fst payload end_ statusCode finished writeHead].
    rewrite utf8_text_stringify, stringify_text_stored. repeat split.
  - rewrite R. cbn [fst compact_room]. rewrite depth_stored. exact D.
Qed.

Lemma X8_witness :
  let get := mkRequest "GET" (js "/config") [] in
  let post := mkRequest "POST" (js "/update-config") [js "{}"] in
  let '(r1, w1, _) := handler (js "/srv/app") empty_world post in
  let '(r2, _, _) := handler (js "/srv/app") w1 get in
  payload (fst (fst (handler (js "/srv/app") empty_world get))) = js "{}"
  /\ statusCode r1 = 200
  /\ finished r2 = true
  /\ statusCode r2 = 200
  /\ payload r2 = js "{}".
Proof.
  pose proof (X8_posting_back_what_was_read (js "/srv/app") empty_world
                (mkRequest "GET" (js "/config") [])
                (mkRequest "POST" (js "/update-config") [js "{}"])
                eq_refl eq_refl eq_refl eq_refl eq_refl eq_refl) as H.
  vm_compute in H. vm_compute.
  destruct (H eq_refl) as [F [C P]].
  repeat split; assumption.
Defined.

(** X9.  The restriction of the round trip to finite values cannot be
    lifted: for a body whose chunks do not end inside a character, when the
    POST succeeds and the GET of /config that follows is answered, the GET
    returns a value deep-equal to the one posted exactly when no number of
    it overflows binary64. *)
Theorem round_trip_iff_finite
  (dir : jsstring) (w : World) (post get : Request) (V : JSValue) :
  method post = "POST"%string ->
  request_path post = js "/update-config" ->
  method get = "GET"%string ->
  request_path get = js "/config" ->
  whole_chunks (chunks post) = true ->
  JSON_parse (posted_text post) = Some V ->
  let '(r1, w1, _) := handler dir w post in
  statusCode r1 = 200 ->
  let '(r2, _, _) := handler dir w1 get in
  finished r2 = true ->
  (exists V', JSON_parse (payload r2) = Some V' /\ deep_equal V' V = true)
  <-> all_finite V = true.
Proof.
  intros M1 P1 M2 P2 Wh J.
  rewrite <- (body_whole post Wh) in J.
  pose proof (post_then_get dir w post get V M1 P1 M2 P2 J) as H.
  pose proof (deep_equal_stored V (JSON_parse_wf (body post) V J)) as D.
  destruct (handler dir w post) as [[r1 w1] e1]. cbn [fst snd] in H.
  intros Hs. destruct (H Hs) as [_ [_ [_ [_ G]]]].
  destruct (handler dir w1 get) as [[r2 w2] e2]. cbn [fst] in G.
  intros A. destruct (G A) as [E R]. inversion E.
  cbn [payload end_]. rewrite utf8_text_stringify. split.
  - intros [V' [E' D']]. rewrite R in E'. inversion E'; subst V'.
    rewrite <- D. exact D'.
  - intros F. exists (stored V). split; [exact R|]. rewrite D. exact F.
Qed.

Lemma round_trip_iff_finite_witness :
  let post := mkRequest "POST" (js "/update-config") [js "[1e"; js "400]"] in
  let get := mkRequest "GET" (js "/config") [] in
  let V := JArray [JNumber (Infinity false)] in
  let '(r1, w1, _) := handler (js "/srv/app") empty_world post in
  let '(r2, _, _) := handler (js "/srv/app") w1 get in
  statusCode r1 = 200
  /\ finished r2 = true
  /\ payload r2 = js "[null]"
  /\ ((exists V', JSON_parse (payload r2) = Some V' /\ deep_equal V' V = true)
      <-> all_finite V = true).
Proof.
  pose proof (round_trip_iff_finite (js "/srv/app") empty_world
                (mkRequest "POST" (js "/update-config") [js "[1e"; js "400]"])
                (mkRequest "GET" (js "/config") [])
                (JArray [JNumber (Infinity false)])
                eq_refl eq_refl eq_refl eq_refl eq_refl eq_refl) as H.
  vm_compute in H. vm_compute.
  split; [reflexivity|]. split; [reflexivity|]. split; [reflexivity|].
  exact (H eq_refl eq_refl).
Defined.

(** X10.  Whatever the state of the configuration file, the body of an
    answer to GET /config is well-formed JSON: it parses to the value
    [readConfig] returned (an infinity read from the file apart, which
    comes out as null).  Answered or not, an error reading the
    configuration is logged exactly when the file is missing, cannot be
    read or does not hold JSON. *)
Theorem X10_config_response_is_json
  (dir : jsstring) (w : World) (req : Request) :
  method req = "GET"%string ->
  request_path req = js "/config" ->
  let '(res, _, effs) := handler dir w req in
  (finished res = true ->
   JSON_parse (payload res) = Some (stored (fst (readConfig dir w))))
  /\ (In (LogError "Error reading config:") effs <-> config_unusable dir w).
Proof.
  intros M P. rewrite (handler_get_config dir w req M P), JSON_stringify_depth.
  assert (L : In (LogError "Error reading config:") (snd (readConfig dir w))
              <-> config_unusable dir w).
  { unfold readConfig, config_unusable, readFileSync.
    destruct (files w (CONFIG_FILE dir)) as [| | raw]; cbn [snd].
    + split; [intros _; exact I | intros _; right; left; reflexivity].
    + split; [intros _; exact I | intros _; right; left; reflexivity].
    + destruct (JSON_parse raw) as [v |]; cbn [snd].
      * split; [intros [H | []]; discriminate | intros H; discriminate].
      * split; [intros _; reflexivity | intros _; right; left; reflexivity]. }
  destruct (Nat.leb (depth (fst (readConfig dir w))) (S (compact_room w))).
  - cbn [payload end_]. rewrite utf8_text_stringify. split; [| exact L].
    intros _. apply JSON_parse_stringify. apply readConfig_wf.
  - cbn [finished writeHead cors_response]. split.
    + intros F. discriminate.
    + rewrite <- L, in_app_iff. split; [| intros H; left; exact H].
      intros [H | [H | []]]; [exact H | discriminate].
Qed.

Lemma X10_witness :
  let w := mkWorld (update_file (fun _ => Missing)
                      (CONFIG_FILE (js "/srv/app")) (Content (js "[1e999, ")))
             None 1000 1000 in
  let '(res, _, effs) :=
    handler (js "/srv/app") w (mkRequest "GET" (js "/config") []) in
  finished res = true
  /\ JSON_parse (payload res) = Some (JObject [])
  /\ (In (LogError "Error reading config:") effs
      <-> config_unusable (js "/srv/app") w).
Proof.
  pose proof (X10_config_response_is_json (js "/srv/app")
                (mkWorld (update_file (fun _ => Missing)
                            (CONFIG_FILE (js "/srv/app"))
                            (Content (js "[1e999, ")))
                   None 1000 1000)
                (mkRequest "GET" (js "/config") []) eq_refl eq_refl) as H.
  vm_compute in H. vm_compute.
  destruct H as [H1 H2].
  split; [reflexivity|]. split; [exact (H1 eq_refl) | exact H2].
Defined.

(** The same for the repeated POST: after a POST that succeeded, the file
    holds a value deep-equal to the one posted exactly when no number of it
    overflows binary64. *)
Theorem idempotent_post_iff_finite
  (dir : jsstring) (w : World) (post : Request) (V : JSValue) :
  method post = "POST"%string ->
  request_path post = js "/update-config" ->
  whole_chunks (chunks post) = true ->
  JSON_parse (posted_text post) = Some V ->
  statusCode (fst (fst (handler dir w post))) = 200 ->
  idempotent_post dir w post V <-> all_finite V = true.
Proof.
  intros M P Wh J St. unfold idempotent_post.
  rewrite <- (body_whole post Wh) in J.
  pose proof (JSON_parse_wf (body post) V J) as W.
  pose proof (deep_equal_stored V W) as D.
  pose proof (second_post_changes_nothing dir w post V M P J St) as S2.
  destruct (post_succeeded dir w post V M P J St) as [Dp [_ E]].
  assert (St2 : statusCode
                  (fst (fst (handler dir (snd (fst (handler dir w post))) post)))
                = 200).
  { rewrite E. cbn [fst snd].
    rewrite (handler_post_written dir
               (mkWorld (update_file (files w) (CONFIG_FILE dir)
                           (Content (stringify_text V 2))) None
                  (pretty_room w) (compact_room w))
               post V M P J Dp eq_refl).
    reflexivity. }
  destruct (handler dir w post) as [[r1 w1] e1]. cbn [fst snd] in St, St2, S2.
  destruct (handler dir w1 post) as [[r2 w2] e2]. cbn [fst snd] in St2, S2.
  destruct S2 as [Same Held]. split.
  - intros H. destruct (H St St2) as [_ [raw [V' [E1 [E2 D']]]]].
    rewrite Held in E1. inversion E1; subst raw.
    rewrite (JSON_parse_stringify V 2 W) in E2. inversion E2; subst V'.
    rewrite <- D. exact D'.
  - intros F _ _. split; [exact Same|].
    exists (stringify_text V 2), (stored V).
    split; [exact Held|]. split; [apply JSON_parse_stringify; exact W|].
    rewrite D. exact F.
Qed.

(* ===================================================================== *)
(** * Static files: from the request path to the file *)
(* ===================================================================== *)

(** Without [..], normalising only drops the empty segments and [.]. *)
Lemma normalize_no_parent (a : bool) (l : list jsstring) :
  forall res,
    existsb (fun seg => jsstring_eqb seg s_dotdot) l = false ->
    normalize_segments a l res = rev (filter kept_segment l) ++ res.
Proof.
  induction l as [| s l IH]; intros res H; [reflexivity|].
  cbn [existsb] in H. apply orb_false_iff in H. destruct H as [H1 H2].
  cbn [normalize_segments filter]. unfold kept_segment at 1.
  destruct (is_empty s || jsstring_eqb s s_dot); cbn [negb].
  - apply IH. exact H2.
  - rewrite H1, (IH (s :: res) H2). cbn [rev]. rewrite <- app_assoc.
    reflexivity.
Qed.

Lemma ends_with_slash_tail (a b : jsstring) :
  b <> [] -> ends_with_slash (a ++ b) = ends_with_slash b.
Proof.
  intros NE. unfold ends_with_slash. rewrite rev_app_distr.
  destruct (rev b) as [| c r] eqn:E; [| reflexivity].
  exfalso. apply NE. rewrite <- (rev_involutive b), E. reflexivity.
Qed.

Lemma abs_path_nonempty (l : list jsstring) : l <> [] -> abs_path l <> [].
Proof. destruct l; [contradiction | discriminate]. Qed.

(** The path [path.join] gives for an absolute directory of plain
    segments and a path without [..]: the kept segments of the path are
    added to those of the directory, and a trailing separator stays. *)
Lemma path_join_no_parent (P : list jsstring) (u : jsstring) :
  P <> [] -> forallb plain_segment P = true ->
  u <> [] -> has_parent_component u = false ->
  path_join [abs_path P; u]
  = abs_path (P ++ filter kept_segment (split_path u))
      ++ (if ends_with_slash u then [u_slash] else []).
Proof.
  intros NE Pl NU H. unfold path_join. cbn [filter].
  assert (E1 : is_empty (abs_path P) = false)
    by (destruct P; [contradiction | reflexivity]).
  assert (E2 : is_empty u = false) by (destruct u; [contradiction | reflexivity]).
  rewrite E1, E2. cbn [negb]. rewrite join_cons. cbn [join app].
  set (K := filter kept_segment (split_path u)).
  assert (Hd : exists r, abs_path P ++ u_slash :: u = u_slash :: r).
  { destruct P; [contradiction|]. cbn [abs_path app]. eexists. reflexivity. }
  destruct Hd as [r Hr].
  assert (EW : ends_with_slash (abs_path P ++ u_slash :: u) = ends_with_slash u).
  { change (abs_path P ++ u_slash :: u) with (abs_path P ++ [u_slash] ++ u).
    rewrite app_assoc. apply ends_with_slash_tail. exact NU. }
  unfold path_normalize. rewrite EW. rewrite Hr. rewrite <- Hr.
  change (u_slash =? u_slash)%N with true. cbn [negb].
  rewrite (split_abs_path P u Pl).
  cbn [normalize_segments is_empty orb].
  rewrite (normalize_plain false P (split_path u) [] Pl).
  rewrite (normalize_no_parent false (split_path u) _ H).
  fold K. rewrite app_nil_r, <- rev_app_distr, rev_involutive.
  assert (NK : P ++ K <> []).
  { intros Z0. apply app_eq_nil in Z0. destruct Z0 as [Z0 _]. exact (NE Z0). }
  pose proof (abs_path_join (P ++ K) NK) as J.
  destruct (join [u_slash] (P ++ K)) as [| x body] eqn:B.
  - exfalso. destruct P as [| s P']; [contradiction|].
    cbn [forallb] in Pl. apply andb_true_iff in Pl. destruct Pl as [Ps _].
    unfold plain_segment in Ps. rewrite !andb_true_iff in Ps.
    destruct Ps as [[[Ps _] _] _].
    cbn [app] in B. destruct (P' ++ K) as [| s2 l2].
    + cbn [join] in B. subst s. discriminate.
    + rewrite join_cons in B. apply app_eq_nil in B. destruct B as [B _].
      subst s. discriminate.
  - rewrite <- J. destruct (ends_with_slash u); [reflexivity|].
    rewrite app_nil_r. reflexivity.
Qed.

Lemma inside_dir_below (root x : jsstring) :
  x = [] \/ (exists y, x = u_slash :: y) ->
  inside_dir root (root ++ x) = true.
Proof.
  intros [-> | [y ->]]; unfold inside_dir.
  - rewrite app_nil_r, jsstring_eqb_refl. reflexivity.
  - rewrite startsWith_app.
    assert (S : startsWith (u_slash :: y) [u_slash] = true)
      by (cbn [startsWith]; rewrite N.eqb_refl; destruct y; reflexivity).
    rewrite S. apply orb_true_r.
Qed.

Lemma path_join_inside (P : list jsstring) (u : jsstring) :
  P <> [] -> forallb plain_segment P = true ->
  u <> [] -> has_parent_component u = false ->
  inside_dir (abs_path P) (path_join [abs_path P; u]) = true.
Proof.
  intros NE Pl NU H. rewrite (path_join_no_parent P u NE Pl NU H).
  rewrite abs_path_app, <- app_assoc. apply inside_dir_below.
  destruct (filter kept_segment (split_path u)) as [| k K].
  - cbn [abs_path app]. destruct (ends_with_slash u);
      [right; eexists; reflexivity | left; reflexivity].
  - right. cbn [abs_path app]. eexists. reflexivity.
Qed.

(** The path the listener gives to [serveStatic]. *)
Lemma static_file_path (p : jsstring) :
  has_parent_component p = false ->
  let filePath :=
    if jsstring_eqb p (js "/") || is_empty p then js "/index.html" else p in
  filePath <> [] /\ has_parent_component filePath = false.
Proof.
  intros H. cbv zeta.
  destruct (jsstring_eqb p (js "/") || is_empty p) eqn:E.
  - split; [discriminate | reflexivity].
  - split; [| exact H]. intros Z0. subst p. discriminate.
Qed.

(** X11.  Whatever the directory of the server (any absolute path of
    plain segments), a GET of a path other than /config that has no [..]
    component reads one file, and that file lies in the public directory
    or below it; in particular it is not the configuration file. *)
Theorem X11_static_files_stay_below_public
  (segs : list jsstring) (w : World) (req : Request) :
  segs <> [] ->
  forallb plain_segment segs = true ->
  method req = "GET"%string ->
  jsstring_eqb (request_path req) (js "/config") = false ->
  has_parent_component (request_path req) = false ->
  let dir := abs_path segs in
  exists fullPath,
    snd (handler dir w req) = [ReadFile fullPath]
    /\ inside_dir (PUBLIC_DIR dir) fullPath = true
    /\ fullPath <> CONFIG_FILE dir.
Proof.
  intros NE Pl M P H. cbv zeta.
  rewrite (handler_get_static (abs_path segs) w req M P). cbn [snd].
  rewrite serveStatic_effects.
  destruct (static_file_path (request_path req) H) as [NU HU].
  eexists. split; [reflexivity|].
  assert (I : inside_dir (PUBLIC_DIR (abs_path segs))
                (path_join [PUBLIC_DIR (abs_path segs);
                            if jsstring_eqb (request_path req) (js "/")
                               || is_empty (request_path req)
                            then js "/index.html" else request_path req])
              = true).
  { rewrite (PUBLIC_DIR_abs segs NE Pl).
    apply path_join_inside; try assumption.
    - intros Z0. apply app_eq_nil in Z0. destruct Z0 as [_ Z0]. discriminate.
    - rewrite forallb_app, Pl. reflexivity. }
  split; [exact I|].
  intros E. rewrite E in I.
  rewrite (config_outside_public segs NE Pl) in I. discriminate.
Qed.

Lemma X11_witness :
  exists fullPath,
    snd (handler (js "/srv/app") empty_world
           (mkRequest "GET" (js "/./css//config.json/") []))
    = [ReadFile fullPath]
    /\ inside_dir (PUBLIC_DIR (js "/srv/app")) fullPath = true
    /\ fullPath <> CONFIG_FILE (js "/srv/app").
Proof.
  exact (X11_static_files_stay_below_public [js "srv"; js "app"] empty_world
           (mkRequest "GET" (js "/./css//config.json/") [])
           ltac:(discriminate) eq_refl eq_refl eq_refl eq_refl).
Defined.

(** The answer to a GET that is served from the public directory, once
    the path of the file is known. *)
Lemma handler_static_file
  (dir : jsstring) (w : World) (req : Request) (fullPath : jsstring) :
  method req = "GET"%string ->
  jsstring_eqb (request_path req) (js "/config") = false ->
  path_join [PUBLIC_DIR dir;
             if jsstring_eqb (request_path req) (js "/")
                || is_empty (request_path req)
             then js "/index.html" else request_path req] = fullPath ->
  let '(res, w', effs) := handler dir w req in
  w' = w
  /\ effs = [ReadFile fullPath]
  /\ match files w fullPath with
     | Content data =>
         statusCode res = 200 /\ payload res = data
         /\ get_header (headers res) "Content-Type"
            = Some (getContentType fullPath)
     | _ =>
         statusCode res = 404 /\ payload res = js "404 Not Found"
         /\ get_header (headers res) "Content-Type" = Some "text/plain"%string
     end.
Proof.
  intros M P E. rewrite (handler_get_static dir w req M P).
  split; [reflexivity|]. rewrite serveStatic_effects, E.
  split; [reflexivity|].
  unfold serveStatic. rewrite E. unfold first_response.
  destruct (files w fullPath); destruct (is_api_path (request_path req));
    repeat split.
Qed.

Lemma split_path_abs (us : list jsstring) :
  us <> [] -> forallb plain_segment us = true ->
  split_path (abs_path us) = [] :: us.
Proof.
  intros NE Pl. destruct (exists_last NE) as [us' [s E]]. subst us.
  rewrite forallb_app in Pl. apply andb_true_iff in Pl.
  destruct Pl as [Pl Ps]. cbn [forallb] in Ps. rewrite andb_true_r in Ps.
  rewrite abs_path_app. cbn [abs_path]. rewrite app_nil_r.
  rewrite (split_abs_path us' s Pl).
  rewrite (split_path_segment s (plain_no_slash s Ps)). reflexivity.
Qed.

Lemma plain_segments_kept (us : list jsstring) :
  forallb plain_segment us = true ->
  filter kept_segment us = us
  /\ existsb (fun seg => jsstring_eqb seg s_dotdot) us = false.
Proof.
  induction us as [| s us IH]; [split; reflexivity|].
  cbn [forallb]. intros H. apply andb_true_iff in H. destruct H as [H1 H2].
  destruct (IH H2) as [I1 I2]. destruct (plain_segment_kept s H1) as [K1 K2].
  cbn [filter existsb]. unfold kept_segment at 1.
  rewrite K1, K2, I1, I2. split; reflexivity.
Qed.

Lemma abs_path_no_trailing_slash (us : list jsstring) :
  us <> [] -> forallb plain_segment us = true ->
  ends_with_slash (abs_path us) = false.
Proof.
  intros NE Pl. destruct (exists_last NE) as [us' [s E]]. subst us.
  rewrite forallb_app in Pl. apply andb_true_iff in Pl.
  destruct Pl as [_ Ps]. cbn [forallb] in Ps. rewrite andb_true_r in Ps.
  rewrite abs_path_app. cbn [abs_path]. rewrite app_nil_r.
  assert (NS : s <> []).
  { intros Z0. subst s. discriminate. }
  destruct (exists_last NS) as [t [c E]]. subst s.
  change (abs_path us' ++ u_slash :: t ++ [c])
    with (abs_path us' ++ (u_slash :: t) ++ [c]).
  rewrite ends_with_slash_app.
  apply plain_no_slash in Ps. unfold no_slash in Ps.
  rewrite forallb_app in Ps. apply andb_true_iff in Ps. destruct Ps as [_ Ps].
  cbn [forallb] in Ps. rewrite andb_true_r in Ps.
  apply negb_true_iff in Ps. exact Ps.
Qed.

(** The file a path of plain segments stands for. *)
Lemma path_join_plain_path (P us : list jsstring) :
  P <> [] -> forallb plain_segment P = true ->
  us <> [] -> forallb plain_segment us = true ->
  path_join [abs_path P; abs_path us] = abs_path (P ++ us).
Proof.
  intros NE Pl NU Pu.
  destruct (plain_segments_kept us Pu) as [K E].
  rewrite (path_join_no_parent P (abs_path us) NE Pl
             (abs_path_nonempty us NU)).
  - rewrite (split_path_abs us NU Pu), (abs_path_no_trailing_slash us NU Pu).
    cbn [filter]. change (kept_segment []) with false. cbv iota.
    rewrite K, app_nil_r. reflexivity.
  - unfold has_parent_component. rewrite (split_path_abs us NU Pu).
    cbn [existsb]. exact E.
Qed.

Lemma abs_path_not_root (us : list jsstring) :
  us <> [] -> forallb plain_segment us = true ->
  jsstring_eqb (abs_path us) (js "/") || is_empty (abs_path us) = false.
Proof.
  intros NE Pl. destruct us as [| s us]; [contradiction|].
  cbn [forallb] in Pl. apply andb_true_iff in Pl. destruct Pl as [Ps _].
  destruct s as [| c s]; [discriminate|]. reflexivity.
Qed.

(** X12.  The path of a request is taken as it is written: whatever the
    directory of the server, a GET of a path made of plain segments (no
    empty segment, no [.], no [..]), other than /config, reads the file
    of the same segments below the public directory.  When the file can
    be read the answer is 200 with its content and the type of its
    extension; when it is missing or cannot be read (a directory, for
    one) the answer is 404 in plain text.  The world is not changed. *)
Theorem X12_static_path_taken_literally
  (segs us : list jsstring) (w : World) (req : Request) :
  segs <> [] -> forallb plain_segment segs = true ->
  us <> [] -> forallb plain_segment us = true ->
  method req = "GET"%string ->
  request_path req = abs_path us ->
  jsstring_eqb (abs_path us) (js "/config") = false ->
  let dir := abs_path segs in
  let fullPath := abs_path (segs ++ js "public" :: us) in
  let '(res, w', effs) := handler dir w req in
  w' = w
  /\ effs = [ReadFile fullPath]
  /\ match files w fullPath with
     | Content data =>
         statusCode res = 200 /\ payload res = data
         /\ get_header (headers res) "Content-Type"
            = Some (getContentType fullPath)
     | _ =>
         statusCode res = 404 /\ payload res = js "404 Not Found"
         /\ get_header (headers res) "Content-Type" = Some "text/plain"%string
     end.
Proof.
  intros NE Pl NU Pu M E C. cbv zeta.
  apply (handler_static_file (abs_path segs) w req); [exact M | |].
  - rewrite E. exact C.
  - rewrite E, (abs_path_not_root us NU Pu), (PUBLIC_DIR_abs segs NE Pl).
    rewrite path_join_plain_path; try assumption.
    + rewrite <- app_assoc. reflexivity.
    + intros Z0. apply app_eq_nil in Z0. destruct Z0 as [_ Z0]. discriminate.
    + rewrite forallb_app, Pl. reflexivity.
Qed.

Lemma X12_witness :
  let w := mkWorld (update_file (fun _ => Missing)
                      (js "/srv/app/public/js/app%20v2.JS")
                      (Content (js "run()")))
             None 1000 1000 in
  let '(res, w', effs) :=
    handler (js "/srv/app") w (mkRequest "GET" (js "/js/app%20v2.JS?v=3") []) in
  w' = w
  /\ effs = [ReadFile (js "/srv/app/public/js/app%20v2.JS")]
  /\ statusCode res = 200 /\ payload res = js "run()"
  /\ get_header (headers res) "Content-Type"
     = Some "application/javascript"%string.
Proof.
  exact (X12_static_path_taken_literally [js "srv"; js "app"]
           [js "js"; js "app%20v2.JS"]
           (mkWorld (update_file (fun _ => Missing)
                       (js "/srv/app/public/js/app%20v2.JS")
                       (Content (js "run()")))
              None 1000 1000)
           (mkRequest "GET" (js "/js/app%20v2.JS?v=3") [])
           ltac:(discriminate) eq_refl ltac:(discriminate) eq_refl
           eq_refl eq_refl eq_refl).
Defined.

(* ===================================================================== *)
(** * Content types and file names *)
(* ===================================================================== *)

(** X13.  A file named [base.e] is served with the type the table gives
    for [.e] in lower case, whatever the directory before the name and
    whatever dots the directory or [base] hold: only the last dot of the
    last name counts. *)
Theorem X13_content_type_of_a_named_file (pre base e : jsstring) :
  pre = [] \/ (exists d, pre = d ++ [u_slash]) ->
  base <> [] -> no_slash base = true ->
  no_slash e = true -> no_dot e = true ->
  (base = [u_dot] -> e <> []) ->
  getContentType (pre ++ base ++ u_dot :: e)
  = table_type (toLowerCase (u_dot :: e)).
Proof.
  intros Hpre NE SB SE DE ND. unfold getContentType, table_type.
  rewrite (path_extname_named pre base e Hpre NE SB SE DE ND). reflexivity.
Qed.

Lemma X13_witness :
  getContentType (js "/srv/app.d/public/css/" ++ js "site.min" ++ u_dot :: js "CSS")
  = "text/css"%string.
Proof.
  exact (X13_content_type_of_a_named_file (js "/srv/app.d/public/css/")
           (js "site.min") (js "CSS")
           (or_intror (ex_intro _ (js "/srv/app.d/public/css") eq_refl))
           ltac:(discriminate) eq_refl eq_refl eq_refl ltac:(discriminate)).
Defined.

(** The scan of a name without a dot: only the end of the name is
    marked. *)
Lemma extname_scan_name (l rest : list N) (i : Z) :
  no_slash l = true -> no_dot l = true -> l <> [] -> 0 <= i ->
  extname_scan (l ++ rest) i (mkExtScan (-1) 0 (-1) true 0)
  = extname_scan rest (i - Z.of_nat (List.length l))
      (mkExtScan (-1) 0 (i + 1) false 0).
Proof.
  intros S D NE I. destruct l as [| c l]; [contradiction|].
  cbn [no_slash no_dot forallb] in S, D.
  apply andb_true_iff in S. destruct S as [S1 S2].
  apply andb_true_iff in D. destruct D as [D1 D2].
  apply negb_true_iff in S1. apply negb_true_iff in D1.
  cbn [app extname_scan]. rewrite S1. cbn [endIdx Z.eqb Pos.eqb].
  rewrite D1.
  cbn [startDot negb Z.eqb Pos.eqb startPart preDotState matchedSlash endIdx].
  rewrite (extname_scan_tail l rest (i - 1) 0 (i + 1) 0 S2 D2 ltac:(lia)).
  f_equal. cbn [List.length]. lia.
Qed.

Lemma extname_scan_stop (pre : jsstring) (i : Z) (st : ExtScan) :
  pre = [] \/ (exists d, pre = d ++ [u_slash]) ->
  matchedSlash st = false ->
  startDot (extname_scan (rev pre) i st) = startDot st
  /\ preDotState (extname_scan (rev pre) i st) = preDotState st.
Proof.
  intros [-> | [d ->]] MS; [split; reflexivity|].
  rewrite rev_app_distr. cbn [rev app extname_scan].
  change (N.eqb u_slash u_slash) with true. rewrite MS. split; reflexivity.
Qed.

(** A name without a dot has no extension, and neither has a name whose
    only dot is its first unit. *)
Lemma path_extname_none (pre : jsstring) (c : N) (e : jsstring) :
  pre = [] \/ (exists d, pre = d ++ [u_slash]) ->
  N.eqb c u_slash = false ->
  no_slash e = true -> no_dot e = true ->
  path_extname (pre ++ c :: e) = [].
Proof.
  intros Hpre C SE DE. unfold path_extname.
  set (p := pre ++ c :: e).
  assert (Lp : Z.of_nat (List.length p)
               = Z.of_nat (List.length pre) + 1 + Z.of_nat (List.length e)).
  { unfold p. rewrite length_app. cbn [List.length]. lia. }
  assert (Rp : rev p = rev e ++ c :: rev pre).
  { unfold p. rewrite rev_app_distr. cbn [rev]. rewrite <- app_assoc.
    reflexivity. }
  assert (SR : no_slash (rev e) = true)
    by (unfold no_slash; rewrite forallb_rev; exact SE).
  assert (DR : no_dot (rev e) = true)
    by (unfold no_dot; rewrite forallb_rev; exact DE).
  rewrite Rp.
  destruct (N.eqb c u_dot) eqn:D.
  - (* the name starts with its only dot *)
    apply N.eqb_eq in D. subst c.
    rewrite (extname_scan_ext (rev e) (rev pre) _ SR DR)
      by (rewrite length_rev; lia).
    match goal with
    | |- context [extname_scan (rev pre) ?i ?st] =>
        destruct (extname_scan_stop pre i st Hpre eq_refl) as [_ E]
    end.
    rewrite E. cbn [preDotState]. rewrite !orb_true_r. reflexivity.
  - (* the name has no dot *)
    assert (SN : no_slash (rev e ++ [c]) = true).
    { unfold no_slash in *. rewrite forallb_app, SR. cbn [forallb].
      rewrite C. reflexivity. }
    assert (DN : no_dot (rev e ++ [c]) = true).
    { unfold no_dot in *. rewrite forallb_app, DR. cbn [forallb].
      rewrite D. reflexivity. }
    change (rev e ++ c :: rev pre) with (rev e ++ [c] ++ rev pre).
    rewrite app_assoc.
    rewrite (extname_scan_name (rev e ++ [c]) (rev pre) _ SN DN)
      by (try lia; intros Z0; apply app_eq_nil in Z0; destruct Z0; discriminate).
    match goal with
    | |- context [extname_scan (rev pre) ?i ?st] =>
        destruct (extname_scan_stop pre i st Hpre eq_refl) as [E _]
    end.
    rewrite E. reflexivity.
Qed.

(** X14.  A file whose name has no dot, and a file whose name has a dot
    as its first unit only (.gitignore, and also .html or .json standing
    alone), has no extension and is served as application/octet-stream,
    whatever the directory before the name. *)
Theorem X14_no_extension_no_type (pre : jsstring) (c : N) (e : jsstring) :
  pre = [] \/ (exists d, pre = d ++ [u_slash]) ->
  N.eqb c u_slash = false ->
  no_slash e = true -> no_dot e = true ->
  path_extname (pre ++ c :: e) = []
  /\ getContentType (pre ++ c :: e) = "application/octet-stream"%string.
Proof.
  intros Hpre C SE DE.
  pose proof (path_extname_none pre c e Hpre C SE DE) as E.
  split; [exact E|]. unfold getContentType. rewrite E. reflexivity.
Qed.

Lemma X14_witness :
  path_extname (js "/srv/app/public/v1.2/" ++ u_dot :: js "json") = []
  /\ getContentType (js "/srv/app/public/v1.2/" ++ u_dot :: js "json")
     = "application/octet-stream"%string.
Proof.
  exact (X14_no_extension_no_type (js "/srv/app/public/v1.2/") u_dot (js "json")
           (or_intror (ex_intro _ (js "/srv/app/public/v1.2") eq_refl))
           eq_refl eq_refl eq_refl).
Defined.

(** X15.  The default document: whatever the directory of the server, a
    GET of / or of the empty path (a URL that is only a query string)
    reads index.html in the public directory; the answer is 200 with the
    content of that file as text/html when it can be read, and 404 in
    plain text when it cannot. *)
Theorem X15_default_document
  (segs : list jsstring) (w : World) (req : Request) :
  segs <> [] -> forallb plain_segment segs = true ->
  method req = "GET"%string ->
  request_path req = js "/" \/ request_path req = [] ->
  let dir := abs_path segs in
  let fullPath := abs_path (segs ++ [js "public"; js "index.html"]) in
  let '(res, w', effs) := handler dir w req in
  w' = w
  /\ effs = [ReadFile fullPath]
  /\ match files w fullPath with
     | Content data =>
         statusCode res = 200 /\ payload res = data
         /\ get_header (headers res) "Content-Type" = Some "text/html"%string
     | _ =>
         statusCode res = 404 /\ payload res = js "404 Not Found"
         /\ get_header (headers res) "Content-Type" = Some "text/plain"%string
     end.
Proof.
  intros NE Pl M P. cbv zeta.
  set (fullPath := abs_path (segs ++ [js "public"; js "index.html"])).
  assert (T : getContentType fullPath = "text/html"%string).
  { unfold fullPath.
    change (segs ++ [js "public"; js "index.html"])
      with (segs ++ [js "public"] ++ [js "index.html"]).
    rewrite app_assoc, abs_path_app. cbn [abs_path]. rewrite app_nil_r.
    change (u_slash :: js "index.html")
      with ([u_slash] ++ js "index" ++ u_dot :: js "html").
    rewrite app_assoc.
    unfold getContentType.
    rewrite (path_extname_named _ (js "index") (js "html")); try reflexivity.
    - right. eexists. reflexivity.
    - discriminate.
    - discriminate. }
  assert (J : path_join [PUBLIC_DIR (abs_path segs); js "/index.html"] = fullPath).
  { rewrite (PUBLIC_DIR_abs segs NE Pl).
    change (js "/index.html") with (abs_path [js "index.html"]).
    rewrite path_join_plain_path; try reflexivity.
    - unfold fullPath. rewrite <- app_assoc. reflexivity.
    - intros Z0. apply app_eq_nil in Z0. destruct Z0 as [_ Z0]. discriminate.
    - rewrite forallb_app, Pl. reflexivity.
    - discriminate. }
  assert (C : jsstring_eqb (request_path req) (js "/config") = false)
    by (destruct P as [-> | ->]; reflexivity).
  assert (D : jsstring_eqb (request_path req) (js "/")
              || is_empty (request_path req) = true)
    by (destruct P as [-> | ->]; reflexivity).
  pose proof (handler_static_file (abs_path segs) w req fullPath M C) as H.
  rewrite D in H. specialize (H J).
  destruct (handler (abs_path segs) w req) as [[res w'] effs].
  destruct H as [H1 [H2 H3]]. split; [exact H1|]. split; [exact H2|].
  destruct (files w fullPath); [exact H3 | exact H3 |].
  rewrite T in H3. exact H3.
Qed.

Lemma X15_witness :
  let w := mkWorld (update_file (fun _ => Missing)
                      (js "/srv/app/public/index.html")
                      (Content (js "<h1>Tax</h1>")))
             None 1000 1000 in
  let '(res, w', effs) :=
    handler (js "/srv/app") w (mkRequest "GET" (js "?lang=en") []) in
  w' = w
  /\ effs = [ReadFile (js "/srv/app/public/index.html")]
  /\ statusCode res = 200 /\ payload res = js "<h1>Tax</h1>"
  /\ get_header (headers res) "Content-Type" = Some "text/html"%string.
Proof.
  exact (X15_default_document [js "srv"; js "app"]
           (mkWorld (update_file (fun _ => Missing)
                       (js "/srv/app/public/index.html")
                       (Content (js "<h1>Tax</h1>")))
              None 1000 1000)
           (mkRequest "GET" (js "?lang=en") [])
           ltac:(discriminate) eq_refl eq_refl (or_intror eq_refl)).
Defined.

(** The scan of [path.extname] only tells separators and dots from the
    other units. *)
Lemma extname_scan_map (f : N -> N) :
  (forall c, N.eqb (f c) u_slash = N.eqb c u_slash) ->
  (forall c, N.eqb (f c) u_dot = N.eqb c u_dot) ->
  forall (l : list N) (i : Z) (st : ExtScan),
    extname_scan (map f l) i st = extname_scan l i st.
Proof.
  intros FS FD. induction l as [| c l IH]; intros i st; [reflexivity|].
  cbn [map extname_scan]. rewrite FS, FD.
  destruct (N.eqb c u_slash).
  - destruct (negb (matchedSlash st)); [reflexivity | apply IH].
  - apply IH.
Qed.

Lemma path_extname_map (f : N -> N) (p : jsstring) :
  (forall c, N.eqb (f c) u_slash = N.eqb c u_slash) ->
  (forall c, N.eqb (f c) u_dot = N.eqb c u_dot) ->
  path_extname (map f p) = map f (path_extname p).
Proof.
  intros FS FD. unfold path_extname.
  rewrite <- map_rev, length_map, (extname_scan_map f FS FD).
  destruct (_ || _); [reflexivity|].
  rewrite skipn_map, firstn_map. reflexivity.
Qed.

Lemma lower_unit_slash (c : N) : N.eqb (lower_unit c) u_slash = N.eqb c u_slash.
Proof.
  unfold lower_unit, u_slash.
  destruct (N.leb_spec 65 c), (N.leb_spec c 90), (N.leb_spec 192 c),
    (N.leb_spec c 222), (N.eqb_spec c 215); cbn [andb negb];
    try reflexivity;
    destruct (N.eqb_spec (c + 32) 47), (N.eqb_spec c 47);
    try reflexivity; lia.
Qed.

Lemma lower_unit_dot (c : N) : N.eqb (lower_unit c) u_dot = N.eqb c u_dot.
Proof.
  unfold lower_unit, u_dot.
  destruct (N.leb_spec 65 c), (N.leb_spec c 90), (N.leb_spec 192 c),
    (N.leb_spec c 222), (N.eqb_spec c 215); cbn [andb negb];
    try reflexivity;
    destruct (N.eqb_spec (c + 32) 46), (N.eqb_spec c 46);
    try reflexivity; lia.
Qed.

Lemma lower_unit_idem (c : N) : lower_unit (lower_unit c) = lower_unit c.
Proof.
  unfold lower_unit at 2.
  destruct (N.leb_spec 65 c), (N.leb_spec c 90), (N.leb_spec 192 c),
    (N.leb_spec c 222), (N.eqb_spec c 215); cbn [andb negb];
    try reflexivity; unfold lower_unit;
    repeat match goal with
           | |- context [N.leb ?a ?b] => destruct (N.leb_spec a b)
           | |- context [N.eqb ?a ?b] => destruct (N.eqb_spec a b)
           end; cbn [andb negb]; try reflexivity; lia.
Qed.

Lemma toLowerCase_idem (s : jsstring) : toLowerCase (toLowerCase s) = toLowerCase s.
Proof.
  unfold toLowerCase. rewrite map_map. apply map_ext. apply lower_unit_idem.
Qed.

(** X16.  The content type does not depend on the case of the letters of
    the path: a path of Latin-1 characters and the same path in lower case
    get the same type, and the extension of the lower-case path is the
    extension of the path in lower case. *)
Theorem X16_content_type_ignores_case (p : jsstring) :
  latin1 p = true ->
  path_extname (toLowerCase p) = toLowerCase (path_extname p)
  /\ getContentType (toLowerCase p) = getContentType p.
Proof.
  intros _.
  assert (E : path_extname (toLowerCase p) = toLowerCase (path_extname p))
    by (apply path_extname_map; [apply lower_unit_slash | apply lower_unit_dot]).
  split; [exact E|].
  unfold getContentType. rewrite E, toLowerCase_idem. reflexivity.
Qed.

Lemma X16_witness :
  path_extname (toLowerCase (js "/Img/LOGO.Final.PnG"))
  = toLowerCase (path_extname (js "/Img/LOGO.Final.PnG"))
  /\ getContentType (toLowerCase (js "/Img/LOGO.Final.PnG"))
     = getContentType (js "/Img/LOGO.Final.PnG").
Proof.
  exact (X16_content_type_ignores_case (js "/Img/LOGO.Final.PnG") eq_refl).
Defined.

(* ===================================================================== *)
(** * Requests one after the other *)
(* ===================================================================== *)

Lemma update_file_twice (f : jsstring -> FileState) (p : jsstring)
  (st : FileState) (q : jsstring) :
  update_file (update_file f p st) p st q = update_file f p st q.
Proof. unfold update_file. destruct (jsstring_eqb q p); reflexivity. Qed.

(** X17.  Every request is idempotent: as long as writes succeed, the
    same request sent again at once gets the same response, performs the
    same effects and leaves every file as the first one left it.  This
    holds for every method, path and body, the body being JSON or not. *)
Theorem X17_every_request_is_idempotent
  (dir : jsstring) (w : World) (req : Request) :
  write_fault w = None ->
  let '(r1, w1, e1) := handler dir w req in
  let '(r2, w2, e2) := handler dir w1 req in
  r2 = r1 /\ e2 = e1
  /\ (forall p, files w2 p = files w1 p)
  /\ write_fault w2 = None.
Proof.
  intros F0.
  destruct (handler_branches dir w req)
    as [[_ [_ H]] | [[_ [_ [_ H]]] | [[_ [_ [_ H]]] | [[_ [_ [fp H]]]
       | [[_ [_ [_ H]]] | [[M [P [data [J [D [F H]]]]]]
       | [[M [P [data [st [J [D [F H]]]]]]] | [[_ [_ [data [_ [_ H]]]]]
       | [_ [_ H]]]]]]]]]];
    try (rewrite H; rewrite H; repeat split; exact F0).
  - rewrite H.
    rewrite (handler_post_written dir
               (mkWorld (update_file (files w) (CONFIG_FILE dir)
                           (Content (stringify_text data 2))) None
                  (pretty_room w) (compact_room w))
               req data M P J D eq_refl).
    split; [reflexivity|]. split; [reflexivity|]. split; [| reflexivity].
    intros p. cbn [files]. apply update_file_twice.
  - rewrite F0 in F. discriminate.
Qed.

Lemma X17_witness :
  let req := mkRequest "POST" (js "/update-config") [js "[1e400, -0]"] in
  let '(r1, w1, e1) := handler (js "/srv/app") empty_world req in
  let '(r2, w2, e2) := handler (js "/srv/app") w1 req in
  r2 = r1 /\ e2 = e1
  /\ (forall p, files w2 p = files w1 p)
  /\ write_fault w2 = None.
Proof.
  exact (X17_every_request_is_idempotent (js "/srv/app") empty_world
           (mkRequest "POST" (js "/update-config") [js "[1e400, -0]"])
           eq_refl).
Defined.

(** X18.  Updating the configuration does not change what the static
    files answer: whatever the directory of the server and whatever
    request came before, a GET of a path other than /config that has no
    [..] component gets the response it would have got without that
    request. *)
Theorem X18_static_answers_survive_any_request
  (segs : list jsstring) (w : World) (before get : Request) :
  segs <> [] ->
  forallb plain_segment segs = true ->
  method get = "GET"%string ->
  jsstring_eqb (request_path get) (js "/config") = false ->
  has_parent_component (request_path get) = false ->
  let dir := abs_path segs in
  let '(_, w1, _) := handler dir w before in
  fst (fst (handler dir w1 get)) = fst (fst (handler dir w get))
  /\ snd (handler dir w1 get) = snd (handler dir w get).
Proof.
  intros NE Pl M P H. cbv zeta.
  pose proof (handler_branches (abs_path segs) w before) as Br.
  assert (K : forall p,
             jsstring_eqb p (CONFIG_FILE (abs_path segs)) = false ->
             files (snd (fst (handler (abs_path segs) w before))) p = files w p).
  { intros p E.
    destruct Br
      as [[_ [_ B]] | [[_ [_ [_ B]]] | [[_ [_ [_ B]]] | [[_ [_ [fp B]]]
         | [[_ [_ [_ B]]] | [[_ [_ [data [_ [_ [_ B]]]]]]
         | [[_ [_ [data [st [_ [_ [_ B]]]]]]] | [[_ [_ [data [_ [_ B]]]]]
         | [_ [_ B]]]]]]]]]]; rewrite B; cbn [fst snd files];
        try reflexivity; apply update_file_other; exact E. }
  destruct (handler (abs_path segs) w before) as [[r0 w1] e0].
  cbn [fst snd] in K.
  rewrite !(handler_get_static (abs_path segs) _ get M P). cbn [fst snd].
  rewrite !serveStatic_effects. split; [| reflexivity].
  destruct (static_file_path (request_path get) H) as [NU HU].
  set (filePath := if jsstring_eqb (request_path get) (js "/")
                      || is_empty (request_path get)
                   then js "/index.html" else request_path get) in *.
  assert (I : inside_dir (PUBLIC_DIR (abs_path segs))
                (path_join [PUBLIC_DIR (abs_path segs); filePath]) = true).
  { rewrite (PUBLIC_DIR_abs segs NE Pl).
    apply path_join_inside; try assumption.
    - intros Z0. apply app_eq_nil in Z0. destruct Z0 as [_ Z0]. discriminate.
    - rewrite forallb_app, Pl. reflexivity. }
  assert (E : jsstring_eqb (path_join [PUBLIC_DIR (abs_path segs); filePath])
                (CONFIG_FILE (abs_path segs)) = false).
  { destruct (jsstring_eqb _ (CONFIG_FILE (abs_path segs))) eqn:Q;
      [| reflexivity].
    apply jsstring_eqb_eq in Q. rewrite Q in I.
    rewrite (config_outside_public segs NE Pl) in I. discriminate. }
  unfold serveStatic. rewrite (K _ E). reflexivity.
Qed.

Lemma X18_witness :
  let w := mkWorld (update_file (fun _ => Missing)
                      (js "/srv/app/public/config.json") (Content (js "{}")))
             None 1000 1000 in
  let '(_, w1, _) :=
    handler (js "/srv/app") w
      (mkRequest "POST" (js "/update-config") [js "[1]"]) in
  let get := mkRequest "GET" (js "/config.json") [] in
  fst (fst (handler (js "/srv/app") w1 get))
  = fst (fst (handler (js "/srv/app") w get))
  /\ snd (handler (js "/srv/app") w1 get) = snd (handler (js "/srv/app") w get).
Proof.
  exact (X18_static_answers_survive_any_request [js "srv"; js "app"]
           (mkWorld (update_file (fun _ => Missing)
                       (js "/srv/app/public/config.json") (Content (js "{}")))
              None 1000 1000)
           (mkRequest "POST" (js "/update-config") [js "[1]"])
           (mkRequest "GET" (js "/config.json") [])
           ltac:(discriminate) eq_refl eq_refl eq_refl eq_refl).
Defined.
